(** * A decision tree with certified removal: shallow embedding of
      [mulan/trees/tree.py]

    The Python module builds a randomised binary decision tree over
    binary attributes ([Tree.fit]) and removes training instances from it
    ([Tree.delete]).  This file embeds the module function by function and
    states the properties of the specification over that embedding.

    Conventions of the embedding.
    - Numbers.  Counts are [Z].  The floating-point quantities (weights,
      probabilities, Gini values) are exact rationals [Q] kept in lowest
      terms, so that equal numbers are equal terms; [round(v, 8)] is
      rounding half to even at the eighth decimal.
    - [np.exp] and the pseudo-random generator of [numpy.random] are
      parameters of the development (a [Section]); what is assumed of them
      is stated as hypotheses where it is used.
    - Exceptions are values of [exn]; a function that can raise returns a
      sum.  In-place mutation is explicit: [_delete] returns, beside its
      result, the state in which a raised exception leaves the node.
    - The three parallel arrays [X], [y], [keys] of one call always have
      one length and are indexed by the same positions, so one list of
      [sample]s stands for them. *)

From Stdlib Require Import QArith Qround ZArith Lia Lqa Permutation.
From stdpp Require Import gmap strings list fin_maps pretty sorting.

Unset Default Proof Using.
Open Scope Z_scope.

(** ** Exceptions *)

Inductive exn :=
| ValueError (msg : string)
| KeyError (k : Z)
| AttributeError (name : string)
| TypeError (msg : string)
| IndexError (msg : string)
| RecursionError.

(** ** Numbers *)

Module Np.

Definition of_int (z : Z) : Q := inject_Z z.

Definition add (a b : Q) : Q := Qred (a + b).
Definition sub (a b : Q) : Q := Qred (a - b).
Definition mul (a b : Q) : Q := Qred (a * b).
Definition neg (a : Q) : Q := Qred (- a).
(** [a / b]; numpy gives [nan] or [inf] for [b = 0], the quotient of [Q]
    is [0] there.  Every place where the divisor can be [0] is noted at
    the place. *)
Definition div (a b : Q) : Q := Qred (a / b).
Definition square (a : Q) : Q := Qred (a * a).

(** Nearest integer, ties to the even one. *)
Definition round_half_even (q : Q) : Z :=
  let f := Qfloor q in
  match Qcompare (q - inject_Z f) (1 # 2) with
  | Lt => f
  | Gt => f + 1
  | Eq => if Z.even f then f else f + 1
  end.

(** [round(v, 8)] *)
Definition round8 (v : Q) : Q :=
  Qred (Qmake (round_half_even (v * inject_Z 100000000)) 100000000).

Definition sum (l : list Q) : Q := foldr add 0%Q l.

Definition ltb (a b : Q) : bool :=
  match Qcompare a b with Lt => true | _ => false end.

Definition eqb (a b : Q) : bool := Qeq_bool a b.

End Np.

(** ** Data *)

(** One row of the arrays [X], [y], [keys]. *)
Record sample := Sample { s_key : Z; s_x : list Z; s_y : Z }.

(** [len(y)] and [np.sum(y)] of the rows of a call. *)
Definition len {A} (l : list A) : Z := Z.of_nat (length l).
Definition sum_y (rows : list sample) : Z := foldr (fun s acc => s_y s + acc) 0 rows.
Definition keys_of (rows : list sample) : list Z := map s_key rows.

(** [X[:, i] == 1] at one row; [X] is rectangular, so [i] is in range for
    every feature index the code uses. *)
Definition goes_left (i : nat) (s : sample) : bool := Z.eqb (nth i (s_x s) 0) 1.

(** [X[left_indices]] and [X[right_indices]], where [left_indices] are the
    positions of the rows with [X[:, i] == 1] and [right_indices] the other
    positions, both ascending. *)
Definition left_rows (i : nat) (rows : list sample) : list sample :=
  List.filter (goes_left i) rows.
Definition right_rows (i : nat) (rows : list sample) : list sample :=
  List.filter (fun s => negb (goes_left i s)) rows.

(** One side of one attribute in [node_dict['attr'][i]]. *)
Record Branch := mkBranch {
  b_count : Z;
  b_pos_count : Z;
  b_weight : Q;
  b_pos_prob : Q;
  b_index : Q;
  b_weighted_index : Q
}.

(** [node_dict['attr'][i]] *)
Record AttrDict := mkAttr {
  a_left : Branch;
  a_right : Branch;
  a_gini_index : Q
}.

(** The keys of [node_dict] that every node has. *)
Record NodeDict := mkNodeDict {
  count : Z;
  pos_count : Z;
  gini_data : Q
}.

(** [DecisionNode].  A node is a leaf when its [value] is not [None]; the
    keys ['leaf_value'] and ['indices'] of a leaf's [node_dict] and the key
    ['attr'] of a decision node's (a dict in insertion order) are carried by
    the constructors.  [threshold] is never set. *)
Inductive DecisionNode :=
| Leaf (value : Q) (node_dict : NodeDict) (leaf_value : Q) (indices : list Z)
| Decision (feature_i : nat) (node_dict : NodeDict) (attr : list (nat * AttrDict))
           (left_branch right_branch : DecisionNode).

Definition node_dict_of (t : DecisionNode) : NodeDict :=
  match t with
  | Leaf _ nd _ _ => nd
  | Decision _ nd _ _ _ => nd
  end.

(** The fields of a decision node ([feature_i] is [None] at a leaf, its
    branches too). *)
Definition feature_of (t : DecisionNode) : nat :=
  match t with
  | Leaf _ _ _ _ => O
  | Decision f _ _ _ _ => f
  end.
Definition attr_of (t : DecisionNode) : list (nat * AttrDict) :=
  match t with
  | Leaf _ _ _ _ => []
  | Decision _ _ attr _ _ => attr
  end.
Definition left_of (t : DecisionNode) : DecisionNode :=
  match t with
  | Leaf _ _ _ _ => t
  | Decision _ _ _ l _ => l
  end.
Definition right_of (t : DecisionNode) : DecisionNode :=
  match t with
  | Leaf _ _ _ _ => t
  | Decision _ _ _ _ r => r
  end.

(** The arguments of [Tree.__init__]. *)
Record Params := mkParams {
  epsilon : Q;
  gamma : Q;
  max_depth : Z;
  min_samples_split : Z;
  verbose : Z;
  random_state : option Z
}.

(** A fitted [Tree] object. *)
Record Tree := mkTree {
  params : Params;
  n_features_ : nat;
  X_train_ : gmap Z (list Z);
  y_train_ : gmap Z Z;
  root_ : DecisionNode;
  deletion_types_ : list string
}.

(** ** Lookup in a dict kept in insertion order *)

Fixpoint attr_get (i : nat) (attr : list (nat * AttrDict)) : option AttrDict :=
  match attr with
  | [] => None
  | (j, a) :: rest => if Nat.eqb i j then Some a else attr_get i rest
  end.

(** ** [np.setdiff1d] *)

Fixpoint insert_unique (k : Z) (l : list Z) : list Z :=
  match l with
  | [] => [k]
  | h :: t =>
      if k <? h then k :: l
      else if k =? h then l
      else h :: insert_unique k t
  end.

(** [np.unique]: the sorted distinct elements. *)
Definition np_unique (l : list Z) : list Z := foldr insert_unique [] l.

Definition mem (k : Z) (l : list Z) : bool := existsb (Z.eqb k) l.

(** [np.setdiff1d(arr, elements)]: the sorted distinct elements of [arr]
    that are not in [elements]. *)
Definition _remove_elements (arr elements : list Z) : list Z :=
  List.filter (fun k => negb (mem k elements)) (np_unique arr).

(** ** The state outside the tree: the generator of [numpy.random] *)

Section Engine.

Context {RNG : Type}.

(** [np.exp] *)
Variable np_exp : Q -> Q.
(** [np.random.seed(s)]: the generator after seeding.  With [s = None] the
    seed is fresh entropy of the operating system, which is part of the
    abstract generator state here. *)
Variable np_random_seed : option Z -> RNG -> RNG.
(** [np.random.choice(a, p=p)] on a non-empty [a]: the element drawn and
    the generator after the draw. *)
Variable np_random_choice : list nat -> list Q -> RNG -> nat * RNG.

(** The generator, and how many times it has been seeded (a ghost counter,
    read by no function). *)
Record World := mkWorld { gen : RNG; seed_calls : nat }.

(** Computations that read and write the generator and may raise. *)
Definition M (A : Type) : Type := World -> (exn + A) * World.

Definition ret {A} (a : A) : M A := fun w => (inr a, w).
Definition raise {A} (e : exn) : M A := fun w => (inl e, w).
Definition bind {A B} (m : M A) (k : A -> M B) : M B :=
  fun w => match m w with
           | (inl e, w') => (inl e, w')
           | (inr a, w') => k a w'
           end.

Notation "x <- c1 ;; c2" := (bind c1 (fun x => c2))
  (at level 100, c1 at next level, right associativity).

Definition seed (s : option Z) : M unit :=
  fun w => (inr tt, {| gen := np_random_seed s (gen w); seed_calls := S (seed_calls w) |}).

Definition choice (a : list nat) (p : list Q) : M nat :=
  match a with
  | [] => raise (ValueError "'a' cannot be empty unless no samples are taken")
  | _ => fun w => let (c, g) := np_random_choice a p (gen w) in
                  (inr c, {| gen := g; seed_calls := seed_calls w |})
  end.

(** ** Gini statistics *)

(** [1 - (np.square(p) + np.square(1 - p))] *)
Definition gini_of_prob (p : Q) : Q :=
  Np.sub 1 (Np.add (Np.square p) (Np.square (Np.sub 1 p))).

(** [_compute_gini_index] *)
Definition _compute_gini_index (l r : Branch) : Q :=
  Np.round8 (Np.add (b_weighted_index l) (b_weighted_index r)).

(** The record of one side, from its count, its positive count and the
    count of the node, as lines 199-207 and 513-516 compute it. *)
Definition branch_of (cnt pos n_samples : Z) : Branch :=
  let pos_prob := Np.div (Np.of_int pos) (Np.of_int cnt) in
  let weight := Np.div (Np.of_int cnt) (Np.of_int n_samples) in
  let index := gini_of_prob pos_prob in
  {| b_count := cnt; b_pos_count := pos; b_weight := weight;
     b_pos_prob := pos_prob; b_index := index;
     b_weighted_index := Np.mul weight index |}.

(** [round(1 - (pos_count / n)**2 - (neg_count / n)**2, 8)] *)
Definition gini_data_of (pos neg n : Z) : Q :=
  Np.round8 (Np.sub (Np.sub 1 (Np.square (Np.div (Np.of_int pos) (Np.of_int n))))
                    (Np.square (Np.div (Np.of_int neg) (Np.of_int n)))).

(** The body of the loop over the features in [_build_tree]: the entry of
    feature [i] in [node_dict['attr']], if both branches have a row. *)
Definition split_attr (n_samples : Z) (rows : list sample) (i : nat) : option AttrDict :=
  let left_indices := left_rows i rows in
  let right_indices := right_rows i rows in
  if (0 <? len left_indices) && (0 <? len right_indices) then
    let left_count := len left_indices in
    let left_pos_count := sum_y left_indices in
    let right_count := n_samples - left_count in
    let right_pos_count := sum_y right_indices in
    let l := branch_of left_count left_pos_count n_samples in
    let r := branch_of right_count right_pos_count n_samples in
    Some {| a_left := l; a_right := r; a_gini_index := _compute_gini_index l r |}
  else None.

Definition build_attrs (F : nat) (n_samples : Z) (rows : list sample)
  : list (nat * AttrDict) :=
  omap (fun i => match split_attr n_samples rows i with
                 | Some a => Some (i, a)
                 | None => None
                 end) (seq 0 F).

(** [np.exp(-(self.epsilon * g) / (5 * self.gamma))] for each [g].  For
    [gamma = 0] numpy divides by zero. *)
Definition exp_weights (self : Params) (gini_indexes : list Q) : list Q :=
  map (fun g => np_exp (Np.div (Np.neg (Np.mul (epsilon self) g))
                               (Np.mul 5 (gamma self)))) gini_indexes.

(** [p / p.sum()] *)
Definition normalize (p : list Q) : list Q :=
  let s := Np.sum p in map (fun v => Np.div v s) p.

(** ** [_build_tree] *)

Definition is_mono (nd : NodeDict) : bool :=
  (pos_count nd =? 0) || (pos_count nd =? count nd).

Fixpoint build_fuel (fuel : nat) (self : Params) (F : nat)
         (rows : list sample) (current_depth : nat) : M DecisionNode :=
  match fuel with
  | O => raise RecursionError
  | S fuel' =>
      let n_samples := len rows in
      let pos_count := sum_y rows in
      let neg_count := n_samples - pos_count in
      let gini_data := gini_data_of pos_count neg_count n_samples in
      let node_dict := {| count := n_samples; pos_count := pos_count;
                          gini_data := gini_data |} in
      if 0 <? count node_dict then
        if is_mono node_dict && Nat.eqb current_depth 0 then
          raise (ValueError "root node contains only instances from the same class!")
        else
          let create_leaf := is_mono node_dict in
          if (n_samples <? min_samples_split self)
             || (Z.of_nat current_depth =? max_depth self)
             || (Z.of_nat F - Z.of_nat current_depth =? 0)
             || create_leaf
          then
            let leaf_value := Np.div (Np.of_int pos_count) (Np.of_int n_samples) in
            ret (Leaf leaf_value node_dict
                      (if pos_count =? 0 then 0%Q
                       else Np.div (Np.of_int pos_count) (Np.of_int n_samples))
                      (keys_of rows))
          else
            let attr := build_attrs F n_samples rows in
            let gini_indexes := map (fun ia => a_gini_index (snd ia)) attr in
            let attr_indices := map fst attr in
            let p := normalize (exp_weights self gini_indexes) in
            _ <- seed (random_state self) ;;
            chosen_i <- choice attr_indices p ;;
            left <- build_fuel fuel' self F (left_rows chosen_i rows) (S current_depth) ;;
            right <- build_fuel fuel' self F (right_rows chosen_i rows) (S current_depth) ;;
            ret (Decision chosen_i node_dict attr left right)
      else
        raise (ValueError ("Zero samples in this node!, depth: " +:+ pretty current_depth))
  end.

(** Each recursive call gets fewer rows (the chosen attribute has a row on
    each side), so one more than the number of rows is fuel enough: see
    [_build_tree_fuel], [fit_fuel] and [delete_fuel]. *)
Definition _build_tree (self : Params) (F : nat) (rows : list sample)
           (current_depth : nat) : M DecisionNode :=
  build_fuel (S (length rows)) self F rows current_depth.


(** ** [fit] *)

(** [_numpy_to_dict]: row [i] of [X] and [y] under key [i]. *)
Fixpoint _numpy_to_dict (i : Z) (X : list (list Z)) (y : list Z)
  : gmap Z (list Z) * gmap Z Z :=
  match X, y with
  | xi :: X', yi :: y' =>
      let (Xd, yd) := _numpy_to_dict (i + 1) X' y' in
      (<[i := xi]> Xd, <[i := yi]> yd)
  | _, _ => (∅, ∅)
  end.

(** The rows of [X], [y] with [keys = np.arange(X.shape[0])]. *)
Fixpoint rows_from (i : Z) (X : list (list Z)) (y : list Z) : list sample :=
  match X, y with
  | xi :: X', yi :: y' => Sample i xi yi :: rows_from (i + 1) X' y'
  | _, _ => []
  end.

(** [X.shape[1]] of a rectangular array given by its rows. *)
Definition shape1 (X : list (list Z)) : nat :=
  match X with
  | [] => O
  | r :: _ => length r
  end.

(** [Tree.fit].  [_numpy_to_dict] reads [y[i]] for every row [i] of [X] and
    raises [IndexError] when [y] is shorter than [X].  Labels of [y] beyond
    the rows of [X] are left out: the code would count them in the positive
    count of the root and nowhere else. *)
Definition fit (self : Params) (X : list (list Z)) (y : list Z) : M Tree :=
  let n_features_ := shape1 X in
  if (length y <? length X)%nat then
    raise (IndexError ("index " +:+ pretty (length y)
                       +:+ " is out of bounds for axis 0 with size "
                       +:+ pretty (length y)))
  else
    let (Xd, yd) := _numpy_to_dict 0 X y in
    root <- _build_tree self n_features_ (rows_from 0 X y) 0 ;;
    ret {| params := self; n_features_ := n_features_; X_train_ := Xd;
           y_train_ := yd; root_ := root; deletion_types_ := [] |}.

(** ** [predict_proba] *)

(** [_predict_value].  A sample shorter than the feature index raises
    [IndexError] in Python; samples have [n_features_] entries. *)
Fixpoint _predict_value (x : list Z) (tree : DecisionNode) : Q :=
  match tree with
  | Leaf value _ _ _ => value
  | Decision feature_i _ _ left_branch right_branch =>
      if Z.eqb (nth feature_i x 0) 1
      then _predict_value x left_branch
      else _predict_value x right_branch
  end.

(** One row [[1 - p, p]] per sample. *)
Definition predict_proba (self : Tree) (X : list (list Z)) : list (Q * Q) :=
  map (fun x => let p := _predict_value x (root_ self) in (Np.sub 1 p, p)) X.

(** [np.argmax] of a row of two: the first maximum. *)
Definition predict (self : Tree) (X : list (list Z)) : list Z :=
  map (fun pr : Q * Q => if Np.ltb (fst pr) (snd pr) then 1 else 0)
      (predict_proba self X).

(** ** Reading the tree *)

(** [get_indices] *)
Fixpoint get_indices (tree : DecisionNode) : list Z :=
  match tree with
  | Leaf _ _ _ indices => indices
  | Decision _ _ _ left_branch right_branch =>
      get_indices left_branch ++ get_indices right_branch
  end.

(** [equals] with both nodes given (the recursive calls).  It returns [1]
    or [0].  The recursive calls pass [this.left_branch] and
    [other.left_branch] by position, so they bind the parameter [other] to
    the branch of [this] and [this] to the branch of [other]: the two
    nodes change roles at every level.  [equals_swapped other this] is the
    call with the roles exchanged.  A leaf has [feature_i = None] and a
    decision node [value = None], so a leaf and a decision node compare
    unequal before any recursive call is made. *)
Fixpoint equals (this other : DecisionNode) : Z :=
  match this, other with
  | Leaf v _ _ _, Leaf v' _ _ _ => if Np.eqb v v' then 1 else 0
  | Leaf _ _ _ _, Decision _ _ _ _ _ => 0
  | Decision f _ _ l r, Decision f' _ _ l' r' =>
      if Nat.eqb f f'
         && negb (equals_swapped l l' =? 0)
         && negb (equals_swapped r r' =? 0)
      then 1 else 0
  | Decision _ _ _ _ _, Leaf _ _ _ _ => 0
  end
with equals_swapped (other this : DecisionNode) : Z :=
  match this, other with
  | Leaf v _ _ _, Leaf v' _ _ _ => if Np.eqb v v' then 1 else 0
  | Leaf _ _ _ _, Decision _ _ _ _ _ => 0
  | Decision f _ _ _ _, Decision f' _ _ l' r' =>
      if Nat.eqb f f'
         && negb (equals l' (left_of this) =? 0)
         && negb (equals r' (right_of this) =? 0)
      then 1 else 0
  | Decision _ _ _ _ _, Leaf _ _ _ _ => 0
  end.

(** [Tree.equals(other)], called on two objects: [0] when [other] is
    [None], else the comparison of the two roots. *)
Definition Tree_equals (self : Tree) (other : option Tree) : Z :=
  match other with
  | None => 0
  | Some o => equals (root_ self) (root_ o)
  end.

(** [_get_numpy_data]: the rows of the store under [indices]; a key that
    is not in the store raises [KeyError]. *)
Fixpoint _get_numpy_data (Xd : gmap Z (list Z)) (yd : gmap Z Z) (indices : list Z)
  : exn + list sample :=
  match indices with
  | [] => inr []
  | ndx :: rest =>
      match Xd !! ndx, yd !! ndx with
      | Some xi, Some yi =>
          match _get_numpy_data Xd yd rest with
          | inr rows => inr (Sample ndx xi yi :: rows)
          | inl e => inl e
          end
      | _, _ => inl (KeyError ndx)
      end
  end.

(** ** [delete] *)

(** [_update_leaf_node]: the leaf after the update; [gini_data] is not
    recomputed. *)
Definition _update_leaf_node (node_dict : NodeDict) (indices : list Z)
           (batch : list sample) : DecisionNode :=
  let count' := count node_dict - len batch in
  let pos_count' := pos_count node_dict - sum_y batch in
  let leaf_value' := if pos_count' =? 0 then 0%Q
                     else Np.div (Np.of_int pos_count') (Np.of_int count') in
  Leaf leaf_value'
       {| count := count'; pos_count := pos_count'; gini_data := gini_data node_dict |}
       leaf_value'
       (_remove_elements indices (keys_of batch)).

(** [_update_decision_node]: [None] when the rows to remove are all the rows
    of the branch, else the record of the branch after the removal.
    [node_count] is [node_dict['count']], already updated by the caller. *)
Definition _update_decision_node (node_count : Z) (abranch_dict : Branch)
           (y : list sample) : option Branch :=
  if b_count abranch_dict <=? len y then None
  else Some (branch_of (b_count abranch_dict - len y)
                       (b_pos_count abranch_dict - sum_y y) node_count).

(** The statistics of a decision node after the rows of [batch] are taken
    away (lines 322-328); the count of negatives is computed as
    [pos_count - count].  When no row stays ([count' = 0]) numpy computes
    [nan] for [gini_data]; at the root the call then raises, and below the
    root the parent has rebuilt before. *)
Definition update_node_dict (node_dict : NodeDict) (batch : list sample) : NodeDict :=
  let count' := count node_dict - len batch in
  let pos_count' := pos_count node_dict - sum_y batch in
  let neg_count := pos_count' - count' in
  {| count := count'; pos_count := pos_count';
     gini_data := gini_data_of pos_count' neg_count count' |}.

(** One round of the loop over [node_dict['attr']] (lines 392-418): [None]
    when the attribute gets a hanging branch, else its updated entry.  A
    side with no row to remove is left as it is, weight included. *)
Definition update_attr (node_count : Z) (batch : list sample) (attr_ndx : nat)
           (a : AttrDict) : option AttrDict :=
  let y_left := left_rows attr_ndx batch in
  let y_right := right_rows attr_ndx batch in
  let left_status := if 0 <? len y_left
                     then _update_decision_node node_count (a_left a) y_left
                     else Some (a_left a) in
  let right_status := if 0 <? len y_right
                      then _update_decision_node node_count (a_right a) y_right
                      else Some (a_right a) in
  match left_status, right_status with
  | Some l, Some r => Some {| a_left := l; a_right := r;
                              a_gini_index := _compute_gini_index l r |}
  | _, _ => None
  end.

(** What the loop leaves behind, per attribute in dict order. *)
Definition update_attrs (node_count : Z) (batch : list sample)
           (attr : list (nat * AttrDict)) : list (nat * option AttrDict) :=
  map (fun ia => (fst ia, update_attr node_count batch (fst ia) (snd ia))) attr.

(** [node_dict['attr']] after the invalid attributes are deleted. *)
Definition valid_attrs (upd : list (nat * option AttrDict)) : list (nat * AttrDict) :=
  omap (fun ia => match snd ia with
                  | Some a => Some (fst ia, a)
                  | None => None
                  end) upd.

Definition old_gini_indexes (attr : list (nat * AttrDict)) : list Q :=
  map (fun ia => a_gini_index (snd ia)) attr.

(** [len(invalid_indices)] *)
Definition invalid_count (upd : list (nat * option AttrDict)) : nat :=
  length (List.filter (fun ia => match snd ia with None => true | Some _ => false end) upd).

(** [p] before it is normalised, entry by entry:
    [np.exp(-(self.epsilon * g) / (5 * self.gamma))] of the updated Gini
    index [g] of a valid attribute, and [0] at an invalid one
    ([p[invalid_indices] = 0], whatever was appended to [gini_indexes]). *)
Definition new_weights (self : Params) (upd : list (nat * option AttrDict)) : list Q :=
  map (fun ia => match snd ia with
                 | Some a => np_exp (Np.div (Np.neg (Np.mul (epsilon self) (a_gini_index a)))
                                            (Np.mul 5 (gamma self)))
                 | None => 0%Q
                 end) upd.

(** [np.any(p / old_p > np.exp(eps)) or np.any(p / old_p < np.exp(-eps))].
    When a sum is [0] the normalised vector is all [nan] in numpy and every
    comparison is false. *)
Definition diverges (self : Params) (attr : list (nat * AttrDict))
           (upd : list (nat * option AttrDict)) : bool :=
  let old_w := exp_weights self (old_gini_indexes attr) in
  let new_w := new_weights self upd in
  if Np.eqb (Np.sum old_w) 0 || Np.eqb (Np.sum new_w) 0 then false
  else
    let ratio := map (fun pq : Q * Q => Np.div (fst pq) (snd pq))
                     (combine (normalize new_w) (normalize old_w)) in
    existsb (fun r => Np.ltb (np_exp (epsilon self)) r) ratio
    || existsb (fun r => Np.ltb r (np_exp (Np.neg (epsilon self)))) ratio.

(** What a call of [_delete] leaves: the node it returns, or the exception
    it raises together with the node as the mutations made so far have left
    it; in both cases [self.deletion_types_]. *)
Inductive outcome :=
| Done (node : DecisionNode) (trace : list string)
| Raised (e : exn) (tree : DecisionNode) (trace : list string).

(** The rebuild of lines 360-364 and 441-448: gather the keys under the
    node, drop the removed ones, fetch the rows and build at this depth. *)
Definition rebuild (self : Tree) (tree : DecisionNode) (remove_indices : list Z)
           (dtype : string) (current_depth : nat) (trace : list string)
  : World -> outcome * World :=
  fun w =>
    let indices := _remove_elements (get_indices tree) remove_indices in
    match _get_numpy_data (X_train_ self) (y_train_ self) indices with
    | inl e => (Raised e tree trace, w)
    | inr rows =>
        let trace' := trace ++ [dtype +:+ "_" +:+ pretty current_depth] in
        match _build_tree (params self) (n_features_ self) rows current_depth w with
        | (inl e, w') => (Raised e tree trace', w')
        | (inr node, w') => (Done node trace', w')
        end
    end.

(** [_delete], on the rows [batch] to remove that are routed to [tree].
    In the collapse to a leaf (tag [1b]) the new leaf takes over the
    [node_dict] of the node; its [leaf_value] is [pos_count / count] without
    the test for [0] that [_build_tree] and [_update_leaf_node] make. *)
Fixpoint _delete (self : Tree) (batch : list sample) (tree : DecisionNode)
         (current_depth : nat) (trace : list string) (w : World) : outcome * World :=
  match tree with
  | Leaf _ node_dict _ indices =>
      (Done (_update_leaf_node node_dict indices batch) (trace ++ ["1a"]), w)
  | Decision feature_i node_dict0 attr left_branch right_branch =>
      let node_dict := update_node_dict node_dict0 batch in
      let left_indices := left_rows feature_i batch in
      let right_indices := right_rows feature_i batch in
      if Nat.eqb current_depth 0 && is_mono node_dict then
        (Raised (ValueError "Instances in the root node are all from the same class!")
                (Decision feature_i node_dict attr left_branch right_branch) trace, w)
      else if is_mono node_dict then
        let leaf_value := Np.div (Np.of_int (pos_count node_dict))
                                 (Np.of_int (count node_dict)) in
        let indices := _remove_elements (get_indices tree) (keys_of batch) in
        (Done (Leaf leaf_value node_dict leaf_value indices) (trace ++ ["1b"]), w)
      else
        match attr_get feature_i attr with
        | None =>
            (Raised (KeyError (Z.of_nat feature_i))
                    (Decision feature_i node_dict attr left_branch right_branch) trace, w)
        | Some chosen =>
            if (b_count (a_left chosen) - len left_indices <=? 0)
               || (b_count (a_right chosen) - len right_indices <=? 0)
            then
              rebuild self (Decision feature_i node_dict attr left_branch right_branch)
                      (keys_of batch) "2a" current_depth trace w
            else
              let upd := update_attrs (count node_dict) batch attr in
              let attr' := valid_attrs upd in
              if diverges (params self) attr upd then
                rebuild self (Decision feature_i node_dict attr' left_branch right_branch)
                        (keys_of batch)
                        (if Nat.ltb 0 (invalid_count upd) then "2b" else "2c")
                        current_depth trace w
              else
                let after_left :=
                  if 0 <? len left_indices
                  then _delete self left_indices left_branch (S current_depth) trace w
                  else (Done left_branch trace, w) in
                match after_left with
                | (Raised e left' trace', w') =>
                    (Raised e (Decision feature_i node_dict attr' left' right_branch) trace', w')
                | (Done left' trace', w') =>
                    let after_right :=
                      if 0 <? len right_indices
                      then _delete self right_indices right_branch (S current_depth) trace' w'
                      else (Done right_branch trace', w') in
                    match after_right with
                    | (Raised e right' trace'', w'') =>
                        (Raised e (Decision feature_i node_dict attr' left' right') trace'', w'')
                    | (Done right' trace'', w'') =>
                        (Done (Decision feature_i node_dict attr' left' right') trace'', w'')
                    end
                end
        end
  end.

(** The rows of the keys to remove, read from the store (lines 288-292). *)
Definition batch_of (self : Tree) (remove_indices : list Z) : exn + list sample :=
  _get_numpy_data (X_train_ self) (y_train_ self) remove_indices.

(** [del self.X_train_[k]; del self.y_train_[k]] for each key in turn; a
    key that is gone raises [KeyError] and the keys before it stay deleted. *)
Fixpoint del_keys (Xd : gmap Z (list Z)) (yd : gmap Z Z) (remove_indices : list Z)
  : option exn * (gmap Z (list Z) * gmap Z Z) :=
  match remove_indices with
  | [] => (None, (Xd, yd))
  | k :: rest =>
      match Xd !! k with
      | None => (Some (KeyError k), (Xd, yd))
      | Some _ =>
          match yd !! k with
          | None => (Some (KeyError k), (delete k Xd, yd))
          | Some _ => del_keys (delete k Xd) (delete k yd) rest
          end
      end
  end.

(** [Tree.delete] on a one-dimensional integer array of keys: the trace or
    the exception, and the object afterwards.  The rows of the keys are
    read first (a key that is not stored raises before anything is
    written), then [deletion_types_] is reset and [_delete] runs from the
    root; the keys leave the store only after [_delete] has returned.  When
    [_delete] raises, [root_] is the tree as the call has left it. *)
Definition delete (self : Tree) (remove_indices : list Z) (w : World)
  : (exn + list string) * Tree * World :=
  match batch_of self remove_indices with
  | inl e => (inl e, self, w)
  | inr batch =>
      match _delete self batch (root_ self) 0 [] w with
      | (Raised e tree trace, w') =>
          (inl e,
           {| params := params self; n_features_ := n_features_ self;
              X_train_ := X_train_ self; y_train_ := y_train_ self;
              root_ := tree; deletion_types_ := trace |}, w')
      | (Done node trace, w') =>
          let '(err, (Xd, yd)) := del_keys (X_train_ self) (y_train_ self) remove_indices in
          let self' := {| params := params self; n_features_ := n_features_ self;
                          X_train_ := Xd; y_train_ := yd;
                          root_ := node; deletion_types_ := trace |} in
          match err with
          | Some e => (inl e, self', w')
          | None => (inr trace, self', w')
          end
      end
  end.

End Engine.

(** ** [copy] *)

(** What an attribute of a [Tree] object can hold. *)
Inductive attr_value :=
| VFloat (q : Q)
| VInt (z : Z)
| VSeed (s : option Z)
| VDictX (m : gmap Z (list Z))
| VDictY (m : gmap Z Z)
| VNode (t : DecisionNode)
| VTrace (l : list string).

(** [self.<name>] on a fitted tree: the attributes set by [__init__], [fit]
    and [delete]; any other name raises [AttributeError]. *)
Definition getattr (self : Tree) (name : string) : exn + attr_value :=
  if String.eqb name "epsilon" then inr (VFloat (epsilon (params self)))
  else if String.eqb name "gamma" then inr (VFloat (gamma (params self)))
  else if String.eqb name "max_depth" then inr (VInt (max_depth (params self)))
  else if String.eqb name "min_samples_split" then inr (VInt (min_samples_split (params self)))
  else if String.eqb name "random_state" then inr (VSeed (random_state (params self)))
  else if String.eqb name "verbose" then inr (VInt (verbose (params self)))
  else if String.eqb name "n_features_" then inr (VInt (Z.of_nat (n_features_ self)))
  else if String.eqb name "X_train_" then inr (VDictX (X_train_ self))
  else if String.eqb name "y_train_" then inr (VDictY (y_train_ self))
  else if String.eqb name "root_" then inr (VNode (root_ self))
  else if String.eqb name "deletion_types_" then inr (VTrace (deletion_types_ self))
  else inl (AttributeError name).

(** The defaults of [Tree.__init__]. *)
Definition default_params : Params :=
  {| epsilon := 1 # 10; gamma := 1 # 10; max_depth := 4; min_samples_split := 2;
     verbose := 0; random_state := None |}.

(** The call [Tree(name=value, ...)]: a keyword that is no parameter of [__init__] raises
    [TypeError]. *)
Fixpoint Tree_init (kwargs : list (string * attr_value)) (acc : Params) : exn + Params :=
  match kwargs with
  | [] => inr acc
  | (name, v) :: rest =>
      match v with
      | VInt z =>
          if String.eqb name "max_depth" then
            Tree_init rest {| epsilon := epsilon acc; gamma := gamma acc; max_depth := z;
                              min_samples_split := min_samples_split acc;
                              verbose := verbose acc; random_state := random_state acc |}
          else if String.eqb name "min_samples_split" then
            Tree_init rest {| epsilon := epsilon acc; gamma := gamma acc;
                              max_depth := max_depth acc; min_samples_split := z;
                              verbose := verbose acc; random_state := random_state acc |}
          else if String.eqb name "verbose" then
            Tree_init rest {| epsilon := epsilon acc; gamma := gamma acc;
                              max_depth := max_depth acc;
                              min_samples_split := min_samples_split acc;
                              verbose := z; random_state := random_state acc |}
          else inl (TypeError ("__init__() got an unexpected keyword argument " +:+ name))
      | _ => inl (TypeError ("__init__() got an unexpected keyword argument " +:+ name))
      end
  end.

(** [DecisionNode.copy]: the children are copied recursively, [node_dict]
    by [dict.copy]. *)
Fixpoint DecisionNode_copy (self : DecisionNode) : DecisionNode :=
  match self with
  | Leaf value node_dict leaf_value indices => Leaf value node_dict leaf_value indices
  | Decision feature_i node_dict attr left_branch right_branch =>
      Decision feature_i node_dict attr
               (DecisionNode_copy left_branch) (DecisionNode_copy right_branch)
  end.

(** [Tree.copy].  The keyword arguments of the call [Tree(...)] are
    evaluated first, in the order written. *)
Definition copy (self : Tree) : exn + Tree :=
  match getattr self "min_samples_split" with
  | inl e => inl e
  | inr a1 =>
      match getattr self "min_impurity" with
      | inl e => inl e
      | inr a2 =>
          match getattr self "max_depth" with
          | inl e => inl e
          | inr a3 =>
              match getattr self "verbose" with
              | inl e => inl e
              | inr a4 =>
                  match Tree_init [("min_samples_split", a1); ("min_impurity", a2);
                                   ("max_depth", a3); ("verbose", a4)] default_params with
                  | inl e => inl e
                  | inr p =>
                      inr {| params := p; n_features_ := n_features_ self;
                             X_train_ := X_train_ self; y_train_ := y_train_ self;
                             root_ := DecisionNode_copy (root_ self);
                             deletion_types_ := [] |}
                  end
              end
          end
      end
  end.

(** ** A generator to evaluate with

    [exp_q] is a rational function with the sign and order properties of
    the exponential that the code relies on; [choose_first] draws the first
    candidate and [choose_last] the last one.  The evaluations that settle a
    property use them on inputs where the outcome does not depend on the
    values of the exponential or on which candidate is drawn: every draw
    has one candidate, or the outcome is the same for both draws. *)

Definition exp_q (q : Q) : Q :=
  if Qle_bool 0 q then Qred (1 + q) else Qred (1 / (1 - q)).

Definition seed_unit (s : option Z) (g : unit) : unit := g.

Definition choose_first (a : list nat) (p : list Q) (g : unit) : nat * unit :=
  (hd O a, g).

Definition choose_last (a : list nat) (p : list Q) (g : unit) : nat * unit :=
  (List.last a O, g).

(** [np.random.choice] draws by the inverse of the cumulative distribution:
    the candidate at the first position whose cumulated probability exceeds
    a uniform number [u] of the generator.  [choose_at u] is that draw for a
    generator that yields [u] after every seeding. *)
Fixpoint inverse_cdf (u acc : Q) (a : list nat) (p : list Q) : nat :=
  match a, p with
  | i :: a', pi :: p' =>
      match a' with
      | [] => i
      | _ => if Np.ltb u (Np.add acc pi) then i else inverse_cdf u (Np.add acc pi) a' p'
      end
  | i :: _, [] => i
  | [], _ => O
  end.

Definition choose_at (u : Q) (a : list nat) (p : list Q) (g : unit) : nat * unit :=
  (inverse_cdf u 0 a p, g).

Definition w0 : @World unit := {| gen := tt; seed_calls := O |}.

Definition fit1 := fit exp_q seed_unit choose_first.
Definition delete1 := delete exp_q seed_unit choose_first.
Definition fit2 := fit exp_q seed_unit choose_last.
Definition delete2 := delete exp_q seed_unit choose_last.
Definition fit_at (u : Q) := fit exp_q seed_unit (choose_at u).
Definition delete_at (u : Q) := delete exp_q seed_unit (choose_at u).

Definition with_split (p : Params) (m : Z) : Params :=
  {| epsilon := epsilon p; gamma := gamma p; max_depth := max_depth p;
     min_samples_split := m; verbose := verbose p; random_state := random_state p |}.
Definition with_depth (p : Params) (d : Z) : Params :=
  {| epsilon := epsilon p; gamma := gamma p; max_depth := d;
     min_samples_split := min_samples_split p; verbose := verbose p;
     random_state := random_state p |}.
Definition with_seed (p : Params) (s : Z) : Params :=
  {| epsilon := epsilon p; gamma := gamma p; max_depth := max_depth p;
     min_samples_split := min_samples_split p; verbose := verbose p;
     random_state := Some s |}.

Definition one_feature_X : list (list Z) := [[1]; [1]; [0]; [0]].


(** ** Inputs to evaluate on *)

(** Seed [0], the other parameters at their defaults. *)
Definition params0 : Params := with_seed default_params 0.

(** Four rows of one attribute. *)
Definition X4 : list (list Z) := [[1]; [1]; [0]; [0]].
Definition y_split : list Z := [1; 1; 0; 0].
Definition y_mixed : list Z := [1; 0; 1; 0].

(** Three rows of one attribute. *)
Definition X3 : list (list Z) := [[1]; [0]; [0]].
Definition y3 : list Z := [1; 1; 0].

(** The four rows of two attributes, labelled with their exclusive or. *)
Definition X_xor : list (list Z) := [[1; 1]; [1; 0]; [0; 1]; [0; 0]].
Definition y_xor : list Z := [0; 1; 1; 0].

(** Five rows of two attributes: the first attribute separates the labels
    better, and no longer does once the second row is removed. *)
Definition X5 : list (list Z) := [[1; 1]; [1; 0]; [0; 1]; [0; 0]; [0; 1]].
Definition y5 : list Z := [1; 1; 0; 0; 1].
Definition params5 : Params :=
  {| epsilon := 2; gamma := 1 # 10; max_depth := 1; min_samples_split := 2;
     verbose := 0; random_state := Some 0 |}.
(** A uniform number for the draws of the evaluations on [X5]. *)
Definition u5 : Q := 5488135 # 10000000.

(** Four rows of two attributes; the only row with the second attribute
    set is the first one. *)
Definition X_two : list (list Z) := [[1; 1]; [1; 0]; [0; 0]; [0; 0]].
Definition y_two : list Z := [0; 1; 0; 0].

(** The tree of a fit that returns, and the object that a [delete] leaves. *)
Definition no_tree : Tree :=
  {| params := default_params; n_features_ := O; X_train_ := ∅; y_train_ := ∅;
     root_ := Leaf 0 {| count := 0; pos_count := 0; gini_data := 0 |} 0 [];
     deletion_types_ := [] |}.

Definition fitted (r : (exn + Tree) * @World unit) : Tree :=
  match fst r with
  | inr t => t
  | inl _ => no_tree
  end.

Definition deleted (r : (exn + list string) * Tree * @World unit) : Tree := snd (fst r).

(** [min_samples_split = 3] on three rows: the root splits, and a root
    built from two of the rows is a leaf. *)
Definition params3 : Params := with_split params0 3.
Definition tree3 : Tree := fitted (fit1 params3 X3 y3 w0).
Definition world3 : @World unit := snd (fit1 params3 X3 y3 w0).

(** The tree of the four rows with labels [1,1,0,0]. *)
Definition tree4 : Tree := fitted (fit1 params0 X4 y_split w0).
Definition world4 : @World unit := snd (fit1 params0 X4 y_split w0).

(** The tree of the four rows of two attributes. *)
Definition tree_two : Tree := fitted (fit1 params0 X_two y_two w0).
Definition world_two : @World unit := snd (fit1 params0 X_two y_two w0).

(** ** The quantities of the specification *)

(** The Gini value of the data of a node as the specification writes it:
    [1 − (pos_count/count)² − (neg_count/count)²] with
    [neg_count = count − pos_count], rounded to 8 decimals. *)
Definition gini_data_spec (count pos_count : Z) : Q :=
  Np.round8 (1 - (inject_Z pos_count / inject_Z count) ^ 2
               - (inject_Z (count - pos_count) / inject_Z count) ^ 2)%Q.

(** The number of decision nodes of a tree. *)
Fixpoint decision_nodes (t : DecisionNode) : nat :=
  match t with
  | Leaf _ _ _ _ => O
  | Decision _ _ _ l r => S (decision_nodes l + decision_nodes r)
  end.

(** The weighted Gini index of attribute [i] computed from scratch over
    the rows of a node, as [_build_tree] computes it (counts, weights,
    branch indices); [None] when a branch has no row. *)
Definition gini_index_from_scratch (rows : list sample) (i : nat) : option Q :=
  match split_attr (len rows) rows i with
  | Some a => Some (a_gini_index a)
  | None => None
  end.

(** The rows that are routed to a node at present: those of the keys at the
    leaves under it, read from the store. *)
Definition rows_at (self : Tree) (t : DecisionNode) : exn + list sample :=
  _get_numpy_data (X_train_ self) (y_train_ self) (get_indices t).

(** A computation that reads the world only through the generator: from
    two worlds with the same generator it gives the same result and leaves
    the same generator. *)
Definition gen_only {RNG A} (m : @M RNG A) : Prop :=
  forall w1 w2 : World,
    gen w1 = gen w2 ->
    fst (m w1) = fst (m w2) /\ gen (snd (m w1)) = gen (snd (m w2)).

(** ** The invariant of a fitted tree *)

(** Rows in the order of their keys, no key twice. *)
Definition key_lt (a b : sample) : Prop := s_key a < s_key b.
Definition ascending (rows : list sample) : Prop := StronglySorted key_lt rows.

(** The rows that stay when the rows of a batch are taken away. *)
Definition remove_rows (batch rows : list sample) : list sample :=
  List.filter (fun s => negb (mem (s_key s) (keys_of batch))) rows.

(** The entry of attribute [i] in the map of a node agrees with the rows
    at the node: each branch record counts the rows of its side and their
    positives, each side has a row, and the cached [gini_index] is the one
    of the two branch records. *)
Definition attr_ok (rows : list sample) (ia : nat * AttrDict) : Prop :=
  b_count (a_left (snd ia)) = len (left_rows (fst ia) rows) /\
  b_count (a_right (snd ia)) = len (right_rows (fst ia) rows) /\
  b_pos_count (a_left (snd ia)) = sum_y (left_rows (fst ia) rows) /\
  b_pos_count (a_right (snd ia)) = sum_y (right_rows (fst ia) rows) /\
  1 <= b_count (a_left (snd ia)) /\
  1 <= b_count (a_right (snd ia)) /\
  a_gini_index (snd ia) = _compute_gini_index (a_left (snd ia)) (a_right (snd ia)).

(** [Inv rows t]: the subtree [t] is consistent with [rows], the rows
    routed to it.  A leaf holds their keys, their count and the count of
    their positives; a decision node holds these counts and the Gini value
    of the specification, is not mono-class, splits on an attribute of its
    map, every entry of its map agrees with the rows, and its branches are
    consistent with the rows of their side. *)
Fixpoint Inv (rows : list sample) (t : DecisionNode) : Prop :=
  match t with
  | Leaf value nd leaf_value indices =>
      indices = keys_of rows /\
      count nd = len rows /\
      pos_count nd = sum_y rows /\
      value = leaf_value /\
      leaf_value = (if pos_count nd =? 0 then 0%Q
                    else Np.div (Np.of_int (pos_count nd)) (Np.of_int (count nd)))
  | Decision f nd attr l r =>
      count nd = len rows /\
      pos_count nd = sum_y rows /\
      gini_data nd = gini_data_spec (count nd) (pos_count nd) /\
      is_mono nd = false /\
      is_Some (attr_get f attr) /\
      Forall (attr_ok rows) attr /\
      Inv (left_rows f rows) l /\
      Inv (right_rows f rows) r
  end.

(** A stored row. *)
Definition store_has (Xd : gmap Z (list Z)) (yd : gmap Z Z) (s : sample) : Prop :=
  Xd !! s_key s = Some (s_x s) /\ yd !! s_key s = Some (s_y s).

(** The invariant of a [Tree] object: the rows of the store, in the order
    of their keys, are the rows routed to the root. *)
Definition TreeInv (self : Tree) : Prop :=
  exists rows,
    ascending rows /\
    Forall (store_has (X_train_ self) (y_train_ self)) rows /\
    (forall k, is_Some (X_train_ self !! k) -> In k (keys_of rows)) /\
    Inv rows (root_ self).

(** Attribute [f] is the split of a node of [t] or a key of the attribute
    map of a node of [t]. *)
Fixpoint mentions (f : nat) (t : DecisionNode) : Prop :=
  match t with
  | Leaf _ _ _ _ => False
  | Decision g _ attr l r =>
      g = f \/ In f (map fst attr) \/ mentions f l \/ mentions f r
  end.

(** No attribute is used again below the node that splits on it, neither
    as a split nor as a key of an attribute map. *)
Fixpoint no_reuse (t : DecisionNode) : Prop :=
  match t with
  | Leaf _ _ _ _ => True
  | Decision f _ _ l r =>
      ~ mentions f l /\ ~ mentions f r /\ no_reuse l /\ no_reuse r
  end.

(** The object with its trace replaced and nothing else changed. *)
Definition with_trace (self : Tree) (trace : list string) : Tree :=
  {| params := params self; n_features_ := n_features_ self;
     X_train_ := X_train_ self; y_train_ := y_train_ self;
     root_ := root_ self; deletion_types_ := trace |}.

(** ** The reduced dataset *)

(** The entries of an array whose position, counted from [i], is not in
    [D]. *)
Fixpoint minus_from {A} (i : Z) (D : list Z) (l : list A) : list A :=
  match l with
  | [] => []
  | a :: l' =>
      if mem i D then minus_from (i + 1) D l' else a :: minus_from (i + 1) D l'
  end.

(** [X − D] and [y − D]: the array without the rows at the positions in
    [D]; the position of a row is the key that [fit] gives it. *)
Definition minus {A} (D : list Z) (l : list A) : list A := minus_from 0 D l.

(** The features and the label of each row, without the keys. *)
Definition data_of (rows : list sample) : list (list Z * Z) :=
  map (fun s => (s_x s, s_y s)) rows.

(** The tree without the keys at its leaves. *)
Fixpoint erase_indices (t : DecisionNode) : DecisionNode :=
  match t with
  | Leaf v nd lv _ => Leaf v nd lv []
  | Decision f nd attr l r => Decision f nd attr (erase_indices l) (erase_indices r)
  end.

(** [self.deletion_types_] as a call of [_delete] leaves it. *)
Definition trace_of (o : outcome) : list string :=
  match o with
  | Done _ tr => tr
  | Raised _ _ tr => tr
  end.

(** A tag that a call of [_delete] at depth [d] can add: [1a], [1b], or a
    rebuild tag of depth [d] or deeper. *)
Definition deep_tag (d : nat) (tag : string) : Prop :=
  tag = "1a" \/ tag = "1b" \/
  exists k, (d <= k)%nat /\
            (tag = "2a_" +:+ pretty k \/ tag = "2b_" +:+ pretty k \/ tag = "2c_" +:+ pretty k).

(** The trace says that the root was rebuilt. *)
Definition root_rebuilt (tr : list string) : Prop :=
  tr = ["2a_0"] \/ tr = ["2b_0"] \/ tr = ["2c_0"].

(** ** Readings of a tree *)

(** [np.sum] of the stored labels of a list of keys. *)
Definition sum_labels (yd : gmap Z Z) (keys : list Z) : Z :=
  foldr (fun k acc => default 0 (yd !! k) + acc) 0 keys.

(** Every node of the tree counts the keys at the leaves under it, and
    its positive count is the sum of their stored labels. *)
Fixpoint counts_ok (yd : gmap Z Z) (t : DecisionNode) : Prop :=
  count (node_dict_of t) = len (get_indices t) /\
  pos_count (node_dict_of t) = sum_labels yd (get_indices t) /\
  match t with
  | Leaf _ _ _ _ => True
  | Decision _ _ _ l r => counts_ok yd l /\ counts_ok yd r
  end.

(** No leaf of the tree is empty. *)
Fixpoint leaves_nonempty (t : DecisionNode) : Prop :=
  match t with
  | Leaf _ nd _ indices => indices <> [] /\ 1 <= count nd
  | Decision _ _ _ l r => leaves_nonempty l /\ leaves_nonempty r
  end.

(** The leaf at which the traversal of [_predict_value] ends. *)
Fixpoint reached_leaf (x : list Z) (t : DecisionNode) : DecisionNode :=
  match t with
  | Leaf _ _ _ _ => t
  | Decision f _ _ l r =>
      if Z.eqb (nth f x 0) 1 then reached_leaf x l else reached_leaf x r
  end.

(** The number of decision nodes on the longest path from the node to a
    leaf. *)
Fixpoint height (t : DecisionNode) : nat :=
  match t with
  | Leaf _ _ _ _ => O
  | Decision _ _ _ l r => S (Nat.max (height l) (height r))
  end.

(** A property of the statistics of every decision node of a tree. *)
Fixpoint all_decisions (P : NodeDict -> Prop) (t : DecisionNode) : Prop :=
  match t with
  | Leaf _ _ _ _ => True
  | Decision _ nd _ l r => P nd /\ all_decisions P l /\ all_decisions P r
  end.

(** Attribute [i] has a row on each side among [rows]. *)
Definition viable (rows : list sample) (i : nat) : bool :=
  (0 <? len (left_rows i rows)) && (0 <? len (right_rows i rows)).

(** [Shape self F rows d t]: every decision node of [t], a subtree at
    depth [d] that holds [rows], is above the depth limits of
    [_build_tree], and the keys of its attribute map are, in ascending
    order, the attributes that have a row on each side among the rows of
    the node. *)
Fixpoint Shape (self : Params) (F : nat) (rows : list sample) (d : nat)
         (t : DecisionNode) : Prop :=
  match t with
  | Leaf _ _ _ _ => True
  | Decision f _ attr l r =>
      (d < F)%nat /\
      Z.of_nat d <> max_depth self /\
      map fst attr = List.filter (viable rows) (seq 0 F) /\
      Shape self F (left_rows f rows) (S d) l /\
      Shape self F (right_rows f rows) (S d) r
  end.

(** [TreeInv] together with [Shape] from the root. *)
Definition TreeShape (self : Tree) : Prop :=
  exists rows,
    ascending rows /\
    Forall (store_has (X_train_ self) (y_train_ self)) rows /\
    (forall k, is_Some (X_train_ self !! k) -> In k (keys_of rows)) /\
    Inv rows (root_ self) /\
    Shape (params self) (n_features_ self) rows 0 (root_ self).

(** The comparison that [equals] is meant to make, without the exchange
    of roles: the same splits in the same places, and equal values at the
    leaves. *)
Fixpoint same_splits (a b : DecisionNode) : Prop :=
  match a, b with
  | Leaf v _ _ _, Leaf v' _ _ _ => (v == v')%Q
  | Decision f _ _ l r, Decision f' _ _ l' r' =>
      f = f' /\ same_splits l l' /\ same_splits r r'
  | _, _ => False
  end.

(** A tag of an update in place. *)
Definition in_place_tag (tag : string) : Prop := tag = "1a" \/ tag = "1b".

(** Every stored label is [0] or [1]. *)
Definition binary_labels (yd : gmap Z Z) : Prop :=
  forall k v, yd !! k = Some v -> v = 0 \/ v = 1.


(** * Properties *)

(** ** Arithmetic of the number model *)

Lemma Qred_eq (a b : Q) : (a == b)%Q -> Qred a = Qred b.
Proof. apply Qred_complete. Qed.

Lemma round_half_even_comp (a b : Q) :
  (a == b)%Q -> Np.round_half_even a = Np.round_half_even b.
Proof.
  intros H. unfold Np.round_half_even.
  rewrite (Qfloor_comp _ _ H).
  assert (Hc : ((a - inject_Z (Qfloor b)) ?= 1 # 2)%Q = ((b - inject_Z (Qfloor b)) ?= 1 # 2)%Q).
  { apply Qcompare_comp; [rewrite H|]; reflexivity. }
  rewrite Hc. reflexivity.
Qed.

Lemma round8_comp (a b : Q) : (a == b)%Q -> Np.round8 a = Np.round8 b.
Proof.
  intros H. unfold Np.round8.
  rewrite (round_half_even_comp (a * inject_Z 100000000) (b * inject_Z 100000000)).
  - reflexivity.
  - rewrite H. reflexivity.
Qed.

Lemma Np_add_correct a b : (Np.add a b == a + b)%Q.
Proof. apply Qred_correct. Qed.
Lemma Np_sub_correct a b : (Np.sub a b == a - b)%Q.
Proof. apply Qred_correct. Qed.
Lemma Np_mul_correct a b : (Np.mul a b == a * b)%Q.
Proof. apply Qred_correct. Qed.
Lemma Np_div_correct a b : (Np.div a b == a / b)%Q.
Proof. apply Qred_correct. Qed.
Lemma Np_square_correct a : (Np.square a == a * a)%Q.
Proof. apply Qred_correct. Qed.
Lemma Np_neg_correct a : (Np.neg a == - a)%Q.
Proof. apply Qred_correct. Qed.

Lemma Np_ltb_lt a b : Np.ltb a b = true <-> (a < b)%Q.
Proof.
  unfold Np.ltb. rewrite Qlt_alt. destruct (a ?= b)%Q; split; congruence.
Qed.

Lemma Np_eqb_eq a b : Np.eqb a b = true <-> (a == b)%Q.
Proof. apply Qeq_bool_iff. Qed.

(** The Gini value that the code stores, with the count of negatives
    taken as [pos_count - count], is the one of the specification. *)
Lemma gini_data_of_neg_swapped (cnt pos : Z) :
  gini_data_of pos (pos - cnt) cnt = gini_data_spec cnt pos.
Proof.
  unfold gini_data_of, gini_data_spec. apply round8_comp.
  rewrite !Np_sub_correct, !Np_square_correct, !Np_div_correct.
  unfold Np.of_int, Z.sub. rewrite !inject_Z_plus, !inject_Z_opp. unfold Qdiv. simpl Qpower. ring.
Qed.

Lemma gini_data_of_spec (cnt pos : Z) :
  gini_data_of pos (cnt - pos) cnt = gini_data_spec cnt pos.
Proof.
  unfold gini_data_of, gini_data_spec. apply round8_comp.
  rewrite !Np_sub_correct, !Np_square_correct, !Np_div_correct.
  unfold Np.of_int, Z.sub. rewrite !inject_Z_plus, !inject_Z_opp. unfold Qdiv.
  simpl Qpower. ring.
Qed.

(** ** Node statistics written by [_delete] *)

Section NodeStatistics.

Context {RNG : Type}.
Variable np_exp : Q -> Q.
Variable np_random_seed : option Z -> RNG -> RNG.
Variable np_random_choice : list nat -> list Q -> RNG -> nat * RNG.

Local Abbreviation del := (_delete np_exp np_random_seed np_random_choice).
Local Abbreviation rebuild_at := (rebuild np_exp np_random_seed np_random_choice).

(** A rebuild either raises and leaves the node it was given, or returns
    the rebuilt node; the tag of this depth is added once the rows are
    fetched. *)
Lemma rebuild_outcome (self : Tree) t keys dtype d tr (w : World) :
  match fst (rebuild_at self t keys dtype d tr w) with
  | Raised _ t' tr' => t' = t /\ (tr' = tr \/ tr' = tr ++ [dtype +:+ "_" +:+ pretty d])
  | Done _ tr' => tr' = tr ++ [dtype +:+ "_" +:+ pretty d]
  end.
Proof.
  unfold rebuild.
  destruct (_get_numpy_data _ _ _) as [e|rows]; [simpl; auto|].
  destruct (_build_tree _ _ _ _ _ _ _ _) as [[e|node] w']; simpl; auto.
Qed.


End NodeStatistics.

(** ** [copy] *)

(** C8.  [Tree.copy] reads [self.min_impurity], an attribute that no
    [Tree] object has: it raises [AttributeError] on every fitted tree and
    returns no copy. *)
Theorem C8_copy_raises (self : Tree) :
  copy self = inl (AttributeError "min_impurity").
Proof. reflexivity. Qed.

(** Were the attribute there, the call [Tree(min_impurity=...)] would still
    raise: [__init__] has no such parameter. *)
Lemma Tree_init_min_impurity a1 a2 a3 a4 p :
  exists e, Tree_init [("min_samples_split", VInt a1); ("min_impurity", a2);
                       ("max_depth", a3); ("verbose", a4)] p = inl e.
Proof. simpl. destruct a2; eauto. Qed.

(** ** The divergence test *)

Lemma Np_sum_nonneg (l : list Q) :
  Forall (fun v => (0 <= v)%Q) l -> (0 <= Np.sum l)%Q.
Proof.
  induction 1 as [|v l Hv _ IH]; simpl.
  - apply Qle_refl.
  - rewrite Np_add_correct. lra.
Qed.


Lemma combine_map_same {A B C} (f : A -> B) (g : A -> C) (l : list A) :
  combine (map f l) (map g l) = map (fun x => (f x, g x)) l.
Proof. induction l as [|x l IH]; simpl; [|rewrite IH]; reflexivity. Qed.

Lemma attr_get_In i (attr : list (nat * AttrDict)) a :
  attr_get i attr = Some a -> In (i, a) attr.
Proof.
  induction attr as [|[j b] rest IH]; simpl; [discriminate|].
  destruct (Nat.eqb_spec i j) as [->|Hne].
  - intros [= ->]. left; reflexivity.
  - intros H. right. apply IH, H.
Qed.

Section Divergence.

Context {RNG : Type}.
Variable np_exp : Q -> Q.
Variable np_random_seed : option Z -> RNG -> RNG.
Variable np_random_choice : list nat -> list Q -> RNG -> nat * RNG.

(** The exponential is positive. *)
Hypothesis np_exp_pos : forall q, (0 < np_exp q)%Q.

Local Abbreviation del := (_delete np_exp np_random_seed np_random_choice).
Local Abbreviation rebuild_at := (rebuild np_exp np_random_seed np_random_choice).
Local Abbreviation diverges_ := (diverges np_exp).

Lemma exp_weights_pos (self : Params) (gs : list Q) :
  Forall (fun v => (0 < v)%Q) (exp_weights np_exp self gs).
Proof. unfold exp_weights. apply Forall_map, Forall_forall. intros; apply np_exp_pos. Qed.


(** The attribute of the split is not invalidated when neither of its
    branches is left hanging. *)
Lemma chosen_stays_valid n batch f (chosen : AttrDict) :
  (b_count (a_left chosen) - len (left_rows f batch) <=? 0)
  || (b_count (a_right chosen) - len (right_rows f batch) <=? 0) = false ->
  exists a', update_attr n batch f chosen = Some a'.
Proof.
  intros H. apply orb_false_iff in H as [Hl Hr].
  apply Z.leb_gt in Hl, Hr.
  unfold update_attr, _update_decision_node.
  assert ((b_count (a_left chosen) <=? len (left_rows f batch)) = false) as -> by (apply Z.leb_gt; lia).
  assert ((b_count (a_right chosen) <=? len (right_rows f batch)) = false) as -> by (apply Z.leb_gt; lia).
  destruct (0 <? len (left_rows f batch)), (0 <? len (right_rows f batch)); eauto.
Qed.





End Divergence.

(** ** The paths of [_delete] at a decision node *)

Section DeletePaths.

Context {RNG : Type}.
Variable np_exp : Q -> Q.
Variable np_random_seed : option Z -> RNG -> RNG.
Variable np_random_choice : list nat -> list Q -> RNG -> nat * RNG.

Local Abbreviation del := (_delete np_exp np_random_seed np_random_choice).
Local Abbreviation build := (_build_tree np_exp np_random_seed np_random_choice).
Local Abbreviation delete_ := (delete np_exp np_random_seed np_random_choice).

(** C9, amended.  At a decision node that does not become mono-class, when
    the batch takes every row of one branch of the split, [_delete] gathers
    the keys under the node less the removed ones, fetches their rows from
    the store and builds them at the current depth; once the rows are
    fetched the tag [2a_<depth>] is added, and the result is the subtree
    built, or the exception of the build. *)
Theorem C9_hanging_branch_rebuild (self : Tree) batch f nd attr l r d tr (w : World) chosen :
  let nd' := update_node_dict nd batch in
  is_mono nd' = false ->
  attr_get f attr = Some chosen ->
  (b_count (a_left chosen) - len (left_rows f batch) <=? 0)
  || (b_count (a_right chosen) - len (right_rows f batch) <=? 0) = true ->
  del self batch (Decision f nd attr l r) d tr w =
  match _get_numpy_data (X_train_ self) (y_train_ self)
          (_remove_elements (get_indices l ++ get_indices r) (keys_of batch)) with
  | inl e => (Raised e (Decision f nd' attr l r) tr, w)
  | inr rows =>
      match build (params self) (n_features_ self) rows d w with
      | (inr node, w') => (Done node (tr ++ ["2a_" +:+ pretty d]), w')
      | (inl e, w') => (Raised e (Decision f nd' attr l r) (tr ++ ["2a_" +:+ pretty d]), w')
      end
  end.
Proof.
  intros nd' Hmono Hget Hhang.
  cbn [_delete]. fold nd'. rewrite Hmono, andb_false_r, Hget, Hhang.
  unfold rebuild. cbn [get_indices].
  destruct (_get_numpy_data _ _ _) as [e|rows]; [reflexivity|].
  destruct (build _ _ _ _ _) as [[e|node] w']; reflexivity.
Qed.

(** C2, amended.  On a tree whose root is a decision node, a batch of
    stored keys that leaves the root with one class makes [delete] raise;
    the store, the split of the root, its attribute map and both subtrees
    are as before the call, and the root holds the count, the positive
    count and the [gini_data] of after the removal. *)
Theorem C2_degenerate_root (self : Tree) D batch f nd attr l r (w : World) :
  root_ self = Decision f nd attr l r ->
  batch_of self D = inr batch ->
  is_mono (update_node_dict nd batch) = true ->
  delete_ self D w =
  (inl (ValueError "Instances in the root node are all from the same class!"),
   {| params := params self; n_features_ := n_features_ self;
      X_train_ := X_train_ self; y_train_ := y_train_ self;
      root_ := Decision f (update_node_dict nd batch) attr l r;
      deletion_types_ := [] |}, w).
Proof.
  intros Hroot Hbatch Hmono. unfold delete. rewrite Hbatch, Hroot.
  cbn [_delete]. rewrite Hmono. reflexivity.
Qed.

End DeletePaths.

(** ** Seeding *)

Section Seeding.

Context {RNG : Type}.
Variable np_exp : Q -> Q.
Variable np_random_seed : option Z -> RNG -> RNG.
Variable np_random_choice : list nat -> list Q -> RNG -> nat * RNG.

Local Abbreviation build_f := (build_fuel np_exp np_random_seed np_random_choice).
Local Abbreviation build := (_build_tree np_exp np_random_seed np_random_choice).
Local Abbreviation fit_ := (fit np_exp np_random_seed np_random_choice).

(** Each decision node built has seeded the generator once. *)
Lemma build_fuel_seed_calls fuel (self : Params) F :
  forall rows d (w w' : World) t,
    build_f fuel self F rows d w = (inr t, w') ->
    seed_calls w' = (seed_calls w + decision_nodes t)%nat.
Proof.
  induction fuel as [|fuel IH]; intros rows d w w' t; cbn [build_fuel].
  - unfold raise. discriminate.
  - destruct (0 <? _); [|unfold raise; discriminate].
    destruct (_ && _); [unfold raise; discriminate|].
    destruct (_ || _).
    + unfold ret. intros [= <- <-]. simpl. lia.
    + unfold bind at 1. unfold seed at 1. unfold bind at 1.
      unfold choice.
      destruct (map fst _) as [|i0 is0] eqn:Eis; [unfold raise; discriminate|].
      destruct (np_random_choice _ _ _) as [c g] eqn:Ec.
      unfold bind at 1.
      destruct (build_f fuel self F (left_rows c rows) (S d) _) as [[e|lt] w1] eqn:El;
        [discriminate|].
      unfold bind at 1.
      destruct (build_f fuel self F (right_rows c rows) (S d) w1) as [[e|rt] w2] eqn:Er;
        [discriminate|].
      unfold ret. intros [= <- <-].
      apply IH in El, Er. simpl in El. cbn [decision_nodes]. lia.
Qed.

(** The generator after seeding with a given seed does not depend on the
    generator before. *)
Hypothesis np_random_seed_some :
  forall s g g', np_random_seed (Some s) g = np_random_seed (Some s) g'.

Lemma gen_only_ret {A} (a : A) : gen_only (@ret RNG A a).
Proof. intros w1 w2 H. simpl. auto. Qed.

Lemma gen_only_raise {A} (e : exn) : gen_only (@raise RNG A e).
Proof. intros w1 w2 H. simpl. auto. Qed.

Lemma gen_only_seed s : gen_only (seed np_random_seed s).
Proof. intros w1 w2 H. unfold seed. simpl. rewrite H. auto. Qed.

Lemma gen_only_choice a p : gen_only (choice np_random_choice a p).
Proof.
  intros w1 w2 H. unfold choice. destruct a as [|i a]; [simpl; auto|].
  rewrite H. destruct (np_random_choice _ _ _). simpl. auto.
Qed.

Lemma gen_only_bind {A B} (m : @M RNG A) (k : A -> @M RNG B) :
  gen_only m -> (forall a, gen_only (k a)) -> gen_only (bind m k).
Proof.
  intros Hm Hk w1 w2 H. unfold bind.
  destruct (Hm w1 w2 H) as [H1 H2].
  destruct (m w1) as [[e1|a1] w1'], (m w2) as [[e2|a2] w2']; simpl in H1, H2;
    try discriminate H1.
  - injection H1 as <-. simpl. auto.
  - injection H1 as <-. apply Hk, H2.
Qed.

(** A build reads the world only through the generator. *)
Lemma build_fuel_gen fuel (self : Params) F :
  forall rows d, gen_only (build_f fuel self F rows d).
Proof.
  induction fuel as [|fuel IH]; intros rows d; cbn [build_fuel].
  - apply gen_only_raise.
  - destruct (0 <? _); [|apply gen_only_raise].
    destruct (_ && _); [apply gen_only_raise|].
    destruct (_ || _); [apply gen_only_ret|].
    apply gen_only_bind; [apply gen_only_seed|]. intros _.
    apply gen_only_bind; [apply gen_only_choice|]. intros c.
    apply gen_only_bind; [apply IH|]. intros lt.
    apply gen_only_bind; [apply IH|]. intros rt.
    apply gen_only_ret.
Qed.

(** With a given seed the tree built does not depend on the world. *)
Lemma build_fuel_seeded fuel (self : Params) F s :
  random_state self = Some s ->
  forall rows d (w1 w2 : World),
    fst (build_f fuel self F rows d w1) = fst (build_f fuel self F rows d w2).
Proof.
  intros Hs rows d w1 w2. destruct fuel as [|fuel]; cbn [build_fuel].
  - reflexivity.
  - destruct (0 <? _); [|reflexivity].
    destruct (_ && _); [reflexivity|].
    destruct (_ || _); [reflexivity|].
    rewrite Hs. unfold bind at 1 5. unfold seed.
    match goal with |- fst (?k ?wa) = fst (?k ?wb) =>
      assert (Hk : gen_only k) end.
    { apply gen_only_bind; [apply gen_only_choice|]. intros c.
      apply gen_only_bind; [apply build_fuel_gen|]. intros lt.
      apply gen_only_bind; [apply build_fuel_gen|]. intros rt.
      apply gen_only_ret. }
    apply Hk. simpl. apply np_random_seed_some.
Qed.

(** C5, amended.  [fit] seeds the generator from [random_state] at every
    decision node it builds, just before the draw of that node, and not
    once at its top: a successful [fit] has seeded it as many times as the
    tree has decision nodes.  With a given [random_state] and the same
    inputs the outcome of [fit] (the tree, or the exception) is the same
    from every state of the generator. *)
Theorem C5_seeded_at_every_decision_node (self : Params) X y :
  (forall s (w1 w2 : World),
      random_state self = Some s ->
      fst (fit_ self X y w1) = fst (fit_ self X y w2)) /\
  (forall (w w' : World) t,
      fit_ self X y w = (inr t, w') ->
      seed_calls w' = (seed_calls w + decision_nodes (root_ t))%nat).
Proof.
  split.
  - intros s w1 w2 Hs. unfold fit.
    destruct (length y <? length X)%nat; [reflexivity|].
    destruct (_numpy_to_dict 0 X y) as [Xd yd]. unfold bind, _build_tree.
    pose proof (build_fuel_seeded (S (length (rows_from 0 X y))) self (shape1 X) s Hs
                  (rows_from 0 X y) O w1 w2) as H.
    destruct (build_f _ _ _ _ _ w1) as [[e1|t1] w1'],
             (build_f _ _ _ _ _ w2) as [[e2|t2] w2']; simpl in H;
      try discriminate H; injection H as <-; reflexivity.
  - intros w w' t. unfold fit.
    destruct (length y <? length X)%nat; [unfold raise; discriminate|].
    destruct (_numpy_to_dict 0 X y) as [Xd yd]. unfold bind, _build_tree.
    destruct (build_f _ _ _ _ _ w) as [[e|t1] w1] eqn:E; [discriminate|].
    unfold ret. intros [= <- <-]. simpl.
    eapply build_fuel_seed_calls, E.
Qed.

End Seeding.

(** ** Rows, keys and [np.setdiff1d] *)

Lemma len_nil {A} : len (@nil A) = 0.
Proof. reflexivity. Qed.

Lemma len_nonneg {A} (l : list A) : 0 <= len l.
Proof. unfold len. lia. Qed.

Lemma len_app {A} (l1 l2 : list A) : len (l1 ++ l2) = len l1 + len l2.
Proof. unfold len. rewrite length_app. lia. Qed.

Lemma sum_y_app l1 l2 : sum_y (l1 ++ l2) = sum_y l1 + sum_y l2.
Proof. induction l1 as [|s l1 IH]; simpl; [|rewrite IH]; lia. Qed.

Lemma len_perm {A} (l1 l2 : list A) : Permutation l1 l2 -> len l1 = len l2.
Proof. intros H. unfold len. rewrite (Permutation_length H). reflexivity. Qed.

Lemma sum_y_perm l1 l2 : Permutation l1 l2 -> sum_y l1 = sum_y l2.
Proof. induction 1; simpl; lia. Qed.

Lemma mem_In k l : mem k l = true <-> In k l.
Proof.
  unfold mem. rewrite List.existsb_exists. split.
  - intros (x & Hx & E). apply Z.eqb_eq in E. subst. exact Hx.
  - intros H. exists k. split; [exact H|apply Z.eqb_refl].
Qed.

Lemma filter_map_comm {A B} (f : A -> B) (P : B -> bool) (l : list A) :
  List.filter P (map f l) = map f (List.filter (fun a => P (f a)) l).
Proof.
  induction l as [|a l IH]; simpl; [reflexivity|].
  destruct (P (f a)); simpl; rewrite IH; reflexivity.
Qed.

Lemma ascending_filter (P : sample -> bool) rows :
  ascending rows -> ascending (List.filter P rows).
Proof.
  unfold ascending. induction 1 as [|s rows Hs IH Hall]; simpl; [constructor|].
  destruct (P s); [|exact IH]. constructor; [exact IH|].
  apply List.Forall_forall. intros x Hx. apply filter_In in Hx as [Hx _].
  rewrite List.Forall_forall in Hall. apply Hall, Hx.
Qed.

Lemma ascending_keys rows : ascending rows -> StronglySorted Z.lt (keys_of rows).
Proof.
  unfold ascending, keys_of. induction 1 as [|s rows Hs IH Hall]; simpl; constructor.
  - exact IH.
  - apply List.Forall_forall. intros k Hk. apply in_map_iff in Hk as (x & <- & Hx).
    rewrite List.Forall_forall in Hall. apply Hall, Hx.
Qed.

Lemma sorted_lt_NoDup (l : list Z) : StronglySorted Z.lt l -> List.NoDup l.
Proof.
  induction 1 as [|k l Hs IH Hall]; constructor; [|exact IH].
  intros Hin. rewrite List.Forall_forall in Hall. specialize (Hall k Hin). lia.
Qed.

(** Rows in key order are told apart by their keys. *)
Lemma ascending_key_inj rows s s' :
  ascending rows -> In s rows -> In s' rows -> s_key s = s_key s' -> s = s'.
Proof.
  unfold ascending. induction 1 as [|x rows Hs IH Hall]; simpl; [tauto|].
  rewrite List.Forall_forall in Hall.
  intros [->|H1] [->|H2] E; auto.
  - specialize (Hall _ H2). unfold key_lt in Hall. lia.
  - specialize (Hall _ H1). unfold key_lt in Hall. lia.
Qed.

Lemma ascending_NoDup rows : ascending rows -> List.NoDup rows.
Proof.
  unfold ascending. induction 1 as [|x rows Hs IH Hall]; constructor; [|exact IH].
  intros Hin. rewrite List.Forall_forall in Hall. specialize (Hall x Hin).
  unfold key_lt in Hall. lia.
Qed.

Lemma insert_unique_head k l :
  List.Forall (Z.lt k) l -> insert_unique k l = k :: l.
Proof.
  destruct l as [|h t]; simpl; [reflexivity|].
  intros H. inversion H as [|? ? Hk _]; subst.
  apply Z.ltb_lt in Hk. rewrite Hk. reflexivity.
Qed.

Lemma np_unique_sorted l : StronglySorted Z.lt l -> np_unique l = l.
Proof.
  induction 1 as [|k l Hs IH Hall]; [reflexivity|].
  change (np_unique (k :: l)) with (insert_unique k (np_unique l)).
  rewrite IH. apply insert_unique_head, Hall.
Qed.

Lemma insert_unique_In k l x : In x (insert_unique k l) <-> x = k \/ In x l.
Proof.
  induction l as [|h t IH]; simpl; [intuition|].
  destruct (Z.ltb_spec k h); [simpl; intuition|].
  destruct (Z.eqb_spec k h); simpl; [subst; intuition|].
  rewrite IH. intuition.
Qed.

Lemma insert_unique_sorted k l :
  StronglySorted Z.lt l -> StronglySorted Z.lt (insert_unique k l).
Proof.
  induction 1 as [|h t Hs IH Hall]; simpl; [repeat constructor|].
  destruct (Z.ltb_spec k h).
  - constructor; [constructor; assumption|].
    constructor; [assumption|].
    eapply List.Forall_impl; [|exact Hall]. intros; simpl in *; lia.
  - destruct (Z.eqb_spec k h); [constructor; assumption|].
    constructor; [exact IH|].
    apply List.Forall_forall. intros x Hx. apply insert_unique_In in Hx as [->|Hx]; [lia|].
    rewrite List.Forall_forall in Hall. apply Hall, Hx.
Qed.

Lemma np_unique_In l x : In x (np_unique l) <-> In x l.
Proof.
  induction l as [|k l IH]; [simpl; tauto|].
  change (np_unique (k :: l)) with (insert_unique k (np_unique l)).
  rewrite insert_unique_In, IH. simpl. intuition.
Qed.

Lemma np_unique_is_sorted l : StronglySorted Z.lt (np_unique l).
Proof.
  induction l as [|k l IH]; [constructor|].
  change (np_unique (k :: l)) with (insert_unique k (np_unique l)).
  apply insert_unique_sorted, IH.
Qed.

(** [np.unique] of a list with the elements of a sorted list is that
    list. *)
Lemma np_unique_perm l l' :
  Permutation l l' -> StronglySorted Z.lt l' -> np_unique l = l'.
Proof.
  intros Hp Hs.
  apply (StronglySorted_unique_strong Z.lt).
  - intros; lia.
  - apply np_unique_is_sorted.
  - exact Hs.
  - apply NoDup_Permutation.
    + apply NoDup_ListNoDup, sorted_lt_NoDup, np_unique_is_sorted.
    + apply NoDup_ListNoDup, sorted_lt_NoDup, Hs.
    + intros x. rewrite !list_elem_of_In, np_unique_In.
      split; intros H; [eapply Permutation_in; eauto|].
      eapply Permutation_in; [symmetry; exact Hp|exact H].
Qed.

Lemma keys_of_filter (P : Z -> bool) rows :
  keys_of (List.filter (fun s => P (s_key s)) rows) = List.filter P (keys_of rows).
Proof. unfold keys_of. rewrite filter_map_comm. reflexivity. Qed.

(** The keys left at a node after a removal, as [_remove_elements] computes
    them from the keys of its rows. *)
Lemma keys_of_remove_rows batch rows :
  ascending rows ->
  keys_of (remove_rows batch rows) = _remove_elements (keys_of rows) (keys_of batch).
Proof.
  intros Ha. unfold remove_rows, _remove_elements.
  rewrite (np_unique_sorted _ (ascending_keys _ Ha)).
  apply (keys_of_filter (fun k => negb (mem k (keys_of batch)))).
Qed.

Lemma keys_of_remove_rows_perm batch rows l :
  ascending rows -> Permutation l (keys_of rows) ->
  _remove_elements l (keys_of batch) = keys_of (remove_rows batch rows).
Proof.
  intros Ha Hp. rewrite keys_of_remove_rows by exact Ha.
  unfold _remove_elements.
  rewrite (np_unique_perm _ _ Hp (ascending_keys _ Ha)).
  rewrite (np_unique_sorted _ (ascending_keys _ Ha)). reflexivity.
Qed.

Lemma In_keys_of k rows : In k (keys_of rows) <-> exists s, In s rows /\ s_key s = k.
Proof.
  unfold keys_of. rewrite in_map_iff. split; intros (s & H1 & H2); eauto.
Qed.

(** The rows of a node are the rows of the batch and the rows that stay. *)
Lemma remove_rows_perm batch rows :
  ascending rows ->
  List.NoDup (keys_of batch) ->
  incl batch rows ->
  Permutation rows (batch ++ remove_rows batch rows).
Proof.
  intros Ha Hnd Hincl.
  apply NoDup_Permutation.
  - apply NoDup_ListNoDup, ascending_NoDup, Ha.
  - apply NoDup_ListNoDup. apply List.NoDup_app.
    + apply (List.NoDup_map_inv s_key). exact Hnd.
    + apply ascending_NoDup, ascending_filter, Ha.
    + intros s Hs Hs'. unfold remove_rows in Hs'. apply filter_In in Hs' as [_ Hm].
      apply negb_true_iff in Hm. apply not_true_iff_false in Hm. apply Hm.
      apply mem_In, In_keys_of. eauto.
  - intros s. rewrite !list_elem_of_In, in_app_iff. unfold remove_rows.
    rewrite filter_In. split.
    + intros Hs. destruct (mem (s_key s) (keys_of batch)) eqn:Em.
      * left. apply mem_In, In_keys_of in Em as (b & Hb & E).
        rewrite <- (ascending_key_inj rows b s Ha (Hincl _ Hb) Hs E). exact Hb.
      * right. auto.
    + intros [Hs|[Hs _]]; [apply Hincl, Hs|exact Hs].
Qed.

Lemma len_remove_rows batch rows :
  ascending rows -> List.NoDup (keys_of batch) -> incl batch rows ->
  len (remove_rows batch rows) = len rows - len batch.
Proof.
  intros Ha Hnd Hincl.
  rewrite (len_perm _ _ (remove_rows_perm batch rows Ha Hnd Hincl)), len_app. lia.
Qed.

Lemma sum_y_remove_rows batch rows :
  ascending rows -> List.NoDup (keys_of batch) -> incl batch rows ->
  sum_y (remove_rows batch rows) = sum_y rows - sum_y batch.
Proof.
  intros Ha Hnd Hincl.
  rewrite (sum_y_perm _ _ (remove_rows_perm batch rows Ha Hnd Hincl)), sum_y_app. lia.
Qed.

Lemma filter_comm {A} (P Q : A -> bool) (l : list A) :
  List.filter P (List.filter Q l) = List.filter Q (List.filter P l).
Proof.
  induction l as [|a l IH]; simpl; [reflexivity|].
  destruct (P a) eqn:EP, (Q a) eqn:EQ; simpl; rewrite ?EP, ?EQ, IH; reflexivity.
Qed.

(** Filtering the rows by a test on the row commutes with the removal of
    the batch, which then removes the rows of the batch that pass the
    test. *)
Lemma filter_remove_rows (P : sample -> bool) batch rows :
  ascending rows -> incl batch rows ->
  List.filter P (remove_rows batch rows)
  = remove_rows (List.filter P batch) (List.filter P rows).
Proof.
  intros Ha Hincl. unfold remove_rows. rewrite filter_comm.
  apply List.filter_ext_in. intros s Hs. apply filter_In in Hs as [Hs HP].
  f_equal. apply eq_true_iff_eq. rewrite !mem_In, !In_keys_of.
  split; intros (b & Hb & E).
  - exists b. split; [|exact E]. apply filter_In. split; [exact Hb|].
    rewrite (ascending_key_inj rows b s Ha (Hincl _ Hb) Hs E). exact HP.
  - exists b. split; [|exact E]. apply filter_In in Hb as [Hb _]. exact Hb.
Qed.

Lemma incl_filter {A} (P : A -> bool) (batch rows : list A) :
  incl batch rows -> incl (List.filter P batch) (List.filter P rows).
Proof.
  intros H s Hs. apply filter_In in Hs as [Hs HP]. apply filter_In. auto.
Qed.

Lemma NoDup_keys_filter (P : sample -> bool) batch :
  List.NoDup (keys_of batch) -> List.NoDup (keys_of (List.filter P batch)).
Proof.
  unfold keys_of. induction batch as [|s batch IH]; simpl; [constructor|].
  intros H. inversion H as [|? ? Hn Hnd]; subst.
  destruct (P s); simpl; [|apply IH, Hnd].
  constructor; [|apply IH, Hnd].
  intros Hin. apply Hn. apply in_map_iff in Hin as (x & E & Hx).
  apply filter_In in Hx as [Hx _]. apply in_map_iff. eauto.
Qed.

Lemma filter_partition_perm {A} (P : A -> bool) (l : list A) :
  Permutation (List.filter P l ++ List.filter (fun a => negb (P a)) l) l.
Proof.
  induction l as [|a l IH]; simpl; [constructor|].
  destruct (P a); simpl.
  - constructor. exact IH.
  - rewrite <- Permutation_middle. constructor. exact IH.
Qed.

Lemma remove_rows_nil rows : remove_rows [] rows = rows.
Proof.
  unfold remove_rows. simpl. induction rows as [|s rows IH]; simpl; [|rewrite IH]; reflexivity.
Qed.

Lemma len_zero_nil {A} (l : list A) : len l = 0 -> l = [].
Proof. destruct l; [reflexivity|]. unfold len. simpl. lia. Qed.

(** The store gives back the rows of its keys. *)
Lemma _get_numpy_data_rows Xd yd rows :
  Forall (store_has Xd yd) rows -> _get_numpy_data Xd yd (keys_of rows) = inr rows.
Proof.
  induction 1 as [|s rows [HX Hy] _ IH]; [reflexivity|].
  change (keys_of (s :: rows)) with (s_key s :: keys_of rows).
  cbn [_get_numpy_data]. rewrite HX, Hy, IH. destruct s; reflexivity.
Qed.

(** ** What [_build_tree] establishes *)

Lemma Np_div_0_l b : Np.div (Np.of_int 0) b = 0%Q.
Proof.
  unfold Np.div, Np.of_int. change 0%Q with (Qred 0). apply Qred_eq.
  unfold Qdiv. apply Qmult_0_l.
Qed.

Lemma len_left_right i rows : len (left_rows i rows) + len (right_rows i rows) = len rows.
Proof.
  rewrite <- len_app. apply len_perm. apply (filter_partition_perm (goes_left i)).
Qed.

Lemma sum_y_left_right i rows :
  sum_y (left_rows i rows) + sum_y (right_rows i rows) = sum_y rows.
Proof.
  rewrite <- sum_y_app. apply sum_y_perm. apply (filter_partition_perm (goes_left i)).
Qed.

Lemma split_attr_ok rows i a :
  split_attr (len rows) rows i = Some a -> attr_ok rows (i, a).
Proof.
  unfold split_attr. destruct (_ && _) eqn:E; [|discriminate].
  apply andb_true_iff in E as [El Er]. apply Z.ltb_lt in El, Er.
  intros [= <-]. unfold attr_ok. cbn [fst snd a_left a_right a_gini_index].
  unfold branch_of. cbn [b_count b_pos_count].
  pose proof (len_left_right i rows). repeat split; try reflexivity; lia.
Qed.

Lemma build_attrs_ok F rows : Forall (attr_ok rows) (build_attrs F (len rows) rows).
Proof.
  apply Forall_forall. intros [i a] Hin. unfold build_attrs in Hin.
  apply list_elem_of_omap in Hin as (j & _ & Hj).
  destruct (split_attr (len rows) rows j) as [b|] eqn:E; [|discriminate].
  injection Hj as -> ->. apply split_attr_ok, E.
Qed.

Lemma attr_get_is_Some i (attr : list (nat * AttrDict)) :
  In i (map fst attr) -> is_Some (attr_get i attr).
Proof.
  induction attr as [|[j a] rest IH]; simpl; [tauto|].
  destruct (Nat.eqb_spec i j) as [->|Hne]; [eauto|].
  intros [E|H]; [congruence|apply IH, H].
Qed.

Lemma attr_ok_sides rows i a :
  attr_ok rows (i, a) ->
  (length (left_rows i rows) < length rows)%nat /\
  (length (right_rows i rows) < length rows)%nat.
Proof.
  intros (Hl & Hr & _ & _ & Hl1 & Hr1 & _). cbn [fst snd] in *.
  pose proof (len_left_right i rows). unfold len in *. lia.
Qed.

Section Build.

Context {RNG : Type}.
Variable np_exp : Q -> Q.
Variable np_random_seed : option Z -> RNG -> RNG.
Variable np_random_choice : list nat -> list Q -> RNG -> nat * RNG.

(** [np.random.choice] draws one of the candidates. *)
Hypothesis np_random_choice_in :
  forall a p g, a <> [] -> In (fst (np_random_choice a p g)) a.

Local Abbreviation build_f := (build_fuel np_exp np_random_seed np_random_choice).
Local Abbreviation build := (_build_tree np_exp np_random_seed np_random_choice).
Local Abbreviation fit_ := (fit np_exp np_random_seed np_random_choice).

Lemma choice_in a p (w w' : World) c :
  choice np_random_choice a p w = (inr c, w') -> In c a.
Proof.
  unfold choice. destruct a as [|i a]; [unfold raise; discriminate|].
  pose proof (np_random_choice_in (i :: a) p (gen w)) as H.
  destruct (np_random_choice _ _ _) as [c' g]. intros [= <- <-].
  apply H. discriminate.
Qed.

(** The tree built is consistent with the rows it is built from. *)
Lemma build_fuel_Inv fuel (self : Params) F :
  forall rows d (w w' : World) t,
    build_f fuel self F rows d w = (inr t, w') -> Inv rows t.
Proof.
  induction fuel as [|fuel IH]; intros rows d w w' t; cbn [build_fuel].
  - unfold raise. discriminate.
  - cbn [count pos_count].
    destruct (0 <? len rows) eqn:En; [|unfold raise; discriminate].
    destruct (_ && _); [unfold raise; discriminate|].
    destruct (_ || _) eqn:Eleaf.
    + unfold ret. intros [= <- <-]. cbn [Inv count pos_count].
      repeat split; try reflexivity.
      destruct (Z.eqb_spec (sum_y rows) 0) as [->|]; [apply Np_div_0_l|reflexivity].
    + apply orb_false_iff in Eleaf as [_ Hmono].
      unfold bind at 1. unfold seed at 1. unfold bind at 1.
      destruct (choice _ _ _ _) as [[e|c] w1] eqn:Ec; [discriminate|].
      apply choice_in in Ec.
      unfold bind at 1.
      destruct (build_f fuel self F (left_rows c rows) (S d) w1) as [[e|lt] w2] eqn:El;
        [discriminate|].
      unfold bind at 1.
      destruct (build_f fuel self F (right_rows c rows) (S d) w2) as [[e|rt] w3] eqn:Er;
        [discriminate|].
      unfold ret. intros [= <- <-]. cbn [Inv count pos_count gini_data].
      repeat split; try reflexivity.
      * apply gini_data_of_spec.
      * exact Hmono.
      * apply attr_get_is_Some, Ec.
      * apply build_attrs_ok.
      * eapply IH, El.
      * eapply IH, Er.
Qed.

(** With more fuel than rows the build does not run out of it. *)
Lemma build_fuel_enough fuel (self : Params) F :
  forall rows d (w : World),
    (length rows < fuel)%nat ->
    fst (build_f fuel self F rows d w) <> inl RecursionError.
Proof.
  induction fuel as [|fuel IH]; intros rows d w Hlt; [lia|]. cbn [build_fuel].
  destruct (0 <? _); [|unfold raise; simpl; discriminate].
  destruct (_ && _); [unfold raise; simpl; discriminate|].
  destruct (_ || _); [unfold ret; simpl; discriminate|].
  unfold bind at 1. unfold seed at 1. unfold bind at 1.
  destruct (choice _ _ _ _) as [[e|c] w1] eqn:Ec.
  { unfold choice in Ec. destruct (map fst _); [unfold raise in Ec|].
    - injection Ec as <- _. simpl. discriminate.
    - destruct (np_random_choice _ _ _). discriminate. }
  apply choice_in in Ec.
  apply in_map_iff in Ec as ([c' a] & E & Hin). simpl in E. subst c'.
  pose proof (build_attrs_ok F rows) as Hok. rewrite Forall_forall in Hok.
  apply list_elem_of_In in Hin. apply Hok, attr_ok_sides in Hin as [Hl Hr].
  unfold bind at 1.
  pose proof (IH (left_rows c rows) (S d) w1 ltac:(lia)) as IHl.
  destruct (build_f fuel self F (left_rows c rows) (S d) w1) as [[e|lt] w2];
    [simpl in *; exact IHl|].
  unfold bind at 1.
  pose proof (IH (right_rows c rows) (S d) w2 ltac:(lia)) as IHr.
  destruct (build_f fuel self F (right_rows c rows) (S d) w2) as [[e|rt] w3];
    [simpl in *; exact IHr|].
  unfold ret. simpl. discriminate.
Qed.

Lemma _build_tree_fuel (self : Params) F rows d (w : World) :
  fst (build self F rows d w) <> inl RecursionError.
Proof. apply build_fuel_enough. lia. Qed.

Lemma _build_tree_Inv (self : Params) F rows d (w w' : World) t :
  build self F rows d w = (inr t, w') -> Inv rows t.
Proof. apply build_fuel_Inv. Qed.

End Build.

(** ** The store after [fit] *)

Lemma rows_from_keys_ge i X y s : In s (rows_from i X y) -> i <= s_key s.
Proof.
  revert i y. induction X as [|xi X IH]; intros i [|yi y]; simpl; try tauto.
  intros [<-|H]; [simpl; lia|]. apply IH in H. lia.
Qed.

Lemma rows_from_ascending i X y : ascending (rows_from i X y).
Proof.
  revert i y. induction X as [|xi X IH]; intros i [|yi y]; simpl; try constructor.
  - apply IH.
  - apply List.Forall_forall. intros s Hs. apply rows_from_keys_ge in Hs.
    unfold key_lt. simpl. lia.
Qed.

Lemma _numpy_to_dict_lookup i X y :
  forall k,
    (fst (_numpy_to_dict i X y) !! k =
       match List.find (fun s => Z.eqb (s_key s) k) (rows_from i X y) with
       | Some s => Some (s_x s) | None => None end) /\
    (snd (_numpy_to_dict i X y) !! k =
       match List.find (fun s => Z.eqb (s_key s) k) (rows_from i X y) with
       | Some s => Some (s_y s) | None => None end).
Proof.
  revert i y. induction X as [|xi X IH]; intros i [|yi y] k; simpl;
    try (split; apply lookup_empty).
  specialize (IH (i + 1) y k).
  destruct (_numpy_to_dict (i + 1) X y) as [Xd yd]. simpl in *.
  destruct (Z.eqb_spec i k) as [->|Hne].
  - rewrite !lookup_insert_eq. auto.
  - rewrite !lookup_insert_ne by exact Hne. exact IH.
Qed.

Lemma find_key_ascending rows s :
  ascending rows -> In s rows ->
  List.find (fun s' => Z.eqb (s_key s') (s_key s)) rows = Some s.
Proof.
  intros Ha Hin.
  destruct (List.find _ rows) as [s'|] eqn:E.
  - apply find_some in E as [Hin' E]. apply Z.eqb_eq in E.
    f_equal. eapply ascending_key_inj; eauto.
  - eapply find_none in E; [|exact Hin]. simpl in E. rewrite Z.eqb_refl in E. discriminate.
Qed.

Lemma fit_store_rows X y :
  let rows := rows_from 0 X y in
  let Xd := fst (_numpy_to_dict 0 X y) in
  let yd := snd (_numpy_to_dict 0 X y) in
  ascending rows /\
  Forall (store_has Xd yd) rows /\
  (forall k, is_Some (Xd !! k) -> In k (keys_of rows)).
Proof.
  intros rows Xd yd. pose proof (rows_from_ascending 0 X y) as Ha.
  split; [exact Ha|]. split.
  - apply Forall_forall. intros s Hs. apply list_elem_of_In in Hs.
    destruct (_numpy_to_dict_lookup 0 X y (s_key s)) as [HX Hy].
    unfold store_has. subst Xd yd. rewrite HX, Hy.
    rewrite (find_key_ascending _ s Ha Hs). auto.
  - intros k [v Hk]. subst Xd.
    destruct (_numpy_to_dict_lookup 0 X y k) as [HX _]. rewrite HX in Hk.
    destruct (List.find _ _) as [s|] eqn:E; [|discriminate].
    apply find_some in E as [Hin E]. apply Z.eqb_eq in E.
    apply In_keys_of. eauto.
Qed.

(** ** What [_delete] preserves *)

Lemma keys_of_app l1 l2 : keys_of (l1 ++ l2) = keys_of l1 ++ keys_of l2.
Proof. apply map_app. Qed.

(** The keys at the leaves under a node are the keys of its rows. *)
Lemma get_indices_perm t : forall rows, Inv rows t -> Permutation (get_indices t) (keys_of rows).
Proof.
  induction t as [v nd lv idx|f nd attr l IHl r IHr]; intros rows; cbn [Inv get_indices].
  - intros (-> & _). reflexivity.
  - intros (_ & _ & _ & _ & _ & _ & Hl & Hr).
    rewrite (IHl _ Hl), (IHr _ Hr), <- keys_of_app.
    apply Permutation_map, (filter_partition_perm (goes_left f)).
Qed.

Lemma store_has_filter Xd yd (P : sample -> bool) rows :
  Forall (store_has Xd yd) rows -> Forall (store_has Xd yd) (List.filter P rows).
Proof.
  rewrite !Forall_forall. intros H s Hs. apply H.
  apply list_elem_of_In in Hs. apply filter_In in Hs as [Hs _].
  apply list_elem_of_In, Hs.
Qed.

Lemma len_filter_remove_rows (P : sample -> bool) batch rows :
  ascending rows -> List.NoDup (keys_of batch) -> incl batch rows ->
  len (List.filter P (remove_rows batch rows))
  = len (List.filter P rows) - len (List.filter P batch).
Proof.
  intros Ha Hnd Hincl. rewrite filter_remove_rows by assumption.
  apply len_remove_rows;
    auto using ascending_filter, NoDup_keys_filter, incl_filter.
Qed.

Lemma sum_y_filter_remove_rows (P : sample -> bool) batch rows :
  ascending rows -> List.NoDup (keys_of batch) -> incl batch rows ->
  sum_y (List.filter P (remove_rows batch rows))
  = sum_y (List.filter P rows) - sum_y (List.filter P batch).
Proof.
  intros Ha Hnd Hincl. rewrite filter_remove_rows by assumption.
  apply sum_y_remove_rows;
    auto using ascending_filter, NoDup_keys_filter, incl_filter.
Qed.

Lemma sum_y_nil_of_len (l : list sample) : len l = 0 -> sum_y l = 0.
Proof. intros H. apply len_zero_nil in H. subst. reflexivity. Qed.

(** An entry that the loop of [_delete] keeps agrees with the rows that
    stay. *)
Lemma update_attr_ok n batch rows i a a' :
  ascending rows -> List.NoDup (keys_of batch) -> incl batch rows ->
  attr_ok rows (i, a) ->
  update_attr n batch i a = Some a' ->
  attr_ok (remove_rows batch rows) (i, a').
Proof.
  intros Ha Hnd Hincl (Hl & Hr & Hpl & Hpr & Hl1 & Hr1 & Hg). cbn [fst snd] in *.
  unfold update_attr, _update_decision_node.
  pose proof (len_filter_remove_rows (goes_left i) batch rows Ha Hnd Hincl) as Ell.
  pose proof (len_filter_remove_rows (fun s => negb (goes_left i s)) batch rows Ha Hnd Hincl) as Elr.
  pose proof (sum_y_filter_remove_rows (goes_left i) batch rows Ha Hnd Hincl) as Esl.
  pose proof (sum_y_filter_remove_rows (fun s => negb (goes_left i s)) batch rows Ha Hnd Hincl) as Esr.
  fold (left_rows i (remove_rows batch rows)) in Ell, Esl.
  fold (right_rows i (remove_rows batch rows)) in Elr, Esr.
  fold (left_rows i rows) in Ell, Esl. fold (right_rows i rows) in Elr, Esr.
  fold (left_rows i batch) in Ell, Esl. fold (right_rows i batch) in Elr, Esr.
  pose proof (len_nonneg (left_rows i batch)) as Hbl.
  pose proof (len_nonneg (right_rows i batch)) as Hbr.
  destruct (Z.ltb_spec 0 (len (left_rows i batch))) as [Hyl|Hyl];
    [destruct (Z.leb_spec (b_count (a_left a)) (len (left_rows i batch))); [discriminate|]|];
    (destruct (Z.ltb_spec 0 (len (right_rows i batch))) as [Hyr|Hyr];
     [destruct (Z.leb_spec (b_count (a_right a)) (len (right_rows i batch))); [discriminate|]|]);
    intros [= <-]; unfold attr_ok; cbn [fst snd a_left a_right a_gini_index];
    unfold branch_of; cbn [b_count b_pos_count];
    try (assert (sum_y (left_rows i batch) = 0) by (apply sum_y_nil_of_len; lia));
    try (assert (sum_y (right_rows i batch) = 0) by (apply sum_y_nil_of_len; lia));
    repeat split; try reflexivity; lia.
Qed.

Lemma valid_attrs_cons i o upd :
  valid_attrs ((i, o) :: upd) =
  match o with
  | Some a => (i, a) :: valid_attrs upd
  | None => valid_attrs upd
  end.
Proof. unfold valid_attrs. cbn. destruct o; reflexivity. Qed.

Lemma valid_attrs_ok n batch rows attr :
  ascending rows -> List.NoDup (keys_of batch) -> incl batch rows ->
  Forall (attr_ok rows) attr ->
  Forall (attr_ok (remove_rows batch rows)) (valid_attrs (update_attrs n batch attr)).
Proof.
  intros Ha Hnd Hincl. induction 1 as [|[i a] attr Hok _ IH]; [constructor|].
  unfold update_attrs. cbn [map fst snd]. rewrite valid_attrs_cons.
  destruct (update_attr n batch i a) as [a'|] eqn:E; [|exact IH].
  constructor; [|exact IH]. eapply update_attr_ok; eauto.
Qed.

(** The attribute of the split stays in the map when it stays valid. *)
Lemma attr_get_valid n batch f attr chosen a' :
  attr_get f attr = Some chosen ->
  update_attr n batch f chosen = Some a' ->
  attr_get f (valid_attrs (update_attrs n batch attr)) = Some a'.
Proof.
  induction attr as [|[j a] attr IH]; cbn [attr_get]; [discriminate|].
  unfold update_attrs. cbn [map fst snd]. rewrite valid_attrs_cons.
  destruct (Nat.eqb_spec f j) as [->|Hne].
  - intros [= ->] ->. cbn [attr_get]. rewrite Nat.eqb_refl. reflexivity.
  - intros Hget Hup. specialize (IH Hget Hup).
    destruct (update_attr n batch j a); [|exact IH].
    cbn [attr_get]. destruct (Nat.eqb_spec f j); [contradiction|exact IH].
Qed.

Section DeleteInv.

Context {RNG : Type}.
Variable np_exp : Q -> Q.
Variable np_random_seed : option Z -> RNG -> RNG.
Variable np_random_choice : list nat -> list Q -> RNG -> nat * RNG.

Hypothesis np_random_choice_in :
  forall a p g, a <> [] -> In (fst (np_random_choice a p g)) a.

Local Abbreviation del := (_delete np_exp np_random_seed np_random_choice).
Local Abbreviation rebuild_at := (rebuild np_exp np_random_seed np_random_choice).
Local Abbreviation build := (_build_tree np_exp np_random_seed np_random_choice).
Local Abbreviation delete_ := (delete np_exp np_random_seed np_random_choice).
Local Abbreviation fit_ := (fit np_exp np_random_seed np_random_choice).

(** A rebuild that succeeds builds the rows that stay at the node. *)
Lemma rebuild_rows (self : Tree) t batch rows dtype d tr (w w' : World) t' tr' :
  ascending rows ->
  Forall (store_has (X_train_ self) (y_train_ self)) rows ->
  Permutation (get_indices t) (keys_of rows) ->
  rebuild_at self t (keys_of batch) dtype d tr w = (Done t' tr', w') ->
  build (params self) (n_features_ self) (remove_rows batch rows) d w = (inr t', w') /\
  tr' = tr ++ [dtype +:+ "_" +:+ pretty d].
Proof.
  intros Ha Hst Hp. unfold rebuild.
  rewrite (keys_of_remove_rows_perm batch rows _ Ha Hp).
  rewrite (_get_numpy_data_rows _ _ (remove_rows batch rows) (store_has_filter _ _ _ _ Hst)).
  destruct (build _ _ _ _ _) as [[e|node] w1]; [discriminate|].
  intros [= <- <- <-]. auto.
Qed.

Lemma rebuild_Inv (self : Tree) t batch rows dtype d tr (w w' : World) t' tr' :
  ascending rows ->
  Forall (store_has (X_train_ self) (y_train_ self)) rows ->
  Permutation (get_indices t) (keys_of rows) ->
  rebuild_at self t (keys_of batch) dtype d tr w = (Done t' tr', w') ->
  Inv (remove_rows batch rows) t'.
Proof.
  intros Ha Hst Hp H.
  destruct (rebuild_rows self t batch rows dtype d tr w w' t' tr' Ha Hst Hp H) as [Hb _].
  eapply _build_tree_Inv; eauto.
Qed.

(** A call of [_delete] that returns leaves the subtree consistent with
    the rows that stay. *)
Lemma _delete_Inv (self : Tree) t :
  forall rows batch d tr (w w' : World) t' tr',
    ascending rows ->
    Forall (store_has (X_train_ self) (y_train_ self)) rows ->
    List.NoDup (keys_of batch) ->
    incl batch rows ->
    Inv rows t ->
    del self batch t d tr w = (Done t' tr', w') ->
    Inv (remove_rows batch rows) t'.
Proof.
  induction t as [v nd lv idx|f nd attr l IHl r IHr];
    intros rows batch d tr w w' t' tr' Ha Hst Hnd Hincl HInv.
  - cbn [_delete]. intros [= <- <- <-].
    destruct HInv as (-> & Hc & Hp & _ & _).
    unfold _update_leaf_node. cbn [Inv count pos_count].
    rewrite len_remove_rows, sum_y_remove_rows, keys_of_remove_rows by assumption.
    rewrite Hc, Hp. repeat split; reflexivity.
  - pose proof (get_indices_perm _ _ HInv) as Hperm.
    destruct HInv as (Hc & Hp & Hg & Hm & Hsome & Hattr & HIl & HIr).
    cbn [_delete].
    set (nd' := update_node_dict nd batch).
    assert (Hc' : count nd' = len (remove_rows batch rows)).
    { subst nd'. cbn. rewrite len_remove_rows by assumption. lia. }
    assert (Hp' : pos_count nd' = sum_y (remove_rows batch rows)).
    { subst nd'. cbn. rewrite sum_y_remove_rows by assumption. lia. }
    destruct (Nat.eqb d 0 && is_mono nd'); [discriminate|].
    destruct (is_mono nd') eqn:Emono.
    { intros [= <- <- <-]. cbn [Inv get_indices] in *.
      rewrite (keys_of_remove_rows_perm batch rows _ Ha Hperm).
      repeat split; try assumption.
      change (pos_count nd - sum_y batch) with (pos_count nd').
      change (count nd - len batch) with (count nd').
      destruct (Z.eqb_spec (pos_count nd') 0) as [->|]; [apply Np_div_0_l|reflexivity]. }
    destruct (attr_get f attr) as [chosen|] eqn:Eget; [|discriminate].
    destruct (_ || _) eqn:Ehang.
    { intros H. eapply (rebuild_Inv self (Decision f nd' _ l r) batch rows);
        [exact Ha|exact Hst|exact Hperm|exact H]. }
    destruct (diverges _ _ _ _).
    { intros H. eapply (rebuild_Inv self (Decision f nd' _ l r) batch rows);
        [exact Ha|exact Hst|exact Hperm|exact H]. }
    destruct (chosen_stays_valid (count nd') batch f chosen Ehang) as [a' Ha'].
    assert (HIl' : forall (w1 w2 : World) tr1 l' tr2,
               (if 0 <? len (left_rows f batch)
                then del self (left_rows f batch) l (S d) tr1 w1
                else (Done l tr1, w1)) = (Done l' tr2, w2) ->
               Inv (left_rows f (remove_rows batch rows)) l').
    { intros w1 w2 tr1 l' tr2. unfold left_rows at 3.
      rewrite filter_remove_rows by assumption.
      destruct (Z.ltb_spec 0 (len (left_rows f batch))) as [Hpos|Hz].
      - intros H. eapply IHl; [| | | | exact HIl | exact H];
          auto using ascending_filter, store_has_filter, NoDup_keys_filter, incl_filter.
      - intros [= <- <-].
        pose proof (len_nonneg (left_rows f batch)).
        assert (E : left_rows f batch = []) by (apply len_zero_nil; lia).
        unfold left_rows in E. rewrite E, remove_rows_nil. exact HIl. }
    assert (HIr' : forall (w1 w2 : World) tr1 r' tr2,
               (if 0 <? len (right_rows f batch)
                then del self (right_rows f batch) r (S d) tr1 w1
                else (Done r tr1, w1)) = (Done r' tr2, w2) ->
               Inv (right_rows f (remove_rows batch rows)) r').
    { intros w1 w2 tr1 r' tr2. unfold right_rows at 3.
      rewrite filter_remove_rows by assumption.
      destruct (Z.ltb_spec 0 (len (right_rows f batch))) as [Hpos|Hz].
      - intros H. eapply IHr; [| | | | exact HIr | exact H];
          auto using ascending_filter, store_has_filter, NoDup_keys_filter, incl_filter.
      - intros [= <- <-].
        pose proof (len_nonneg (right_rows f batch)).
        assert (E : right_rows f batch = []) by (apply len_zero_nil; lia).
        unfold right_rows in E. rewrite E, remove_rows_nil. exact HIr. }
    destruct (if 0 <? len (left_rows f batch) then _ else _) as [[l' tr1|e l' tr1] w1] eqn:El;
      [|discriminate].
    destruct (if 0 <? len (right_rows f batch) then _ else _) as [[r' tr2|e r' tr2] w2] eqn:Er;
      [|discriminate].
    intros [= <- <- <-]. cbn [Inv].
    split; [exact Hc'|]. split; [exact Hp'|]. split.
    { subst nd'. unfold update_node_dict. cbn [gini_data count pos_count].
      apply gini_data_of_neg_swapped. }
    split; [exact Emono|]. split.
    { change (count nd - len batch) with (count nd').
      rewrite (attr_get_valid _ _ _ _ _ _ Eget Ha'). eauto. }
    split; [apply valid_attrs_ok; assumption|].
    split; [eapply HIl', El|eapply HIr', Er].
Qed.

End DeleteInv.

(** ** The store after [delete] *)

Lemma batch_rows Xd yd D batch :
  _get_numpy_data Xd yd D = inr batch ->
  keys_of batch = D /\ Forall (store_has Xd yd) batch.
Proof.
  revert batch. induction D as [|k D IH]; intros batch; cbn [_get_numpy_data].
  - intros [= <-]. split; [reflexivity|constructor].
  - destruct (Xd !! k) as [xi|] eqn:EX; [|discriminate].
    destruct (yd !! k) as [yi|] eqn:Ey; [|discriminate].
    destruct (_get_numpy_data Xd yd D) as [e|rows]; [discriminate|].
    intros [= <-]. destruct (IH rows eq_refl) as [Hk Hst].
    split; [cbn; rewrite <- Hk; reflexivity|].
    constructor; [split; assumption|exact Hst].
Qed.

Lemma mem_cons j k D : mem j (k :: D) = (j =? k) || mem j D.
Proof. reflexivity. Qed.

(** Deleting a key that is gone raises. *)
Lemma del_keys_absent D : forall (Xd : gmap Z (list Z)) (yd : gmap Z Z) k,
  Xd !! k = None -> In k D -> fst (del_keys Xd yd D) <> None.
Proof.
  induction D as [|j D IH]; intros Xd yd k Hk Hin; [destruct Hin|].
  cbn [del_keys]. destruct (Z.eq_dec j k) as [->|Hne].
  - rewrite Hk. simpl. discriminate.
  - destruct Hin as [E|Hin]; [contradiction|].
    destruct (Xd !! j); [|simpl; discriminate].
    destruct (yd !! j); [|simpl; discriminate].
    apply (IH _ _ k); [|exact Hin].
    rewrite lookup_delete_ne by exact Hne. exact Hk.
Qed.

Lemma del_keys_ok D : forall Xd yd Xd' yd',
  del_keys Xd yd D = (None, (Xd', yd')) ->
  List.NoDup D /\
  (forall k, Xd' !! k = if mem k D then None else Xd !! k) /\
  (forall k, yd' !! k = if mem k D then None else yd !! k).
Proof.
  induction D as [|k D IH]; intros Xd yd Xd' yd'; cbn [del_keys].
  - intros [= <- <-]. split; [constructor|]. split; reflexivity.
  - destruct (Xd !! k) as [xi|] eqn:EX; [|discriminate].
    destruct (yd !! k) as [yi|] eqn:Ey; [|discriminate].
    intros H. destruct (IH _ _ _ _ H) as (Hnd & HX & Hy).
    assert (Hk : ~ In k D).
    { intros Hin.
      apply (del_keys_absent D (base.delete k Xd) (base.delete k yd) k); [|exact Hin|].
      - apply lookup_delete_eq.
      - rewrite H. reflexivity. }
    split; [constructor; assumption|].
    split; intros j; [rewrite HX|rewrite Hy]; rewrite mem_cons;
      destruct (Z.eqb_spec j k) as [->|Hne]; cbn [orb].
    + destruct (mem k D); [reflexivity|]. apply lookup_delete_eq.
    + destruct (mem j D); [reflexivity|]. apply lookup_delete_ne. congruence.
    + destruct (mem k D); [reflexivity|]. apply lookup_delete_eq.
    + destruct (mem j D); [reflexivity|]. apply lookup_delete_ne. congruence.
Qed.

(** ** No attribute is reused below its split *)

Lemma attr_ok_both_sides rows f a (b : bool) :
  attr_ok rows (f, a) ->
  (forall s, In s rows -> goes_left f s = b) -> False.
Proof.
  intros (Hl & Hr & _ & _ & Hl1 & Hr1 & _) Hall. cbn [fst snd] in *.
  destruct b.
  - assert (E : right_rows f rows = []).
    { unfold right_rows. clear -Hall. induction rows as [|s rows IH]; [reflexivity|].
      simpl. rewrite (Hall s) by (left; reflexivity). simpl.
      apply IH. intros; apply Hall; right; assumption. }
    rewrite E in Hr. unfold len in Hr. simpl in Hr. lia.
  - assert (E : left_rows f rows = []).
    { unfold left_rows. clear -Hall. induction rows as [|s rows IH]; [reflexivity|].
      simpl. rewrite (Hall s) by (left; reflexivity).
      apply IH. intros; apply Hall; right; assumption. }
    rewrite E in Hl. unfold len in Hl. simpl in Hl. lia.
Qed.

Lemma In_fst_attr f (attr : list (nat * AttrDict)) :
  In f (map fst attr) -> exists a, In (f, a) attr.
Proof.
  intros H. apply in_map_iff in H as ([g a] & E & Hin). simpl in E. subst. eauto.
Qed.

(** An attribute on which the rows of a node all agree is mentioned
    nowhere in the subtree of the node. *)
Lemma Inv_not_mentions f (b : bool) t :
  forall rows,
    Inv rows t ->
    (forall s, In s rows -> goes_left f s = b) ->
    ~ mentions f t.
Proof.
  induction t as [v nd lv idx|g nd attr l IHl r IHr]; intros rows HInv Hall; cbn [mentions].
  - tauto.
  - destruct HInv as (_ & _ & _ & _ & Hsome & Hattr & HIl & HIr).
    rewrite List.Forall_forall in Hattr.
    intros [->|[Hin|[Hm|Hm]]].
    + destruct Hsome as [a Ha]. apply attr_get_In in Ha.
      exact (attr_ok_both_sides rows f a b (Hattr _ Ha) Hall).
    + apply In_fst_attr in Hin as [a Ha].
      exact (attr_ok_both_sides rows f a b (Hattr _ Ha) Hall).
    + apply (IHl _ HIl); [|exact Hm].
      intros s Hs. apply filter_In in Hs as [Hs _]. apply Hall, Hs.
    + apply (IHr _ HIr); [|exact Hm].
      intros s Hs. apply filter_In in Hs as [Hs _]. apply Hall, Hs.
Qed.

Lemma Inv_no_reuse t : forall rows, Inv rows t -> no_reuse t.
Proof.
  induction t as [v nd lv idx|f nd attr l IHl r IHr]; intros rows HInv; cbn [no_reuse].
  - exact I.
  - destruct HInv as (_ & _ & _ & _ & _ & _ & HIl & HIr).
    split; [|split; [|split]].
    + apply (Inv_not_mentions f true l _ HIl).
      intros s Hs. apply filter_In in Hs as [_ Hs]. exact Hs.
    + apply (Inv_not_mentions f false r _ HIr).
      intros s Hs. apply filter_In in Hs as [_ Hs]. apply negb_true_iff, Hs.
    + eapply IHl, HIl.
    + eapply IHr, HIr.
Qed.

Section TreeInvariant.

Context {RNG : Type}.
Variable np_exp : Q -> Q.
Variable np_random_seed : option Z -> RNG -> RNG.
Variable np_random_choice : list nat -> list Q -> RNG -> nat * RNG.

Hypothesis np_random_choice_in :
  forall a p g, a <> [] -> In (fst (np_random_choice a p g)) a.

Local Abbreviation del := (_delete np_exp np_random_seed np_random_choice).
Local Abbreviation build := (_build_tree np_exp np_random_seed np_random_choice).
Local Abbreviation delete_ := (delete np_exp np_random_seed np_random_choice).
Local Abbreviation fit_ := (fit np_exp np_random_seed np_random_choice).

Lemma fit_TreeInv (self : Params) X y (w w' : World) t :
  fit_ self X y w = (inr t, w') -> TreeInv t.
Proof.
  unfold fit. destruct (fit_store_rows X y) as (Ha & Hst & Hdom).
  destruct (length y <? length X)%nat; [unfold raise; discriminate|].
  destruct (_numpy_to_dict 0 X y) as [Xd yd]. cbn [fst snd] in *.
  unfold bind.
  destruct (build _ _ _ _ _) as [[e|root] w1] eqn:E; [discriminate|].
  unfold ret. intros [= <- <-].
  exists (rows_from 0 X y). cbn [X_train_ y_train_ root_].
  split; [exact Ha|]. split; [exact Hst|]. split; [exact Hdom|].
  eapply _build_tree_Inv; eauto.
Qed.

Lemma delete_TreeInv (self : Tree) D (w w' : World) tr self' :
  TreeInv self ->
  delete_ self D w = (inr tr, self', w') ->
  TreeInv self'.
Proof.
  intros (rows & Ha & Hst & Hdom & HInv). unfold delete, batch_of.
  destruct (_get_numpy_data _ _ D) as [e|batch] eqn:Eb; [discriminate|].
  destruct (batch_rows _ _ _ _ Eb) as [Hkeys Hbst].
  destruct (del _ _ _ _ _ _) as [[node trace|e t1 trace] w1] eqn:Ed; [|discriminate].
  destruct (del_keys _ _ D) as [[e|] [Xd' yd']] eqn:Ek; [discriminate|].
  intros [= <- <- <-].
  destruct (del_keys_ok _ _ _ _ _ Ek) as (Hnd & HX & Hy).
  assert (Hincl : incl batch rows).
  { intros b Hb. rewrite Forall_forall in Hbst.
    destruct (Hbst b) as [HbX Hby]; [apply list_elem_of_In, Hb|].
    assert (Hk : In (s_key b) (keys_of rows)) by (apply Hdom; eauto).
    apply In_keys_of in Hk as (s & Hs & E).
    rewrite Forall_forall in Hst.
    destruct (Hst s) as [HsX Hsy]; [apply list_elem_of_In, Hs|].
    rewrite E in HsX, Hsy. rewrite HbX in HsX. rewrite Hby in Hsy.
    injection HsX as HsX. injection Hsy as Hsy.
    destruct s, b; simpl in *; subst. exact Hs. }
  exists (remove_rows batch rows). cbn [X_train_ y_train_ root_].
  split; [apply ascending_filter, Ha|]. split; [|split].
  - apply Forall_forall. intros s Hs. apply list_elem_of_In in Hs.
    unfold remove_rows in Hs. apply filter_In in Hs as [Hs Hm].
    rewrite Hkeys in Hm. apply negb_true_iff in Hm.
    rewrite Forall_forall in Hst.
    destruct (Hst s) as [HsX Hsy]; [apply list_elem_of_In, Hs|].
    unfold store_has. rewrite HX, Hy, Hm. auto.
  - intros k Hk. rewrite HX in Hk. destruct (mem k D) eqn:Em.
    { destruct Hk as [? Hk]. discriminate. }
    apply Hdom, In_keys_of in Hk as (s & Hs & E).
    apply In_keys_of. exists s. split; [|exact E].
    unfold remove_rows. apply filter_In. split; [exact Hs|].
    rewrite Hkeys, E, Em. reflexivity.
  - eapply _delete_Inv; [exact np_random_choice_in|exact Ha|exact Hst| |exact Hincl|exact HInv|exact Ed].
    rewrite Hkeys. exact Hnd.
Qed.

Lemma TreeInv_no_reuse (self : Tree) : TreeInv self -> no_reuse (root_ self).
Proof. intros (rows & _ & _ & _ & HInv). eapply Inv_no_reuse, HInv. Qed.

(** C7.  After every [fit] and every [delete] that returns, the tree is
    consistent with the rows of the store: at every decision node, every
    attribute in the attribute map has at least one of the rows now routed
    to the node in each branch, and its branch records hold these counts.
    An attribute on which the rows of a node all agree (such as the split
    of an ancestor) is therefore in no map and is no split below: no
    attribute is reused on a path from the root to a leaf. *)
Theorem C7_viable_attributes_and_no_reuse :
  (forall (self : Params) X y (w w' : World) t,
      fit_ self X y w = (inr t, w') ->
      TreeInv t /\ no_reuse (root_ t)) /\
  (forall (self : Tree) D (w w' : World) tr self',
      TreeInv self ->
      delete_ self D w = (inr tr, self', w') ->
      TreeInv self' /\ no_reuse (root_ self')).
Proof.
  split.
  - intros self X y w w' t H. pose proof (fit_TreeInv _ _ _ _ _ _ H).
    auto using TreeInv_no_reuse.
  - intros self D w w' tr self' HI H. pose proof (delete_TreeInv _ _ _ _ _ _ HI H).
    auto using TreeInv_no_reuse.
Qed.

(** *** Fuel

    The recursion of [_build_tree] is modelled with fuel; neither [fit]
    nor [delete] ever runs out of it. *)

Lemma _get_numpy_data_error Xd yd indices e :
  _get_numpy_data Xd yd indices = inl e -> e <> RecursionError.
Proof.
  induction indices as [|k rest IH]; cbn [_get_numpy_data]; [discriminate|].
  destruct (Xd !! k); [|intros [= <-]; discriminate].
  destruct (yd !! k); [|intros [= <-]; discriminate].
  destruct (_get_numpy_data Xd yd rest); [|discriminate].
  intros [= <-]. apply IH. reflexivity.
Qed.

Lemma del_keys_error D : forall Xd yd e,
  fst (del_keys Xd yd D) = Some e -> e <> RecursionError.
Proof.
  induction D as [|k D IH]; intros Xd yd e; cbn [del_keys]; [discriminate|].
  destruct (Xd !! k); [|intros [= <-]; discriminate].
  destruct (yd !! k); [|intros [= <-]; discriminate].
  apply IH.
Qed.

Lemma fit_fuel (self : Params) X y (w : World) :
  fst (fit_ self X y w) <> inl RecursionError.
Proof.
  unfold fit. destruct (length y <? length X)%nat; [unfold raise; simpl; discriminate|].
  destruct (_numpy_to_dict 0 X y) as [Xd yd]. unfold bind.
  pose proof (_build_tree_fuel np_exp np_random_seed np_random_choice np_random_choice_in
                self (shape1 X) (rows_from 0 X y) 0 w) as H.
  destruct (build _ _ _ _ _) as [[e|root] w1]; simpl in *; [|discriminate].
  intros [= ->]. apply H. reflexivity.
Qed.

Lemma rebuild_fuel (self : Tree) t keys dtype d tr (w : World) :
  match fst (rebuild np_exp np_random_seed np_random_choice self t keys dtype d tr w) with
  | Raised e _ _ => e <> RecursionError
  | Done _ _ => True
  end.
Proof.
  unfold rebuild.
  destruct (_get_numpy_data _ _ _) as [e|rows] eqn:E.
  { simpl. eapply _get_numpy_data_error, E. }
  pose proof (_build_tree_fuel np_exp np_random_seed np_random_choice np_random_choice_in
                (params self) (n_features_ self) rows d w) as H.
  destruct (build _ _ _ _ _) as [[e|node] w1]; simpl in *; [|exact I].
  intros ->. apply H. reflexivity.
Qed.

Lemma _delete_fuel (self : Tree) t :
  forall batch d tr (w : World),
    match fst (del self batch t d tr w) with
    | Raised e _ _ => e <> RecursionError
    | Done _ _ => True
    end.
Proof.
  induction t as [v nd lv idx|f nd attr l IHl r IHr]; intros batch d tr w; cbn [_delete].
  - exact I.
  - destruct (Nat.eqb d 0 && _); [simpl; discriminate|].
    destruct (is_mono _); [exact I|].
    destruct (attr_get f attr); [|simpl; discriminate].
    destruct (_ || _); [apply rebuild_fuel|].
    destruct (diverges _ _ _ _); [apply rebuild_fuel|].
    assert (Hl : match fst (if 0 <? len (left_rows f batch)
                            then del self (left_rows f batch) l (S d) tr w
                            else (Done l tr, w)) with
                 | Raised e _ _ => e <> RecursionError
                 | Done _ _ => True
                 end).
    { destruct (0 <? len (left_rows f batch)); [apply IHl|exact I]. }
    destruct (if 0 <? len (left_rows f batch) then _ else _) as [[l' tr1|e l' tr1] w1];
      [|exact Hl].
    assert (Hr : match fst (if 0 <? len (right_rows f batch)
                            then del self (right_rows f batch) r (S d) tr1 w1
                            else (Done r tr1, w1)) with
                 | Raised e _ _ => e <> RecursionError
                 | Done _ _ => True
                 end).
    { destruct (0 <? len (right_rows f batch)); [apply IHr|exact I]. }
    destruct (if 0 <? len (right_rows f batch) then _ else _) as [[r' tr2|e r' tr2] w2];
      [exact I|exact Hr].
Qed.

Lemma delete_fuel (self : Tree) D (w : World) :
  fst (fst (delete_ self D w)) <> inl RecursionError.
Proof.
  unfold delete, batch_of.
  destruct (_get_numpy_data _ _ D) as [e|batch] eqn:Eb.
  { simpl. intros [= ->]. exact (_get_numpy_data_error _ _ _ _ Eb eq_refl). }
  pose proof (_delete_fuel self (root_ self) batch 0 [] w) as H.
  destruct (del _ _ _ _ _ _) as [[node trace|e t1 trace] w1]; simpl in H.
  - destruct (del_keys _ _ D) as [[e|] [Xd' yd']] eqn:Ek; simpl; [|discriminate].
    intros [= ->]. apply (del_keys_error D (X_train_ self) (y_train_ self) RecursionError).
    + rewrite Ek. reflexivity.
    + reflexivity.
  - simpl. intros [= ->]. apply H. reflexivity.
Qed.

End TreeInvariant.

(** ** The empty batch *)

Lemma update_attr_nil n i (a : AttrDict) :
  a_gini_index a = _compute_gini_index (a_left a) (a_right a) ->
  update_attr n [] i a = Some a.
Proof.
  intros H. unfold update_attr.
  change (left_rows i []) with (@nil sample). change (right_rows i []) with (@nil sample).
  change (0 <? len (@nil sample)) with false. cbv iota.
  rewrite <- H. destruct a; reflexivity.
Qed.

Lemma update_attrs_nil n rows attr :
  Forall (attr_ok rows) attr ->
  update_attrs n [] attr = map (fun ia => (fst ia, Some (snd ia))) attr.
Proof.
  induction 1 as [|[i a] attr Hok _ IH]; [reflexivity|].
  unfold update_attrs in *. cbn [map fst snd]. rewrite IH. f_equal.
  destruct Hok as (_ & _ & _ & _ & _ & _ & Hg). cbn [fst snd] in Hg.
  rewrite (update_attr_nil n i a Hg). reflexivity.
Qed.

Lemma valid_attrs_all (attr : list (nat * AttrDict)) :
  valid_attrs (map (fun ia => (fst ia, Some (snd ia))) attr) = attr.
Proof.
  induction attr as [|[i a] attr IH]; [reflexivity|].
  cbn [map fst snd]. rewrite valid_attrs_cons, IH. reflexivity.
Qed.

Lemma update_node_dict_nil nd :
  gini_data nd = gini_data_spec (count nd) (pos_count nd) ->
  update_node_dict nd [] = nd.
Proof.
  intros Hg. unfold update_node_dict. cbn [len length sum_y foldr].
  change (Z.of_nat 0) with 0. rewrite !Z.sub_0_r.
  rewrite gini_data_of_neg_swapped, <- Hg. destruct nd; reflexivity.
Qed.

Lemma _remove_elements_nil rows :
  ascending rows -> _remove_elements (keys_of rows) [] = keys_of rows.
Proof.
  intros Ha. change [] with (keys_of []).
  rewrite <- keys_of_remove_rows by exact Ha. rewrite remove_rows_nil. reflexivity.
Qed.

Section EmptyBatch.

Context {RNG : Type}.
Variable np_exp : Q -> Q.
Variable np_random_seed : option Z -> RNG -> RNG.
Variable np_random_choice : list nat -> list Q -> RNG -> nat * RNG.

(** The exponential is positive, at least [1] on the non-negative numbers
    and at most [1] on the non-positive ones. *)
Hypothesis np_exp_pos : forall q, (0 < np_exp q)%Q.
Hypothesis np_exp_ge_1 : forall q, (0 <= q)%Q -> (1 <= np_exp q)%Q.
Hypothesis np_exp_le_1 : forall q, (q <= 0)%Q -> (np_exp q <= 1)%Q.

Local Abbreviation del := (_delete np_exp np_random_seed np_random_choice).
Local Abbreviation delete_ := (delete np_exp np_random_seed np_random_choice).

(** With no row removed the old and the new distribution are the same and
    the test does not fire. *)
Lemma diverges_nil (self : Params) n rows attr :
  (0 <= epsilon self)%Q ->
  Forall (attr_ok rows) attr ->
  diverges np_exp self attr (update_attrs n [] attr) = false.
Proof.
  intros Heps Hok. rewrite (update_attrs_nil n rows attr Hok). unfold diverges.
  assert (Hw : new_weights np_exp self (map (fun ia => (fst ia, Some (snd ia))) attr)
               = exp_weights np_exp self (old_gini_indexes attr)).
  { unfold new_weights, exp_weights, old_gini_indexes. rewrite !map_map. reflexivity. }
  rewrite Hw. set (W := exp_weights np_exp self (old_gini_indexes attr)).
  destruct (Np.eqb (Np.sum W) 0) eqn:Es; [reflexivity|]. cbn [orb].
  assert (Hs : (0 < Np.sum W)%Q).
  { assert (0 <= Np.sum W)%Q.
    { apply Np_sum_nonneg. eapply Forall_impl; [apply exp_weights_pos, np_exp_pos|].
      intros; apply Qlt_le_weak; assumption. }
    apply not_true_iff_false in Es. rewrite Np_eqb_eq in Es.
    destruct (Qlt_le_dec 0 (Np.sum W)) as [|Hle]; [assumption|].
    exfalso. apply Es. apply Qle_antisym; assumption. }
  unfold normalize. rewrite combine_map_same, map_map. cbn [fst snd].
  assert (Hone : forall r,
             In r (map (fun x => Np.div (Np.div x (Np.sum W)) (Np.div x (Np.sum W))) W) ->
             (r == 1)%Q).
  { intros r Hr. apply in_map_iff in Hr as (x & <- & Hx).
    assert (Hxpos : (0 < x)%Q).
    { pose proof (exp_weights_pos np_exp np_exp_pos self (old_gini_indexes attr)) as Hall.
      rewrite List.Forall_forall in Hall. apply Hall, Hx. }
    rewrite !Np_div_correct. unfold Qdiv at 1.
    apply Qmult_inv_r. intros E.
    assert (0 < x / Np.sum W)%Q.
    { unfold Qdiv. apply Qmult_lt_0_compat; [exact Hxpos|].
      apply Qinv_lt_0_compat, Hs. }
    rewrite E in H. exact (Qlt_irrefl _ H). }
  apply orb_false_iff. split.
  - destruct (existsb _ _) eqn:E; [|reflexivity].
    apply List.existsb_exists in E as (r & Hr & HP).
    apply Np_ltb_lt in HP. rewrite (Hone r Hr) in HP.
    pose proof (np_exp_ge_1 (epsilon self) Heps). lra.
  - destruct (existsb _ _) eqn:E; [|reflexivity].
    apply List.existsb_exists in E as (r & Hr & HP).
    apply Np_ltb_lt in HP. rewrite (Hone r Hr) in HP.
    assert (Hneg : (Np.neg (epsilon self) <= 0)%Q) by (rewrite Np_neg_correct; lra).
    pose proof (np_exp_le_1 _ Hneg). lra.
Qed.

(** C4, amended.  On a tree that satisfies the invariant, with [epsilon]
    not negative, [delete] of the empty batch leaves the tree and the store
    as they are; the trace it returns is empty when the root is a decision
    node and is [["1a"]] when the root is a leaf. *)
Theorem C4_empty_batch (self : Tree) (w : World) :
  TreeInv self ->
  (0 <= epsilon (params self))%Q ->
  delete_ self [] w =
  match root_ self with
  | Decision _ _ _ _ _ => (inr [], with_trace self [], w)
  | Leaf _ _ _ _ => (inr ["1a"], with_trace self ["1a"], w)
  end.
Proof.
  intros (rows & Ha & Hst & Hdom & HInv) Heps.
  unfold delete, batch_of. cbn [_get_numpy_data].
  destruct (root_ self) as [v nd lv idx|f nd attr l r] eqn:Eroot.
  - destruct HInv as (-> & Hc & Hp & -> & Hlv).
    cbn [_delete del_keys]. unfold _update_leaf_node.
    cbn [len length sum_y foldr keys_of map]. change (Z.of_nat 0) with 0.
    rewrite !Z.sub_0_r, <- Hlv, (_remove_elements_nil rows Ha).
    unfold with_trace. rewrite Eroot. destruct nd; reflexivity.
  - destruct HInv as (Hc & Hp & Hg & Hm & [chosen Hget] & Hattr & HIl & HIr).
    cbn [_delete]. rewrite (update_node_dict_nil nd Hg), Hm, andb_false_r, Hget.
    pose proof (attr_get_In _ _ _ Hget) as Hin.
    rewrite List.Forall_forall in Hattr.
    destruct (Hattr _ Hin) as (_ & _ & _ & _ & Hl1 & Hr1 & _). cbn [fst snd] in Hl1, Hr1.
    cbn [left_rows right_rows List.filter len length]. change (Z.of_nat 0) with 0.
    rewrite !Z.sub_0_r.
    assert ((b_count (a_left chosen) <=? 0) = false) as -> by (apply Z.leb_gt; lia).
    assert ((b_count (a_right chosen) <=? 0) = false) as -> by (apply Z.leb_gt; lia).
    cbn [orb].
    rewrite <- List.Forall_forall in Hattr.
    rewrite (diverges_nil (params self) (count nd) rows attr Heps Hattr).
    rewrite (update_attrs_nil (count nd) rows attr Hattr), valid_attrs_all.
    cbn [Z.ltb Z.compare del_keys]. unfold with_trace. rewrite Eroot. reflexivity.
Qed.

End EmptyBatch.

(** ** A build reads the rows only through their data *)

Lemma data_of_length r1 r2 : data_of r1 = data_of r2 -> length r1 = length r2.
Proof.
  intros H. apply (f_equal (@length _)) in H. unfold data_of in H.
  rewrite !length_map in H. exact H.
Qed.

Lemma data_of_len r1 r2 : data_of r1 = data_of r2 -> len r1 = len r2.
Proof. intros H. unfold len. rewrite (data_of_length _ _ H). reflexivity. Qed.

Lemma sum_y_data rows : sum_y rows = foldr (fun d acc => snd d + acc) 0 (data_of rows).
Proof. induction rows as [|s rows IH]; simpl; [|rewrite IH]; reflexivity. Qed.

Lemma data_of_sum_y r1 r2 : data_of r1 = data_of r2 -> sum_y r1 = sum_y r2.
Proof. intros H. rewrite !sum_y_data, H. reflexivity. Qed.

Lemma data_of_filter (P : list Z -> bool) rows :
  data_of (List.filter (fun s => P (s_x s)) rows)
  = List.filter (fun d => P (fst d)) (data_of rows).
Proof.
  unfold data_of. rewrite filter_map_comm. reflexivity.
Qed.

Lemma data_of_left_rows i r1 r2 :
  data_of r1 = data_of r2 -> data_of (left_rows i r1) = data_of (left_rows i r2).
Proof.
  intros H. unfold left_rows, goes_left.
  rewrite !(data_of_filter (fun x => Z.eqb (nth i x 0) 1)), H. reflexivity.
Qed.

Lemma data_of_right_rows i r1 r2 :
  data_of r1 = data_of r2 -> data_of (right_rows i r1) = data_of (right_rows i r2).
Proof.
  intros H. unfold right_rows, goes_left.
  rewrite !(data_of_filter (fun x => negb (Z.eqb (nth i x 0) 1))), H. reflexivity.
Qed.

Lemma data_of_split_attr r1 r2 i :
  data_of r1 = data_of r2 -> split_attr (len r1) r1 i = split_attr (len r2) r2 i.
Proof.
  intros H. unfold split_attr.
  rewrite (data_of_len _ _ H).
  rewrite (data_of_len _ _ (data_of_left_rows i _ _ H)).
  rewrite (data_of_len _ _ (data_of_right_rows i _ _ H)).
  rewrite (data_of_sum_y _ _ (data_of_left_rows i _ _ H)).
  rewrite (data_of_sum_y _ _ (data_of_right_rows i _ _ H)).
  reflexivity.
Qed.

Lemma data_of_build_attrs F r1 r2 :
  data_of r1 = data_of r2 -> build_attrs F (len r1) r1 = build_attrs F (len r2) r2.
Proof.
  intros H. unfold build_attrs. apply list_omap_ext.
  apply Forall2_same_length_lookup. split; [reflexivity|].
  intros j i i' Hi Hi'. rewrite Hi in Hi'. injection Hi' as <-.
  rewrite (data_of_split_attr r1 r2 i H). reflexivity.
Qed.

Lemma _predict_value_erase x t : _predict_value x (erase_indices t) = _predict_value x t.
Proof.
  induction t as [v nd lv idx|f nd attr l IHl r IHr]; cbn [erase_indices _predict_value].
  - reflexivity.
  - rewrite IHl, IHr. reflexivity.
Qed.

Section Relabel.

Context {RNG : Type}.
Variable np_exp : Q -> Q.
Variable np_random_seed : option Z -> RNG -> RNG.
Variable np_random_choice : list nat -> list Q -> RNG -> nat * RNG.

Local Abbreviation build_f := (build_fuel np_exp np_random_seed np_random_choice).

(** Two builds from rows with the same data, in the same world, end alike:
    with the same exception, or with trees that differ at most in the keys
    at their leaves; and they leave the same world. *)
Lemma build_fuel_data fuel (self : Params) F :
  forall r1 r2 d (w : World),
    data_of r1 = data_of r2 ->
    match build_f fuel self F r1 d w, build_f fuel self F r2 d w with
    | (inr t1, w1), (inr t2, w2) => erase_indices t1 = erase_indices t2 /\ w1 = w2
    | (inl e1, w1), (inl e2, w2) => e1 = e2 /\ w1 = w2
    | _, _ => False
    end.
Proof.
  induction fuel as [|fuel IH]; intros r1 r2 d w H; cbn [build_fuel].
  - unfold raise. auto.
  - rewrite (data_of_build_attrs F _ _ H), (data_of_len _ _ H), (data_of_sum_y _ _ H).
    cbn [count pos_count].
    destruct (0 <? len r2); [|unfold raise; auto].
    destruct (_ && _); [unfold raise; auto|].
    destruct (_ || _); [unfold ret; cbn [erase_indices]; auto|].
    unfold bind, seed.
    destruct (choice _ _ _ _) as [[e|c] w1]; [auto|].
    pose proof (IH (left_rows c r1) (left_rows c r2) (S d) w1 (data_of_left_rows c _ _ H)) as IHl.
    destruct (build_f fuel self F (left_rows c r1) (S d) w1) as [[e1|l1] wl1],
             (build_f fuel self F (left_rows c r2) (S d) w1) as [[e2|l2] wl2];
      try contradiction; destruct IHl as [El <-]; [subst; auto|].
    pose proof (IH (right_rows c r1) (right_rows c r2) (S d) wl1 (data_of_right_rows c _ _ H)) as IHr.
    destruct (build_f fuel self F (right_rows c r1) (S d) wl1) as [[e1|rt1] wr1],
             (build_f fuel self F (right_rows c r2) (S d) wl1) as [[e2|rt2] wr2];
      try contradiction; destruct IHr as [Er <-]; [subst; auto|].
    unfold ret. cbn [erase_indices]. rewrite El, Er. auto.
Qed.

End Relabel.

(** ** The rows of the reduced dataset *)

Lemma rows_from_nil_r i X : rows_from i X [] = [].
Proof. destruct X; reflexivity. Qed.

Lemma data_of_minus D X : forall y i j,
  data_of (rows_from j (minus_from i D X) (minus_from i D y))
  = data_of (List.filter (fun s => negb (mem (s_key s) D)) (rows_from i X y)).
Proof.
  induction X as [|xi X IH]; intros y i j; [reflexivity|].
  destruct y as [|yi y].
  - cbn [minus_from]. rewrite rows_from_nil_r. reflexivity.
  - cbn [minus_from rows_from List.filter s_key].
    destruct (mem i D); cbn [negb].
    + apply IH.
    + cbn [rows_from data_of map s_x s_y]. f_equal. apply IH.
Qed.

Lemma minus_from_In {A} D (l : list A) : forall i a, In a (minus_from i D l) -> In a l.
Proof.
  induction l as [|b l IH]; intros i a; cbn [minus_from]; [tauto|].
  destruct (mem i D); simpl; intros H.
  - right. eapply IH, H.
  - destruct H as [->|H]; [left; reflexivity|right; eapply IH, H].
Qed.

(** A reduced array that is not empty has the width of the array. *)
Lemma shape1_minus D X :
  Forall (fun r => length r = shape1 X) X ->
  minus D X <> [] ->
  shape1 (minus D X) = shape1 X.
Proof.
  intros Hrect Hne. unfold minus in *.
  destruct (minus_from 0 D X) as [|r rest] eqn:E; [contradiction|].
  cbn [shape1]. rewrite Forall_forall in Hrect. apply Hrect.
  apply list_elem_of_In. apply (minus_from_In D X 0). rewrite E. left; reflexivity.
Qed.

Lemma length_minus_from {A B} D (l : list A) : forall (l' : list B) i,
  (length l <= length l')%nat ->
  (length (minus_from i D l) <= length (minus_from i D l'))%nat.
Proof.
  induction l as [|a l IH]; intros l' i H; cbn [minus_from]; [simpl; lia|].
  destruct l' as [|b l']; [simpl in H; lia|]. cbn [minus_from].
  simpl in H. specialize (IH l' (i + 1) ltac:(lia)).
  destruct (mem i D); simpl; lia.
Qed.

(** ** The tags of the trace *)

Lemma deep_tag_S d tag : deep_tag (S d) tag -> deep_tag d tag.
Proof.
  intros [H|[H|(k & Hk & H)]]; [left; exact H|right; left; exact H|].
  right; right. exists k. split; [lia|exact H].
Qed.

Lemma deep_tag_rebuild d (upd : list (nat * option AttrDict)) (dtype : string) :
  dtype = "2a" \/ dtype = (if Nat.ltb 0 (invalid_count upd) then "2b" else "2c") ->
  deep_tag d (dtype +:+ "_" +:+ pretty d).
Proof.
  intros H. right; right. exists d. split; [lia|].
  destruct H as [->| ->]; [left; reflexivity|].
  destruct (Nat.ltb 0 (invalid_count upd)); [right; left|right; right]; reflexivity.
Qed.

(** A rebuild tag of depth [1] or deeper is not a tag of the root. *)
Lemma deep_tag_not_root tag :
  deep_tag 1 tag -> tag <> "2a_0" /\ tag <> "2b_0" /\ tag <> "2c_0".
Proof.
  assert (Hp : forall k, (1 <= k)%nat -> pretty k <> "0").
  { intros k Hk E. change "0" with (pretty 0%nat) in E.
    apply (inj pretty) in E. lia. }
  intros [->|[->|(k & Hk & [->|[->| ->]])]];
    repeat split; try discriminate; cbn [String.append]; intros E;
    injection E as E; exact (Hp k Hk E).
Qed.

Section Trace.

Context {RNG : Type}.
Variable np_exp : Q -> Q.
Variable np_random_seed : option Z -> RNG -> RNG.
Variable np_random_choice : list nat -> list Q -> RNG -> nat * RNG.

Local Abbreviation del := (_delete np_exp np_random_seed np_random_choice).
Local Abbreviation rebuild_at := (rebuild np_exp np_random_seed np_random_choice).

Lemma rebuild_trace (self : Tree) t keys (upd : list (nat * option AttrDict)) dtype d tr (w : World) :
  dtype = "2a" \/ dtype = (if Nat.ltb 0 (invalid_count upd) then "2b" else "2c") ->
  exists ext,
    trace_of (fst (rebuild_at self t keys dtype d tr w)) = tr ++ ext /\
    Forall (deep_tag d) ext.
Proof.
  intros Hd.
  pose proof (rebuild_outcome np_exp np_random_seed np_random_choice self t keys dtype d tr w) as H.
  pose proof (deep_tag_rebuild d upd dtype Hd) as Htag.
  destruct (fst (rebuild_at self t keys dtype d tr w)) as [t' tr'|e t' tr']; cbn [trace_of].
  - subst tr'. eexists. split; [reflexivity|]. constructor; [exact Htag|constructor].
  - destruct H as [_ [->| ->]].
    + exists []. split; [symmetry; apply app_nil_r|constructor].
    + eexists. split; [reflexivity|]. constructor; [exact Htag|constructor].
Qed.

(** A call of [_delete] at depth [d] extends the trace by tags of depth
    [d] or deeper. *)
Lemma _delete_trace (self : Tree) t :
  forall batch d tr (w : World),
  exists ext,
    trace_of (fst (del self batch t d tr w)) = tr ++ ext /\
    Forall (deep_tag d) ext.
Proof.
  induction t as [v nd lv idx|f nd attr l IHl r IHr]; intros batch d tr w; cbn [_delete].
  - exists ["1a"]. split; [reflexivity|]. constructor; [left; reflexivity|constructor].
  - set (nd' := update_node_dict nd batch).
    destruct (Nat.eqb d 0 && is_mono nd').
    { exists []. split; [symmetry; apply app_nil_r|constructor]. }
    destruct (is_mono nd').
    { exists ["1b"]. split; [reflexivity|].
      constructor; [right; left; reflexivity|constructor]. }
    destruct (attr_get f attr) as [chosen|].
    2:{ exists []. split; [symmetry; apply app_nil_r|constructor]. }
    destruct (_ || _).
    { apply (rebuild_trace self _ _ []). left; reflexivity. }
    set (upd := update_attrs (count nd') batch attr).
    destruct (diverges _ _ _ _).
    { apply (rebuild_trace self _ _ upd). right; reflexivity. }
    assert (Hl : exists ext,
               trace_of (fst (if 0 <? len (left_rows f batch)
                              then del self (left_rows f batch) l (S d) tr w
                              else (Done l tr, w))) = tr ++ ext /\
               Forall (deep_tag d) ext).
    { destruct (0 <? len (left_rows f batch)).
      - destruct (IHl (left_rows f batch) (S d) tr w) as (ext & E & Hext).
        exists ext. split; [exact E|].
        eapply Forall_impl; [exact Hext|]. intros; apply deep_tag_S; assumption.
      - exists []. split; [symmetry; apply app_nil_r|constructor]. }
    destruct Hl as (ext1 & E1 & Hext1).
    destruct (if 0 <? len (left_rows f batch) then _ else _) as [[l' tr1|e l' tr1] w1];
      cbn [fst trace_of] in E1.
    2:{ exists ext1. split; [exact E1|exact Hext1]. }
    assert (Hr : exists ext,
               trace_of (fst (if 0 <? len (right_rows f batch)
                              then del self (right_rows f batch) r (S d) tr1 w1
                              else (Done r tr1, w1))) = tr1 ++ ext /\
               Forall (deep_tag d) ext).
    { destruct (0 <? len (right_rows f batch)).
      - destruct (IHr (right_rows f batch) (S d) tr1 w1) as (ext & E & Hext).
        exists ext. split; [exact E|].
        eapply Forall_impl; [exact Hext|]. intros; apply deep_tag_S; assumption.
      - exists []. split; [symmetry; apply app_nil_r|constructor]. }
    destruct Hr as (ext2 & E2 & Hext2).
    destruct (if 0 <? len (right_rows f batch) then _ else _) as [[r' tr2|e r' tr2] w2];
      cbn [fst trace_of] in E2 |- *; subst tr1 tr2;
      exists (ext1 ++ ext2); (split; [symmetry; apply app_assoc|apply Forall_app; auto]).
Qed.

End Trace.

(** ** Deletion that rebuilds the root, against a fit of the reduced data *)

(** The rows of a batch read from the store are rows of the tree. *)
Lemma batch_incl Xd yd rows batch :
  Forall (store_has Xd yd) rows ->
  (forall k, is_Some (Xd !! k) -> In k (keys_of rows)) ->
  Forall (store_has Xd yd) batch ->
  incl batch rows.
Proof.
  intros Hst Hdom Hbst b Hb. rewrite Forall_forall in Hbst.
  destruct (Hbst b) as [HbX Hby]; [apply list_elem_of_In, Hb|].
  assert (Hk : In (s_key b) (keys_of rows)) by (apply Hdom; eauto).
  apply In_keys_of in Hk as (s & Hs & E).
  rewrite Forall_forall in Hst.
  destruct (Hst s) as [HsX Hsy]; [apply list_elem_of_In, Hs|].
  rewrite E in HsX, Hsy. rewrite HbX in HsX. rewrite Hby in Hsy.
  injection HsX as HsX. injection Hsy as Hsy.
  destruct s, b; simpl in *; subst. exact Hs.
Qed.

(** On a tree that satisfies the invariant, for a batch of distinct stored
    keys, the counts that [_delete] writes into the root are those of the
    rows that stay: the test of the root for one class is a test on the
    rows remaining at the root. *)
Lemma update_node_dict_rows (self : Tree) D batch rows :
  ascending rows ->
  Forall (store_has (X_train_ self) (y_train_ self)) rows ->
  (forall k, is_Some (X_train_ self !! k) -> In k (keys_of rows)) ->
  Inv rows (root_ self) ->
  batch_of self D = inr batch ->
  List.NoDup D ->
  count (update_node_dict (node_dict_of (root_ self)) batch) = len (remove_rows batch rows) /\
  pos_count (update_node_dict (node_dict_of (root_ self)) batch)
  = sum_y (remove_rows batch rows).
Proof.
  intros Ha Hst Hdom HInv Hb Hnd.
  destruct (batch_rows _ _ _ _ Hb) as [Hkeys Hbst].
  pose proof (batch_incl _ _ _ _ Hst Hdom Hbst) as Hincl.
  rewrite <- Hkeys in Hnd.
  rewrite len_remove_rows, sum_y_remove_rows by assumption.
  unfold update_node_dict. cbn [count pos_count].
  destruct (root_ self) as [v nd lv idx|f nd attr l r]; cbn [node_dict_of].
  - destruct HInv as (_ & -> & -> & _). split; reflexivity.
  - destruct HInv as (-> & -> & _). split; reflexivity.
Qed.

Section RootRebuild.

Context {RNG : Type}.
Variable np_exp : Q -> Q.
Variable np_random_seed : option Z -> RNG -> RNG.
Variable np_random_choice : list nat -> list Q -> RNG -> nat * RNG.

Hypothesis np_random_choice_in :
  forall a p g, a <> [] -> In (fst (np_random_choice a p g)) a.
Hypothesis np_random_seed_some :
  forall s g g', np_random_seed (Some s) g = np_random_seed (Some s) g'.

Local Abbreviation del := (_delete np_exp np_random_seed np_random_choice).
Local Abbreviation build_f := (build_fuel np_exp np_random_seed np_random_choice).
Local Abbreviation build := (_build_tree np_exp np_random_seed np_random_choice).
Local Abbreviation delete_ := (delete np_exp np_random_seed np_random_choice).
Local Abbreviation fit_ := (fit np_exp np_random_seed np_random_choice).

(** When the trace says so, the node returned at the root is the build of
    the rows that stay. *)
Lemma root_rebuilt_build (self : Tree) rows batch (w w' : World) t' tr :
  ascending rows ->
  Forall (store_has (X_train_ self) (y_train_ self)) rows ->
  Inv rows (root_ self) ->
  del self batch (root_ self) 0 [] w = (Done t' tr, w') ->
  root_rebuilt tr ->
  build (params self) (n_features_ self) (remove_rows batch rows) 0 w = (inr t', w').
Proof.
  intros Ha Hst HInv Hdel Hreb.
  pose proof (get_indices_perm _ _ HInv) as Hperm.
  destruct (root_ self) as [v nd lv idx|f nd attr l r]; cbn [_delete] in Hdel.
  - injection Hdel as _ <- _. destruct Hreb as [H|[H|H]]; discriminate H.
  - set (nd' := update_node_dict nd batch) in *.
    cbn [Nat.eqb andb] in Hdel.
    destruct (is_mono nd'); [discriminate|].
    destruct (attr_get f attr) as [chosen|]; [|discriminate].
    destruct (_ || _).
    { eapply (rebuild_rows _ _ _ self (Decision f nd' _ l r) batch rows);
        [exact Ha|exact Hst|exact Hperm|exact Hdel]. }
    destruct (diverges _ _ _ _).
    { eapply (rebuild_rows _ _ _ self (Decision f nd' _ l r) batch rows);
        [exact Ha|exact Hst|exact Hperm|exact Hdel]. }
    exfalso.
    assert (Hl : exists ext,
               trace_of (fst (if 0 <? len (left_rows f batch)
                              then del self (left_rows f batch) l 1 [] w
                              else (Done l [], w))) = [] ++ ext /\
               Forall (deep_tag 1) ext).
    { destruct (0 <? len (left_rows f batch)); [apply _delete_trace|].
      exists []. split; [reflexivity|constructor]. }
    destruct Hl as (ext1 & E1 & Hext1).
    destruct (if 0 <? len (left_rows f batch) then _ else _) as [[l' tr1|e l' tr1] w1];
      [|discriminate].
    cbn [fst trace_of app] in E1. subst tr1.
    assert (Hr : exists ext,
               trace_of (fst (if 0 <? len (right_rows f batch)
                              then del self (right_rows f batch) r 1 ext1 w1
                              else (Done r ext1, w1))) = ext1 ++ ext /\
               Forall (deep_tag 1) ext).
    { destruct (0 <? len (right_rows f batch)); [apply _delete_trace|].
      exists []. split; [symmetry; apply app_nil_r|constructor]. }
    destruct Hr as (ext2 & E2 & Hext2).
    destruct (if 0 <? len (right_rows f batch) then _ else _) as [[r' tr2|e r' tr2] w2];
      [|discriminate].
    cbn [fst trace_of] in E2. injection Hdel as _ <- _. subst tr2.
    assert (Hall : Forall (deep_tag 1) (ext1 ++ ext2)) by (apply Forall_app; auto).
    destruct Hreb as [H|[H|H]]; rewrite H in Hall; inversion Hall as [|? ? Htag _]; subst;
      destruct (deep_tag_not_root _ Htag) as (? & ? & ?); congruence.
Qed.

(** C1, amended.  With a given [random_state] and a rectangular [X]: when
    [fit(X, y)] followed by [delete(D)] returns and its trace says that the
    root was rebuilt ([2a_0], [2b_0] or [2c_0]), then [fit] on the reduced
    dataset returns too, and the two trees give the same [predict_proba] on
    every input. *)
Theorem C1_root_rebuild_agrees (self : Params) X y D s (w0 w1 w2 w3 : World) t t' tr :
  random_state self = Some s ->
  Forall (fun r => length r = shape1 X) X ->
  fit_ self X y w0 = (inr t, w1) ->
  delete_ t D w1 = (inr tr, t', w2) ->
  root_rebuilt tr ->
  exists t2 w4,
    fit_ self (minus D X) (minus D y) w3 = (inr t2, w4) /\
    forall Xq, predict_proba t' Xq = predict_proba t2 Xq.
Proof.
  intros Hs Hrect Hfit Hdel Hreb.
  unfold fit in Hfit. destruct (fit_store_rows X y) as (Ha & Hst & Hdom).
  destruct (Nat.ltb_spec (length y) (length X)) as [|Hlen]; [discriminate Hfit|].
  destruct (_numpy_to_dict 0 X y) as [Xd yd] eqn:Edict. cbn [fst snd] in *.
  unfold bind in Hfit.
  destruct (build self (shape1 X) (rows_from 0 X y) 0 w0) as [[e|root] w1'] eqn:Eb;
    [discriminate|].
  unfold ret in Hfit. injection Hfit as <- <-.
  pose proof (_build_tree_Inv _ _ _ np_random_choice_in _ _ _ _ _ _ _ Eb) as HInv.
  unfold delete, batch_of in Hdel. cbn [X_train_ y_train_ root_ params n_features_] in Hdel.
  destruct (_get_numpy_data Xd yd D) as [e|batch] eqn:Ebatch; [discriminate|].
  destruct (batch_rows _ _ _ _ Ebatch) as [Hkeys Hbst].
  destruct (del _ batch root 0 [] w1') as [[node trace|e t1 trace] wd] eqn:Ed; [|discriminate].
  destruct (del_keys Xd yd D) as [[e|] [Xd' yd']] eqn:Ek; [discriminate|].
  injection Hdel as <- <- <-.
  set (rows := rows_from 0 X y) in *.
  match type of Ed with
  | _delete _ _ _ ?T _ _ _ _ _ = _ =>
      pose proof (root_rebuilt_build T rows batch w1' wd node trace Ha Hst HInv Ed Hreb)
        as Hbuild
  end.
  cbn [params n_features_] in Hbuild.
  assert (Hdata : data_of (rows_from 0 (minus D X) (minus D y))
                  = data_of (remove_rows batch rows)).
  { unfold minus, remove_rows. rewrite Hkeys. apply data_of_minus. }
  assert (Hne : minus D X <> []).
  { intros E. rewrite E in Hdata. cbn in Hdata.
    destruct (remove_rows batch rows); [|discriminate Hdata].
    unfold _build_tree in Hbuild. cbn in Hbuild. discriminate Hbuild. }
  unfold fit. rewrite (shape1_minus D X Hrect Hne).
  assert ((length (minus D y) <? length (minus D X))%nat = false) as ->.
  { apply Nat.ltb_ge. apply length_minus_from, Hlen. }
  destruct (_numpy_to_dict 0 (minus D X) (minus D y)) as [Xd2 yd2].
  unfold bind, _build_tree.
  pose proof (build_fuel_data np_exp np_random_seed np_random_choice
                (S (length (rows_from 0 (minus D X) (minus D y)))) self (shape1 X)
                (rows_from 0 (minus D X) (minus D y)) (remove_rows batch rows) 0 w1' Hdata)
    as Hsim.
  unfold _build_tree in Hbuild. rewrite <- (data_of_length _ _ Hdata) in Hbuild.
  rewrite Hbuild in Hsim.
  pose proof (build_fuel_seeded np_exp np_random_seed np_random_choice np_random_seed_some
                (S (length (rows_from 0 (minus D X) (minus D y)))) self (shape1 X) s Hs
                (rows_from 0 (minus D X) (minus D y)) 0 w3 w1') as Hseed.
  destruct (build_f _ self (shape1 X) (rows_from 0 (minus D X) (minus D y)) 0 w1')
    as [[e|t2] w5]; [contradiction|].
  destruct Hsim as [Herase _].
  destruct (build_f _ self (shape1 X) (rows_from 0 (minus D X) (minus D y)) 0 w3)
    as [[e|t2'] w4]; cbn [fst] in Hseed; [discriminate|].
  injection Hseed as ->.
  eexists _, w4. split; [reflexivity|].
  intros Xq. unfold predict_proba. cbn [root_].
  apply map_ext. intros x.
  rewrite <- (_predict_value_erase x node), <- (_predict_value_erase x t2), Herase.
  reflexivity.
Qed.

End RootRebuild.

(** ** The generator used for evaluation meets the hypotheses *)

Lemma exp_q_pos q : (0 < exp_q q)%Q.
Proof.
  unfold exp_q. destruct (Qle_bool 0 q) eqn:E; rewrite Qred_correct.
  - apply Qle_bool_iff in E. lra.
  - assert (Hq : (q < 0)%Q).
    { apply Qnot_le_lt. intros H. apply Qle_bool_iff in H. congruence. }
    unfold Qdiv. rewrite Qmult_1_l. apply Qinv_lt_0_compat. lra.
Qed.

Lemma exp_q_ge_1 q : (0 <= q)%Q -> (1 <= exp_q q)%Q.
Proof.
  intros H. unfold exp_q. apply Qle_bool_iff in H. rewrite H, Qred_correct.
  apply Qle_bool_iff in H. lra.
Qed.

Lemma exp_q_le_1 q : (q <= 0)%Q -> (exp_q q <= 1)%Q.
Proof.
  intros H. unfold exp_q. destruct (Qle_bool 0 q) eqn:E; rewrite Qred_correct.
  - apply Qle_bool_iff in E. lra.
  - apply Qle_shift_div_r; lra.
Qed.

Lemma choose_first_in (a : list nat) (p : list Q) (g : unit) :
  a <> [] -> In (fst (choose_first a p g)) a.
Proof. destruct a as [|i a]; [congruence|]. intros _. left; reflexivity. Qed.

Lemma seed_unit_some (s : Z) (g g' : unit) : seed_unit (Some s) g = seed_unit (Some s) g'.
Proof. destruct g, g'; reflexivity. Qed.

(** ** Evaluations *)

(** C1, counterexample.  One attribute, [min_samples_split = 4], rows
    [[1],[1],[0],[0]] with labels [1,1,0,0]; every draw has one candidate.
    [delete([0])] updates the tree in place and keeps the split, while
    [fit] on the three rows that stay makes a single leaf: on the sample
    [[1]] the two trees predict [(0, 1)] and [(2/3, 1/3)]. *)
Lemma C1_counterexample :
  match fit1 (with_split params0 4) X4 y_split w0 with
  | (inr t, w1) =>
      match delete1 t [0] w1 with
      | (inr _, t', _) =>
          match fit1 (with_split params0 4) (minus [0] X4) (minus [0] y_split) w0 with
          | (inr t2, _) =>
              predict_proba t' [[1]] = [(0, 1)%Q] /\
              predict_proba t2 [[1]] = [(2 # 3, 1 # 3)] /\
              predict_proba t' [[1]] <> predict_proba t2 [[1]]
          | _ => False
          end
      | _ => False
      end
  | _ => False
  end.
Proof. vm_compute. repeat split; discriminate. Qed.

(** C2, counterexample.  Rows [[1],[1],[0],[0]] with labels [1,1,0,0];
    [delete([0, 1])] leaves one class and raises, and the root then holds
    the count [2] and the positive count [0] in place of [4] and [2]. *)
Lemma C2_counterexample :
  match fit1 params0 X4 y_split w0 with
  | (inr t, w1) =>
      match delete1 t [0; 1] w1 with
      | (inl (ValueError _), t', _) =>
          X_train_ t' = X_train_ t /\
          count (node_dict_of (root_ t)) = 4 /\
          count (node_dict_of (root_ t')) = 2 /\
          pos_count (node_dict_of (root_ t')) = 0 /\
          root_ t' <> root_ t
      | _ => False
      end
  | _ => False
  end.
Proof. vm_compute. repeat split; discriminate. Qed.

(** C3, evaluation at the failing input.  Rows [[1],[1],[0],[0]] with
    labels [1,0,1,0]; after [delete([0])] the root caches the Gini index
    [0.25] for attribute [0] (the weight [2/4] of the right branch is the
    one of before the removal), while the index computed from scratch over
    the three rows at the root is [0.33333333]. *)
Theorem C3_stale_weight :
  match fit1 params0 X4 y_mixed w0 with
  | (inr t, w1) =>
      match delete1 t [0] w1 with
      | (inr tr, t', _) =>
          match root_ t', rows_at t' (root_ t') with
          | Decision _ _ attr _ _, inr rows =>
              tr = ["1a"] /\
              keys_of rows = [1; 2; 3] /\
              option_map a_gini_index (attr_get 0 attr) = Some (1 # 4) /\
              option_map (fun a => b_weight (a_right a)) (attr_get 0 attr) = Some (1 # 2) /\
              gini_index_from_scratch rows 0 = Some (33333333 # 100000000)
          | _, _ => False
          end
      | _ => False
      end
  | _ => False
  end.
Proof. vm_compute. repeat split; reflexivity. Qed.

(** C4, counterexample.  With [max_depth = 0] the root is a leaf, and
    [delete([])] returns the trace [["1a"]]. *)
Lemma C4_counterexample :
  match fit1 (with_depth params0 0) X4 y_mixed w0 with
  | (inr t, w1) =>
      match root_ t, delete1 t [] w1 with
      | Leaf _ _ _ _, (inr tr, t', _) => tr = ["1a"] /\ tr <> [] /\ root_ t' = root_ t
      | _, _ => False
      end
  | _ => False
  end.
Proof. vm_compute. repeat split; discriminate. Qed.

(** C5, counterexample.  On the exclusive or of two attributes the tree
    has three decision nodes whichever attribute the root draws, and [fit]
    seeds the generator three times. *)
Lemma C5_counterexample :
  match fit1 params0 X_xor y_xor w0, fit2 params0 X_xor y_xor w0 with
  | (inr t, w1), (inr t2, w2) =>
      seed_calls w1 = 3%nat /\ seed_calls w2 = 3%nat /\ seed_calls w1 <> 1%nat
  | _, _ => False
  end.
Proof. vm_compute. repeat split; discriminate. Qed.

(** With [max_depth = 0] a fit does not seed the generator at all. *)
Example fit_leaf_root_never_seeds :
  seed_calls (snd (fit1 (with_depth params0 0) X4 y_mixed w0)) = 0%nat.
Proof. reflexivity. Qed.

(** C9, counterexample.  Rows [[1],[1],[0],[0]] with labels [1,1,0,0];
    [delete([0, 1])] takes every row of the left branch of the root, and
    the call raises: nothing is rebuilt and no tag is added. *)
Lemma C9_counterexample :
  match fit1 params0 X4 y_split w0 with
  | (inr t, w1) =>
      match root_ t, batch_of t [0; 1] with
      | Decision f _ attr l r, inr batch =>
          match attr_get f attr, delete1 t [0; 1] w1 with
          | Some chosen, (inl e, t', _) =>
              (b_count (a_left chosen) - len (left_rows f batch) <=? 0) = true /\
              e = ValueError "Instances in the root node are all from the same class!" /\
              deletion_types_ t' = [] /\
              get_indices (root_ t') = [0; 1; 2; 3]
          | _, _ => False
          end
      | _, _ => False
      end
  | _ => False
  end.
Proof. vm_compute. repeat split; reflexivity. Qed.

(** ** The theorems at concrete inputs *)

(** [min_samples_split = 3], rows [[1],[0],[0]] with labels [1,1,0]:
    [delete([0])] empties the left branch of the root and rebuilds it. *)
Lemma C1_witness :
  random_state params3 = Some 0 /\
  Forall (fun r => length r = shape1 X3) X3 /\
  fit1 params3 X3 y3 w0 = (inr tree3, world3) /\
  delete1 tree3 [0] world3 = (inr ["2a_0"], deleted (delete1 tree3 [0] world3), world3) /\
  root_rebuilt ["2a_0"] /\
  exists t2 w4,
    fit1 params3 (minus [0] X3) (minus [0] y3) w0 = (inr t2, w4) /\
    forall Xq, predict_proba (deleted (delete1 tree3 [0] world3)) Xq = predict_proba t2 Xq.
Proof.
  assert (H1 : random_state params3 = Some 0) by reflexivity.
  assert (H2 : Forall (fun r => length r = shape1 X3) X3) by (repeat constructor).
  assert (H3 : fit1 params3 X3 y3 w0 = (inr tree3, world3)) by (vm_compute; reflexivity).
  assert (H4 : delete1 tree3 [0] world3
               = (inr ["2a_0"], deleted (delete1 tree3 [0] world3), world3))
    by (vm_compute; reflexivity).
  assert (H5 : root_rebuilt ["2a_0"]) by (left; reflexivity).
  repeat (split; [assumption|]).
  exact (C1_root_rebuild_agrees exp_q seed_unit choose_first choose_first_in seed_unit_some
           params3 X3 y3 [0] 0 w0 world3 world3 w0 tree3 _ ["2a_0"] H1 H2 H3 H4 H5).
Defined.

Lemma C2_witness :
  delete1 tree4 [0; 1] world4 =
  (inl (ValueError "Instances in the root node are all from the same class!"),
   {| params := params0; n_features_ := 1;
      X_train_ := X_train_ tree4; y_train_ := y_train_ tree4;
      root_ := Decision 0 {| count := 2; pos_count := 0; gini_data := 0 |}
                 [(0%nat,
                   {| a_left := branch_of 2 2 4; a_right := branch_of 2 0 4;
                      a_gini_index := 0 |})]
                 (Leaf 1 {| count := 2; pos_count := 2; gini_data := 0 |} 1 [0; 1])
                 (Leaf 0 {| count := 2; pos_count := 0; gini_data := 0 |} 0 [2; 3]);
      deletion_types_ := [] |}, world4).
Proof.
  exact (C2_degenerate_root exp_q seed_unit choose_first tree4 [0; 1]
           [Sample 0 [1] 1; Sample 1 [1] 1] 0%nat
           {| count := 4; pos_count := 2; gini_data := 1 # 2 |}
           [(0%nat, {| a_left := branch_of 2 2 4; a_right := branch_of 2 0 4;
                       a_gini_index := 0 |})]
           (Leaf 1 {| count := 2; pos_count := 2; gini_data := 0 |} 1 [0; 1])
           (Leaf 0 {| count := 2; pos_count := 0; gini_data := 0 |} 0 [2; 3])
           world4 eq_refl eq_refl eq_refl).
Defined.

Lemma C4_witness :
  TreeInv tree4 /\
  (0 <= epsilon (params tree4))%Q /\
  delete1 tree4 [] world4 = (inr [], with_trace tree4 [], world4).
Proof.
  assert (H1 : TreeInv tree4).
  { apply (fit_TreeInv exp_q seed_unit choose_first choose_first_in
             params0 X4 y_split w0 world4).
    vm_compute. reflexivity. }
  assert (H2 : (0 <= epsilon (params tree4))%Q) by (vm_compute; discriminate).
  split; [exact H1|]. split; [exact H2|].
  exact (C4_empty_batch exp_q seed_unit choose_first exp_q_pos exp_q_ge_1 exp_q_le_1
           tree4 world4 H1 H2).
Defined.

Lemma C5_witness :
  random_state params0 = Some 0 /\
  fst (fit1 params0 X_xor y_xor w0)
  = fst (fit1 params0 X_xor y_xor {| gen := tt; seed_calls := 7 |}) /\
  seed_calls (snd (fit1 params0 X_xor y_xor w0))
  = (0 + decision_nodes (root_ (fitted (fit1 params0 X_xor y_xor w0))))%nat.
Proof.
  destruct (C5_seeded_at_every_decision_node exp_q seed_unit choose_first seed_unit_some
              params0 X_xor y_xor) as [Hdet Hseed].
  split; [reflexivity|]. split.
  - apply (Hdet 0). reflexivity.
  - apply (Hseed w0 (snd (fit1 params0 X_xor y_xor w0))
                 (fitted (fit1 params0 X_xor y_xor w0))).
    vm_compute. reflexivity.
Defined.

Lemma C7_witness :
  (TreeInv tree3 /\ no_reuse (root_ tree3)) /\
  (TreeInv (deleted (delete1 tree3 [0] world3)) /\
   no_reuse (root_ (deleted (delete1 tree3 [0] world3)))).
Proof.
  destruct (C7_viable_attributes_and_no_reuse exp_q seed_unit choose_first choose_first_in)
    as [Hfit Hdel].
  assert (H1 : TreeInv tree3 /\ no_reuse (root_ tree3)).
  { apply (Hfit params3 X3 y3 w0 world3). vm_compute. reflexivity. }
  split; [exact H1|].
  apply (Hdel tree3 [0] world3 world3 ["2a_0"]); [exact (proj1 H1)|].
  vm_compute. reflexivity.
Defined.

Lemma C9_witness :
  let t := root_ tree3 in
  let batch := [Sample 0 [1] 1] in
  is_mono (update_node_dict (node_dict_of t) batch) = false /\
  attr_get (feature_of t) (attr_of t)
  = Some {| a_left := branch_of 1 1 3; a_right := branch_of 2 1 3;
            a_gini_index := 33333333 # 100000000 |} /\
  fst (_delete exp_q seed_unit choose_first tree3 batch
         (Decision (feature_of t) (node_dict_of t) (attr_of t) (left_of t) (right_of t))
         0 [] world3)
  = Done (Leaf (1 # 2) {| count := 2; pos_count := 1; gini_data := 1 # 2 |} (1 # 2) [1; 2])
         ["2a_0"].
Proof.
  intros t batch.
  assert (H1 : is_mono (update_node_dict (node_dict_of t) batch) = false) by reflexivity.
  assert (H2 : attr_get (feature_of t) (attr_of t)
               = Some {| a_left := branch_of 1 1 3; a_right := branch_of 2 1 3;
                         a_gini_index := 33333333 # 100000000 |})
    by (vm_compute; reflexivity).
  split; [exact H1|]. split; [exact H2|].
  rewrite (C9_hanging_branch_rebuild exp_q seed_unit choose_first tree3 batch
             (feature_of t) (node_dict_of t) (attr_of t) (left_of t) (right_of t)
             0 [] world3 _ H1 H2 eq_refl).
  vm_compute. reflexivity.
Defined.


(** ** Further evaluations *)

(** On a tree whose root is a leaf, a batch that leaves one class does not
    make [delete] raise: the leaf is updated and the rows are removed. *)
Example leaf_root_is_not_checked :
  match fit1 (with_depth params0 0) X4 y_mixed w0 with
  | (inr t, w1) =>
      match delete1 t [0; 2] w1 with
      | (inr tr, t', _) =>
          tr = ["1a"] /\ node_dict_of (root_ t') = {| count := 2; pos_count := 0; gini_data := 1 # 2 |}
      | _ => False
      end
  | _ => False
  end.
Proof. vm_compute. split; reflexivity. Qed.

(** Below the root a node whose rows become mono-class is turned into a
    leaf under the tag [1b], also when the batch empties a branch of its
    split: on the exclusive or, [delete([0])] takes the only row of the
    left branch of the node at depth [1], and the trace is [["1b"]]. *)
Example hanging_branch_collapses_below_root :
  match fit1 params0 X_xor y_xor w0 with
  | (inr t, w1) =>
      match delete1 t [0] w1 with
      | (inr tr, t', _) =>
          tr = ["1b"] /\
          left_of (root_ t') = Leaf 1 {| count := 1; pos_count := 1; gini_data := 0 |} 1 [1]
      | _ => False
      end
  | _ => False
  end.
Proof. vm_compute. split; reflexivity. Qed.

(** The same with the other draw at the root. *)
Example hanging_branch_collapses_below_root_last :
  match fit2 params0 X_xor y_xor w0 with
  | (inr t, w1) =>
      match delete2 t [0] w1 with
      | (inr tr, _, _) => tr = ["1b"]
      | _ => False
      end
  | _ => False
  end.
Proof. vm_compute. reflexivity. Qed.

(** Two rows that no attribute tells apart, with both labels: the root is a
    decision node with no candidate, and the draw raises. *)
Example fit_without_candidate :
  fst (fit1 params0 [[1]; [1]] [1; 0] w0)
  = inl (ValueError "'a' cannot be empty unless no samples are taken").
Proof. reflexivity. Qed.

(** A constant [y] makes [fit] raise. *)
Example fit_constant_labels :
  fst (fit1 params0 [[1]; [1]] [1; 1] w0)
  = inl (ValueError "root node contains only instances from the same class!").
Proof. reflexivity. Qed.

(** The draw itself separates the two trees.  [epsilon = 2], [gamma = 0.1],
    [max_depth = 1], five rows of two attributes, and draws by inverse
    cumulative distribution at [u = 0.5488135].  At the fit the Gini
    indexes are [0.26666667] and [0.46666667], the probability of the first
    attribute is above [u] (about [0.69] with the exponential, [0.58] with
    [exp_q]) and the root splits on it.  [delete([1])] leaves both cached
    indexes at [0.26666667]; the ratios of the new probabilities [(0.5,
    0.5)] to the old ones lie between [exp(-2)] and [exp(2)], so the split
    is kept and only a leaf is updated.  A fit of the four rows that stay
    finds both indexes at [0.33333333], draws the second attribute, and
    predicts the other class on the sample [[1, 0]]. *)
Example in_place_update_keeps_the_drawn_split :
  match fit_at u5 params5 X5 y5 w0 with
  | (inr t, w1) =>
      match delete_at u5 t [1] w1 with
      | (inr tr, t', _) =>
          match fit_at u5 params5 (minus [1] X5) (minus [1] y5) w0 with
          | (inr t2, _) =>
              feature_of (root_ t) = 0%nat /\
              tr = ["1a"] /\
              feature_of (root_ t') = 0%nat /\
              feature_of (root_ t2) = 1%nat /\
              predict_proba t' [[1; 0]] = [(0, 1)%Q] /\
              predict_proba t2 [[1; 0]] = [(1, 0)%Q]
          | _ => False
          end
      | _ => False
      end
  | _ => False
  end.
Proof. vm_compute. repeat split; reflexivity. Qed.

(** * Further properties of the module *)

(** ** [_remove_elements] *)

Lemma sorted_lt_filter (P : Z -> bool) (l : list Z) :
  StronglySorted Z.lt l -> StronglySorted Z.lt (List.filter P l).
Proof.
  induction 1 as [|a l Hs IH Hall]; simpl; [constructor|].
  destruct (P a); [|exact IH].
  constructor; [exact IH|].
  apply List.Forall_forall. intros x Hx. apply filter_In in Hx as [Hx _].
  rewrite List.Forall_forall in Hall. apply Hall, Hx.
Qed.

(** X1.  [_remove_elements(arr, elements)] ([np.setdiff1d]) returns the
    values of [arr] that are not in [elements], each once and in strictly
    ascending order, whatever the order and the repetitions of [arr]. *)
Theorem X1_remove_elements_sorted_difference (arr elements : list Z) :
  StronglySorted Z.lt (_remove_elements arr elements) /\
  forall k, In k (_remove_elements arr elements) <-> In k arr /\ ~ In k elements.
Proof.
  unfold _remove_elements. split.
  - apply sorted_lt_filter, np_unique_is_sorted.
  - intros k. rewrite filter_In, np_unique_In, negb_true_iff.
    rewrite <- (mem_In k elements).
    destruct (mem k elements); split; intros [H1 H2]; split; auto; congruence.
Qed.

(** ** [_numpy_to_dict] and [_get_numpy_data] *)


Lemma _numpy_to_dict_nth X : forall y i k,
  (length X <= length y)%nat ->
  fst (_numpy_to_dict i X y) !! k
  = (if i <=? k then X !! Z.to_nat (k - i) else None) /\
  snd (_numpy_to_dict i X y) !! k
  = (if (i <=? k) && (k - i <? len X) then y !! Z.to_nat (k - i) else None).
Proof.
  induction X as [|xi X IH]; intros [|yi y] i k Hlen; simpl in *; try lia.
  - rewrite !lookup_empty, !lookup_nil. destruct (i <=? k), (k - i <? len []); auto.
  - rewrite !lookup_empty, !lookup_nil. unfold len. simpl length.
    destruct (Z.leb_spec i k), (Z.ltb_spec (k - i) (Z.of_nat 0)); simpl; auto; lia.
  - specialize (IH y (i + 1) k ltac:(lia)).
    destruct (_numpy_to_dict (i + 1) X y) as [Xd yd]. simpl in *.
    destruct IH as [IHX IHy].
    destruct (Z.eq_dec i k) as [->|Hne].
    + rewrite !lookup_insert_eq. rewrite Z.leb_refl, Z.sub_diag. simpl.
      unfold len. simpl length.
      destruct (Z.ltb_spec 0 (Z.of_nat (S (length X)))); [auto|lia].
    + rewrite !lookup_insert_ne by exact Hne. rewrite IHX, IHy.
      unfold len. simpl length.
      destruct (Z.leb_spec (i + 1) k), (Z.leb_spec i k); try lia; simpl; [|auto].
      replace (Z.to_nat (k - i)) with (S (Z.to_nat (k - (i + 1)))) by lia.
      simpl. split; [reflexivity|].
      destruct (Z.ltb_spec (k - (i + 1)) (Z.of_nat (length X))),
               (Z.ltb_spec (k - i) (Z.of_nat (S (length X)))); try lia; reflexivity.
Qed.



(** ** [delete]: the keys and the store *)

Section DeleteStore.

Context {RNG : Type}.
Variable np_exp : Q -> Q.
Variable np_random_seed : option Z -> RNG -> RNG.
Variable np_random_choice : list nat -> list Q -> RNG -> nat * RNG.

Local Abbreviation del := (_delete np_exp np_random_seed np_random_choice).
Local Abbreviation delete_ := (delete np_exp np_random_seed np_random_choice).

Lemma _get_numpy_data_first_missing Xd yd D1 k D2 :
  Forall (fun j => is_Some (Xd !! j) /\ is_Some (yd !! j)) D1 ->
  Xd !! k = None \/ yd !! k = None ->
  _get_numpy_data Xd yd (D1 ++ k :: D2) = inl (KeyError k).
Proof.
  intros HD1 Hk. induction HD1 as [|j D1 [[x Hx] [v Hv]] _ IH]; cbn [app _get_numpy_data].
  - destruct Hk as [-> | Hk]; [reflexivity|].
    rewrite Hk. destruct (Xd !! k); reflexivity.
  - rewrite Hx, Hv, IH. reflexivity.
Qed.

(** X3.  [delete] with a key that is not in the store raises [KeyError]
    for the first such key of the batch, before anything is written: the
    tree, the store, the trace of the previous call and the generator are
    as they were. *)
Theorem X3_delete_unknown_key (self : Tree) (D1 : list Z) (k : Z) (D2 : list Z) (w : World) :
  Forall (fun j => is_Some (X_train_ self !! j) /\ is_Some (y_train_ self !! j)) D1 ->
  X_train_ self !! k = None \/ y_train_ self !! k = None ->
  delete_ self (D1 ++ k :: D2) w = (inl (KeyError k), self, w).
Proof.
  intros HD1 Hk. unfold delete, batch_of.
  rewrite (_get_numpy_data_first_missing _ _ D1 k D2 HD1 Hk). reflexivity.
Qed.

(** X4.  When [delete] returns, the keys of the batch were distinct and
    all stored; afterwards the store holds the rows and labels it held
    before except those of the batch, the parameters and the number of
    features are unchanged, and [deletion_types_] is the trace returned. *)
Theorem X4_delete_removes_exactly (self : Tree) (D : list Z) (w w' : World) tr (self' : Tree) :
  delete_ self D w = (inr tr, self', w') ->
  List.NoDup D /\
  (forall k, In k D -> is_Some (X_train_ self !! k) /\ is_Some (y_train_ self !! k)) /\
  (forall k, X_train_ self' !! k = if mem k D then None else X_train_ self !! k) /\
  (forall k, y_train_ self' !! k = if mem k D then None else y_train_ self !! k) /\
  params self' = params self /\
  n_features_ self' = n_features_ self /\
  deletion_types_ self' = tr.
Proof.
  unfold delete, batch_of.
  destruct (_get_numpy_data _ _ D) as [e|batch] eqn:Eb; [discriminate|].
  destruct (batch_rows _ _ _ _ Eb) as [Hkeys Hbst].
  destruct (del _ _ _ _ _ _) as [[node trace|e t1 trace] w1]; [|discriminate].
  destruct (del_keys _ _ D) as [[e|] [Xd' yd']] eqn:Ek; [discriminate|].
  intros [= <- <- <-]. cbn [X_train_ y_train_ params n_features_ deletion_types_].
  destruct (del_keys_ok _ _ _ _ _ Ek) as (Hnd & HX & Hy).
  split; [exact Hnd|]. split; [|auto].
  intros k Hk. rewrite <- Hkeys in Hk. apply In_keys_of in Hk as (s & Hs & <-).
  rewrite Forall_forall in Hbst.
  destruct (Hbst s) as [HsX Hsy]; [apply list_elem_of_In, Hs|].
  rewrite HsX, Hsy. eauto.
Qed.

End DeleteStore.

Lemma X3_witness :
  delete1 tree4 ([0] ++ 7 :: [1]) world4 = (inl (KeyError 7), tree4, world4).
Proof.
  apply (X3_delete_unknown_key exp_q seed_unit choose_first tree4 [0] 7 [1] world4).
  - repeat constructor; vm_compute; eauto.
  - left. vm_compute. reflexivity.
Defined.

Lemma X4_witness :
  let self' := deleted (delete1 tree3 [0] world3) in
  List.NoDup [0] /\
  (forall k, In k [0] ->
             is_Some (X_train_ tree3 !! k) /\ is_Some (y_train_ tree3 !! k)) /\
  (forall k, X_train_ self' !! k = if mem k [0] then None else X_train_ tree3 !! k) /\
  (forall k, y_train_ self' !! k = if mem k [0] then None else y_train_ tree3 !! k) /\
  params self' = params tree3 /\
  n_features_ self' = n_features_ tree3 /\
  deletion_types_ self' = ["2a_0"].
Proof.
  intros self'.
  apply (X4_delete_removes_exactly exp_q seed_unit choose_first tree3 [0] world3 world3).
  vm_compute. reflexivity.
Defined.

(** ** What the invariant says about [get_indices], the counts and the
       predictions *)

Lemma len_keys_of rows : len (keys_of rows) = len rows.
Proof. unfold len, keys_of. rewrite length_map. reflexivity. Qed.

Lemma sum_labels_perm yd l1 l2 :
  Permutation l1 l2 -> sum_labels yd l1 = sum_labels yd l2.
Proof. induction 1; simpl; lia. Qed.

Lemma sum_labels_rows yd rows :
  Forall (fun s => yd !! s_key s = Some (s_y s)) rows ->
  sum_labels yd (keys_of rows) = sum_y rows.
Proof.
  induction 1 as [|s rows Hs _ IH]; [reflexivity|].
  simpl. rewrite Hs, IH. reflexivity.
Qed.

Lemma Inv_counts yd t : forall rows,
  Forall (fun s => yd !! s_key s = Some (s_y s)) rows ->
  Inv rows t -> counts_ok yd t.
Proof.
  induction t as [v nd lv idx|f nd attr l IHl r IHr]; intros rows Hst HInv.
  - destruct HInv as (-> & Hc & Hp & _). cbn [counts_ok node_dict_of get_indices].
    rewrite len_keys_of, (sum_labels_rows _ _ Hst). auto.
  - pose proof (get_indices_perm _ _ HInv) as Hperm.
    destruct HInv as (Hc & Hp & _ & _ & _ & _ & Hl & Hr).
    cbn [counts_ok node_dict_of].
    rewrite (len_perm _ _ Hperm), (sum_labels_perm _ _ _ Hperm), len_keys_of,
      (sum_labels_rows _ _ Hst).
    split; [exact Hc|]. split; [exact Hp|].
    split; [eapply IHl, Hl|eapply IHr, Hr];
      rewrite Forall_forall in *; intros s Hs; apply Hst;
      apply list_elem_of_In in Hs; apply filter_In in Hs as [Hs _];
      apply list_elem_of_In, Hs.
Qed.

Lemma Inv_leaves_nonempty t : forall rows,
  Inv rows t -> rows <> [] -> leaves_nonempty t.
Proof.
  induction t as [v nd lv idx|f nd attr l IHl r IHr]; intros rows HInv Hne.
  - destruct HInv as (-> & Hc & _). cbn [leaves_nonempty].
    destruct rows as [|s rows]; [congruence|].
    split; [discriminate|]. rewrite Hc. unfold len. simpl. lia.
  - destruct HInv as (_ & _ & _ & _ & [a Hget] & Hattr & Hl & Hr).
    apply attr_get_In in Hget.
    rewrite List.Forall_forall in Hattr.
    destruct (Hattr _ Hget) as (Hcl & Hcr & _ & _ & Hl1 & Hr1 & _). cbn [fst snd] in *.
    cbn [leaves_nonempty]. split.
    + eapply IHl; [exact Hl|]. intros E. rewrite E in Hcl. unfold len in Hcl. simpl in Hcl. lia.
    + eapply IHr; [exact Hr|]. intros E. rewrite E in Hcr. unfold len in Hcr. simpl in Hcr. lia.
Qed.

Lemma _predict_value_reached x t :
  _predict_value x t = _predict_value x (reached_leaf x t).
Proof.
  induction t as [v nd lv idx|f nd attr l IHl r IHr]; [reflexivity|].
  cbn [_predict_value reached_leaf]. destruct (nth f x 0 =? 1); assumption.
Qed.

Lemma Inv_reached t : forall rows s,
  Inv rows t -> In s rows ->
  exists rows', In s rows' /\ incl rows' rows /\ Inv rows' (reached_leaf (s_x s) t) /\
                height (reached_leaf (s_x s) t) = O.
Proof.
  induction t as [v nd lv idx|f nd attr l IHl r IHr]; intros rows s HInv Hin.
  - exists rows. cbn [reached_leaf]. split; [exact Hin|]. split; [intros ?; auto|].
    split; [exact HInv|reflexivity].
  - destruct HInv as (_ & _ & _ & _ & _ & _ & Hl & Hr).
    cbn [reached_leaf]. change (nth f (s_x s) 0 =? 1) with (goes_left f s).
    destruct (goes_left f s) eqn:Eg.
    + destruct (IHl (left_rows f rows) s Hl) as (rows' & H1 & H2 & H3).
      { apply filter_In. auto. }
      exists rows'. split; [exact H1|]. split; [|exact H3].
      intros a Ha. apply H2, filter_In in Ha as [Ha _]. exact Ha.
    + destruct (IHr (right_rows f rows) s Hr) as (rows' & H1 & H2 & H3).
      { apply filter_In. rewrite Eg. auto. }
      exists rows'. split; [exact H1|]. split; [|exact H3].
      intros a Ha. apply H2, filter_In in Ha as [Ha _]. exact Ha.
Qed.

Lemma sum_y_binary rows :
  (forall s, In s rows -> s_y s = 0 \/ s_y s = 1) -> 0 <= sum_y rows <= len rows.
Proof.
  induction rows as [|s rows IH]; intros H; [unfold len; simpl; lia|].
  destruct IH as [IH1 IH2]; [intros; apply H; right; assumption|].
  destruct (H s) as [E|E]; [left; reflexivity| |]; unfold len in *; simpl sum_y;
    simpl length; lia.
Qed.

Lemma ratio_in_unit (p c : Z) :
  0 <= p <= c -> 0 < c ->
  (0 <= Np.div (Np.of_int p) (Np.of_int c) <= 1)%Q.
Proof.
  intros Hp Hc. rewrite Np_div_correct. unfold Np.of_int.
  assert (Hc' : (0 < inject_Z c)%Q) by (unfold Qlt; simpl; lia).
  split.
  - apply Qle_shift_div_l; [exact Hc'|]. rewrite Qmult_0_l.
    unfold Qle; simpl; lia.
  - apply Qle_shift_div_r; [exact Hc'|]. rewrite Qmult_1_l.
    unfold Qle; simpl; lia.
Qed.

Lemma Inv_value_range t : forall rows x,
  (forall s, In s rows -> s_y s = 0 \/ s_y s = 1) ->
  Inv rows t -> (0 <= _predict_value x t <= 1)%Q.
Proof.
  induction t as [v nd lv idx|f nd attr l IHl r IHr]; intros rows x Hbin HInv.
  - destruct HInv as (_ & Hc & Hp & -> & ->). cbn [_predict_value].
    pose proof (sum_y_binary rows Hbin) as Hs.
    destruct (Z.eqb_spec (pos_count nd) 0) as [|Hne]; [split; discriminate|].
    apply ratio_in_unit; lia.
  - destruct HInv as (_ & _ & _ & _ & _ & _ & Hl & Hr).
    cbn [_predict_value]. destruct (nth f x 0 =? 1).
    + eapply IHl; [|exact Hl]. intros s Hs. apply Hbin.
      apply filter_In in Hs as [Hs _]. exact Hs.
    + eapply IHr; [|exact Hr]. intros s Hs. apply Hbin.
      apply filter_In in Hs as [Hs _]. exact Hs.
Qed.

Lemma store_rows_keys (self : Tree) rows :
  ascending rows ->
  Forall (store_has (X_train_ self) (y_train_ self)) rows ->
  (forall k, is_Some (X_train_ self !! k) -> In k (keys_of rows)) ->
  forall k, In k (keys_of rows) <-> is_Some (X_train_ self !! k).
Proof.
  intros Ha Hst Hdom k. split; [|apply Hdom].
  intros Hk. apply In_keys_of in Hk as (s & Hs & <-).
  rewrite Forall_forall in Hst.
  destruct (Hst s) as [HX _]; [apply list_elem_of_In, Hs|]. eauto.
Qed.

Lemma _numpy_to_dict_labels X y :
  (length X <= length y)%nat ->
  Forall (fun v => v = 0 \/ v = 1) y ->
  binary_labels (snd (_numpy_to_dict 0 X y)).
Proof.
  intros Hlen Hbin k v Hk.
  destruct (_numpy_to_dict_nth X y 0 k Hlen) as [_ H]. rewrite H in Hk.
  destruct ((0 <=? k) && (k - 0 <? len X)); [|discriminate].
  rewrite Forall_forall in Hbin. eapply Hbin, list_elem_of_lookup_2, Hk.
Qed.

(** X5.  In a tree that satisfies the invariant of [fit] and [delete],
    [get_indices] from the root returns every key of the store once and
    nothing else, and each of these keys has a stored label. *)
Theorem X5_leaf_keys_are_store_keys (self : Tree) :
  TreeInv self ->
  List.NoDup (get_indices (root_ self)) /\
  (forall k, In k (get_indices (root_ self)) <-> is_Some (X_train_ self !! k)) /\
  (forall k, In k (get_indices (root_ self)) -> is_Some (y_train_ self !! k)).
Proof.
  intros (rows & Ha & Hst & Hdom & HInv).
  pose proof (get_indices_perm _ _ HInv) as Hperm.
  split; [|split].
  - eapply Permutation_NoDup; [symmetry; exact Hperm|].
    apply sorted_lt_NoDup, ascending_keys, Ha.
  - intros k. rewrite <- (store_rows_keys self rows Ha Hst Hdom k).
    split; apply Permutation_in; [|symmetry]; exact Hperm.
  - intros k Hk. apply (Permutation_in _ Hperm), In_keys_of in Hk as (s & Hs & <-).
    rewrite Forall_forall in Hst.
    destruct (Hst s) as [_ Hy]; [apply list_elem_of_In, Hs|]. eauto.
Qed.

(** X6.  In a tree that satisfies the invariant, the [count] of every
    node, leaf or decision node, is the number of keys at the leaves under
    it and its [pos_count] is the sum of their stored labels; the [count]
    of the root is the number of rows in the store. *)
Theorem X6_node_counts_match_leaves (self : Tree) :
  TreeInv self ->
  counts_ok (y_train_ self) (root_ self) /\
  count (node_dict_of (root_ self)) = Z.of_nat (size (X_train_ self)).
Proof.
  intros (rows & Ha & Hst & Hdom & HInv). split.
  - eapply Inv_counts; [|exact HInv].
    rewrite Forall_forall in *. intros s Hs. apply (Hst s Hs).
  - assert (Hc : count (node_dict_of (root_ self)) = len rows).
    { destruct (root_ self); cbn [Inv node_dict_of] in *; tauto. }
    rewrite Hc, <- len_keys_of. unfold len. f_equal.
    rewrite <- size_dom.
    assert (E : dom (X_train_ self) = list_to_set (keys_of rows)).
    { apply set_eq. intros k. rewrite elem_of_dom, elem_of_list_to_set, list_elem_of_In.
      symmetry. apply store_rows_keys; assumption. }
    rewrite E. symmetry. apply size_list_to_set.
    apply NoDup_ListNoDup, sorted_lt_NoDup, ascending_keys, Ha.
Qed.

(** X7.  In a tree that satisfies the invariant and whose root is a
    decision node, no leaf is empty: it holds at least one key and its
    [count] is at least [1]. *)
Theorem X7_leaves_below_a_split_are_nonempty (self : Tree) :
  TreeInv self ->
  height (root_ self) <> O ->
  leaves_nonempty (root_ self).
Proof.
  intros (rows & _ & _ & _ & HInv) Hh.
  eapply Inv_leaves_nonempty; [exact HInv|].
  intros ->. destruct (root_ self) as [|f nd attr l r]; [apply Hh; reflexivity|].
  destruct HInv as (Hc & Hp & _ & Hm & _). unfold is_mono in Hm.
  rewrite Hc, Hp in Hm. cbn in Hm. discriminate.
Qed.

(** X8.  In a tree that satisfies the invariant, the traversal of
    [_predict_value] on a stored row ends at the leaf that holds the key
    of the row, and the value predicted is the fraction of positives among
    the rows of that leaf ([0] when it has no positive). *)
Theorem X8_stored_row_reaches_its_leaf (self : Tree) (k : Z) (x : list Z) :
  TreeInv self ->
  X_train_ self !! k = Some x ->
  exists v nd lv idx,
    reached_leaf x (root_ self) = Leaf v nd lv idx /\
    In k idx /\
    _predict_value x (root_ self) = v /\
    v = (if pos_count nd =? 0 then 0%Q
         else Np.div (Np.of_int (pos_count nd)) (Np.of_int (count nd))).
Proof.
  intros (rows & Ha & Hst & Hdom & HInv) Hk.
  assert (Hin : In k (keys_of rows)) by (apply Hdom; eauto).
  apply In_keys_of in Hin as (s & Hs & <-).
  assert (Hx : s_x s = x).
  { rewrite Forall_forall in Hst.
    destruct (Hst s) as [HX _]; [apply list_elem_of_In, Hs|]. congruence. }
  subst x.
  destruct (Inv_reached _ _ _ HInv Hs) as (rows' & Hs' & _ & HInv' & Hh).
  rewrite (_predict_value_reached (s_x s) (root_ self)).
  destruct (reached_leaf (s_x s) (root_ self)) as [v nd lv idx|]; [|discriminate Hh].
  destruct HInv' as (-> & _ & _ & -> & ->).
  eexists _, nd, _, (keys_of rows'). split; [reflexivity|].
  split; [apply In_keys_of; eauto|]. split; reflexivity.
Qed.

(** X9.  In a tree that satisfies the invariant and whose stored labels
    are all [0] or [1], [predict_proba] returns one row per sample, and
    each row is a probability distribution: both entries are between [0]
    and [1] and they add up to [1]. *)
Theorem X9_predict_proba_is_distribution (self : Tree) (X : list (list Z)) :
  TreeInv self ->
  binary_labels (y_train_ self) ->
  length (predict_proba self X) = length X /\
  Forall (fun pr : Q * Q => (0 <= fst pr <= 1)%Q /\ (0 <= snd pr <= 1)%Q /\
                            (fst pr + snd pr == 1)%Q)
         (predict_proba self X).
Proof.
  intros (rows & Ha & Hst & Hdom & HInv) Hbin. unfold predict_proba.
  split; [apply length_map|].
  apply Forall_map, Forall_forall. intros x _. cbn [fst snd].
  assert (Hrange : (0 <= _predict_value x (root_ self) <= 1)%Q).
  { eapply Inv_value_range; [|exact HInv]. intros s Hs.
    rewrite Forall_forall in Hst.
    destruct (Hst s) as [_ Hy]; [apply list_elem_of_In, Hs|].
    eapply Hbin, Hy. }
  rewrite Np_sub_correct. repeat split; lra.
Qed.

(** X10.  [predict] labels a sample [1] exactly when the value that
    [_predict_value] gives it is greater than one half; at one half the
    two entries of the row of [predict_proba] tie and [np.argmax] takes
    the first, the label [0]. *)
Theorem X10_predict_threshold (self : Tree) (X : list (list Z)) :
  predict self X
  = map (fun x => if Np.ltb (1 # 2) (_predict_value x (root_ self)) then 1 else 0) X.
Proof.
  unfold predict, predict_proba. rewrite map_map. apply map_ext. intros x.
  cbn [fst snd]. set (p := _predict_value x (root_ self)).
  destruct (Np.ltb (1 # 2) p) eqn:E1, (Np.ltb (Np.sub 1 p) p) eqn:E2; try reflexivity; exfalso.
  - apply Np_ltb_lt in E1. apply not_true_iff_false in E2. apply E2, Np_ltb_lt.
    rewrite Np_sub_correct. lra.
  - apply Np_ltb_lt in E2. apply not_true_iff_false in E1. apply E1, Np_ltb_lt.
    rewrite Np_sub_correct in E2. lra.
Qed.

(** ** [equals] *)

Lemma same_splits_sym a : forall b, same_splits a b -> same_splits b a.
Proof.
  induction a as [v nd lv idx|f nd attr l IHl r IHr]; intros [v' nd' lv' idx'|f' nd' attr' l' r'];
    cbn [same_splits]; try tauto.
  - intros H. symmetry. exact H.
  - intros (-> & Hl & Hr). auto.
Qed.

Lemma same_splits_comm a b : same_splits a b <-> same_splits b a.
Proof. split; apply same_splits_sym. Qed.

Lemma guard_one (b : bool) :
  ((if b then 1 else 0) = 1 <-> b = true) /\
  ((if b then 1 else 0) = 0 \/ (if b then 1 else 0) = 1).
Proof. destruct b; split; auto; split; (discriminate || reflexivity). Qed.

Lemma truthy_one (z : Z) : z = 0 \/ z = 1 -> negb (z =? 0) = true <-> z = 1.
Proof. intros [-> | ->]; split; (discriminate || reflexivity). Qed.

(** Both directions of the call decide [same_splits]. *)
Lemma equals_both a : forall b,
  ((equals a b = 1 <-> same_splits a b) /\ (equals a b = 0 \/ equals a b = 1)) /\
  ((equals_swapped a b = 1 <-> same_splits b a) /\
   (equals_swapped a b = 0 \/ equals_swapped a b = 1)).
Proof.
  induction a as [v nd lv idx|f nd attr l IHl r IHr]; intros [v' nd' lv' idx'|f' nd' attr' l' r'];
    cbn [equals equals_swapped same_splits left_of right_of].
  - split; (split; [|apply guard_one]);
      rewrite (proj1 (guard_one _)); apply Np_eqb_eq.
  - repeat split; (tauto || lia || auto).
  - repeat split; (tauto || lia || auto).
  - destruct (IHl l') as [[Hl Hl01] [Hl' Hl01']]. destruct (IHr r') as [[Hr Hr01] [Hr' Hr01']].
    split; (split; [|apply guard_one]); rewrite (proj1 (guard_one _)), !andb_true_iff,
      Nat.eqb_eq, !truthy_one by assumption.
    + rewrite Hl', Hr', (same_splits_comm l' l), (same_splits_comm r' r). tauto.
    + rewrite Hl, Hr, (same_splits_comm l' l), (same_splits_comm r' r). tauto.
Qed.

(** X11.  [equals] returns [1] or [0], and [1] exactly when the two trees
    have the same splits in the same places and equal values at their
    leaves; the cached statistics and the keys at the leaves play no part.
    The exchange of the two nodes in the recursive calls does not show:
    [equals] is symmetric. *)
Theorem X11_equals_compares_splits (this other : DecisionNode) :
  (equals this other = 1 <-> same_splits this other) /\
  (equals this other = 0 \/ equals this other = 1) /\
  equals other this = equals this other.
Proof.
  destruct (equals_both this other) as [[H1 H01] _].
  destruct (equals_both other this) as [[H2 H02] _].
  split; [exact H1|]. split; [exact H01|].
  destruct H01 as [E|E], H02 as [E'|E']; rewrite ?E, ?E'; try reflexivity; exfalso.
  - apply H2, same_splits_sym, H1 in E'. lia.
  - apply H1, same_splits_sym, H2 in E. lia.
Qed.

Lemma same_splits_predict a : forall b x,
  same_splits a b -> (_predict_value x a == _predict_value x b)%Q.
Proof.
  induction a as [v nd lv idx|f nd attr l IHl r IHr]; intros [v' nd' lv' idx'|f' nd' attr' l' r'] x;
    cbn [same_splits _predict_value]; try tauto.
  intros (-> & Hl & Hr). destruct (nth f' x 0 =? 1); auto.
Qed.

(** X12.  Two trees that [equals] finds equal give every sample the same
    value, hence the same row of [predict_proba] up to equality of
    numbers and the same label. *)
Theorem X12_equal_trees_predict_alike (self other : Tree) :
  Tree_equals self (Some other) = 1 ->
  forall x, (_predict_value x (root_ self) == _predict_value x (root_ other))%Q /\
            predict self [x] = predict other [x].
Proof.
  unfold Tree_equals. intros H x.
  destruct (equals_both (root_ self) (root_ other)) as [[H1 _] _].
  pose proof (same_splits_predict _ _ x (proj1 H1 H)) as E.
  split; [exact E|].
  unfold predict, predict_proba. cbn [map fst snd]. f_equal.
  set (p := _predict_value x (root_ self)) in *.
  set (q := _predict_value x (root_ other)) in *.
  destruct (Np.ltb (Np.sub 1 p) p) eqn:E1, (Np.ltb (Np.sub 1 q) q) eqn:E2; try reflexivity;
    exfalso.
  - apply Np_ltb_lt in E1. apply not_true_iff_false in E2. apply E2, Np_ltb_lt.
    rewrite Np_sub_correct in *. lra.
  - apply Np_ltb_lt in E2. apply not_true_iff_false in E1. apply E1, Np_ltb_lt.
    rewrite Np_sub_correct in *. lra.
Qed.

Lemma erase_same_splits a : forall b,
  erase_indices a = erase_indices b -> same_splits a b.
Proof.
  induction a as [v nd lv idx|f nd attr l IHl r IHr]; intros [v' nd' lv' idx'|f' nd' attr' l' r'];
    cbn [erase_indices same_splits]; try discriminate.
  - intros [= -> _ _]. reflexivity.
  - intros [= -> _ _ Hl Hr]. auto.
Qed.

Section EqualsRefit.

Context {RNG : Type}.
Variable np_exp : Q -> Q.
Variable np_random_seed : option Z -> RNG -> RNG.
Variable np_random_choice : list nat -> list Q -> RNG -> nat * RNG.

Hypothesis np_random_choice_in :
  forall a p g, a <> [] -> In (fst (np_random_choice a p g)) a.
Hypothesis np_random_seed_some :
  forall s g g', np_random_seed (Some s) g = np_random_seed (Some s) g'.

Local Abbreviation del := (_delete np_exp np_random_seed np_random_choice).
Local Abbreviation build_f := (build_fuel np_exp np_random_seed np_random_choice).
Local Abbreviation build := (_build_tree np_exp np_random_seed np_random_choice).
Local Abbreviation delete_ := (delete np_exp np_random_seed np_random_choice).
Local Abbreviation fit_ := (fit np_exp np_random_seed np_random_choice).

(** X13.  With a given [random_state] and a rectangular [X]: when
    [fit(X, y)] followed by [delete(D)] returns with a trace that says the
    root was rebuilt, [fit] on the reduced dataset returns a tree that
    differs from the tree after the deletion only in the keys at the
    leaves (the reduced dataset numbers its rows anew): every split, every
    attribute map and every cached statistic is the same, and [equals]
    finds the two trees equal. *)
Theorem X13_rebuilt_root_equals_refit (self : Params) X y D s (w0 w1 w2 w3 : World) t t' tr :
  random_state self = Some s ->
  Forall (fun r => length r = shape1 X) X ->
  fit_ self X y w0 = (inr t, w1) ->
  delete_ t D w1 = (inr tr, t', w2) ->
  root_rebuilt tr ->
  exists t2 w4,
    fit_ self (minus D X) (minus D y) w3 = (inr t2, w4) /\
    erase_indices (root_ t') = erase_indices (root_ t2) /\
    Tree_equals t' (Some t2) = 1.
Proof.
  intros Hs Hrect Hfit Hdel Hreb.
  unfold fit in Hfit. destruct (fit_store_rows X y) as (Ha & Hst & Hdom).
  destruct (Nat.ltb_spec (length y) (length X)) as [|Hlen]; [discriminate Hfit|].
  destruct (_numpy_to_dict 0 X y) as [Xd yd] eqn:Edict. cbn [fst snd] in *.
  unfold bind in Hfit.
  destruct (build self (shape1 X) (rows_from 0 X y) 0 w0) as [[e|root] w1'] eqn:Eb;
    [discriminate|].
  unfold ret in Hfit. injection Hfit as <- <-.
  pose proof (_build_tree_Inv _ _ _ np_random_choice_in _ _ _ _ _ _ _ Eb) as HInv.
  unfold delete, batch_of in Hdel. cbn [X_train_ y_train_ root_ params n_features_] in Hdel.
  destruct (_get_numpy_data Xd yd D) as [e|batch] eqn:Ebatch; [discriminate|].
  destruct (batch_rows _ _ _ _ Ebatch) as [Hkeys Hbst].
  destruct (del _ batch root 0 [] w1') as [[node trace|e t1 trace] wd] eqn:Ed; [|discriminate].
  destruct (del_keys Xd yd D) as [[e|] [Xd' yd']] eqn:Ek; [discriminate|].
  injection Hdel as <- <- <-.
  set (rows := rows_from 0 X y) in *.
  match type of Ed with
  | _delete _ _ _ ?T _ _ _ _ _ = _ =>
      pose proof (root_rebuilt_build np_exp np_random_seed np_random_choice
                    T rows batch w1' wd node trace Ha Hst HInv Ed Hreb)
        as Hbuild
  end.
  cbn [params n_features_] in Hbuild.
  assert (Hdata : data_of (rows_from 0 (minus D X) (minus D y))
                  = data_of (remove_rows batch rows)).
  { unfold minus, remove_rows. rewrite Hkeys. apply data_of_minus. }
  assert (Hne : minus D X <> []).
  { intros E. rewrite E in Hdata. cbn in Hdata.
    destruct (remove_rows batch rows); [|discriminate Hdata].
    unfold _build_tree in Hbuild. cbn in Hbuild. discriminate Hbuild. }
  unfold fit. rewrite (shape1_minus D X Hrect Hne).
  assert ((length (minus D y) <? length (minus D X))%nat = false) as ->.
  { apply Nat.ltb_ge. apply length_minus_from, Hlen. }
  destruct (_numpy_to_dict 0 (minus D X) (minus D y)) as [Xd2 yd2].
  unfold bind, _build_tree.
  pose proof (build_fuel_data np_exp np_random_seed np_random_choice
                (S (length (rows_from 0 (minus D X) (minus D y)))) self (shape1 X)
                (rows_from 0 (minus D X) (minus D y)) (remove_rows batch rows) 0 w1' Hdata)
    as Hsim.
  unfold _build_tree in Hbuild. rewrite <- (data_of_length _ _ Hdata) in Hbuild.
  rewrite Hbuild in Hsim.
  pose proof (build_fuel_seeded np_exp np_random_seed np_random_choice np_random_seed_some
                (S (length (rows_from 0 (minus D X) (minus D y)))) self (shape1 X) s Hs
                (rows_from 0 (minus D X) (minus D y)) 0 w3 w1') as Hseed.
  destruct (build_f _ self (shape1 X) (rows_from 0 (minus D X) (minus D y)) 0 w1')
    as [[e|t2] w5]; [contradiction|].
  destruct Hsim as [Herase _].
  destruct (build_f _ self (shape1 X) (rows_from 0 (minus D X) (minus D y)) 0 w3)
    as [[e|t2'] w4]; cbn [fst] in Hseed; [discriminate|].
  injection Hseed as ->.
  eexists _, w4. split; [reflexivity|]. cbn [root_ Tree_equals].
  split; [symmetry; exact Herase|].
  apply (proj2 (proj1 (proj1 (equals_both _ _)))), erase_same_splits.
  symmetry. exact Herase.
Qed.

End EqualsRefit.

(** ** The depth limits and the keys of the attribute maps *)

Lemma split_attr_viable n rows i :
  split_attr n rows i = None <-> viable rows i = false.
Proof.
  unfold split_attr, viable.
  destruct ((0 <? len (left_rows i rows)) && (0 <? len (right_rows i rows)));
    split; (discriminate || reflexivity).
Qed.

Lemma build_attrs_keys F n rows :
  map fst (build_attrs F n rows) = List.filter (viable rows) (seq 0 F).
Proof.
  unfold build_attrs. generalize (seq 0 F) as l.
  induction l as [|i l IH]; [reflexivity|]. cbn [omap list_omap List.filter]. cbv beta.
  fold (omap (fun i => match split_attr n rows i with
                       | Some a => Some (i, a)
                       | None => None
                       end) l).
  pose proof (split_attr_viable n rows i) as Hv.
  destruct (split_attr n rows i) as [a|]; destruct (viable rows i).
  - cbn. f_equal. exact IH.
  - destruct Hv as [_ Hv]. discriminate (Hv eq_refl).
  - destruct Hv as [Hv _]. discriminate (Hv eq_refl).
  - exact IH.
Qed.

Lemma len_filter_le {A} (P : A -> bool) (batch rows : list A) :
  incl rows batch -> List.NoDup rows ->
  len (List.filter P rows) <= len (List.filter P batch).
Proof.
  intros Hincl Hnd. unfold len. apply inj_le.
  apply NoDup_incl_length.
  - apply List.NoDup_filter, Hnd.
  - intros a Ha. apply filter_In in Ha as [Ha HP]. apply filter_In. auto.
Qed.

(** An attribute with a row on each side after the removal had a row on
    each side before. *)
Lemma viable_remove_rows batch rows i :
  ascending rows ->
  viable (remove_rows batch rows) i = true -> viable rows i = true.
Proof.
  intros Ha. unfold viable. rewrite !andb_true_iff, !Z.ltb_lt.
  assert (Hincl : incl (remove_rows batch rows) rows).
  { intros a H. apply filter_In in H as [H _]. exact H. }
  assert (Hnd : List.NoDup (remove_rows batch rows)).
  { apply ascending_NoDup, ascending_filter, Ha. }
  pose proof (len_filter_le (goes_left i) rows _ Hincl Hnd).
  pose proof (len_filter_le (fun s => negb (goes_left i s)) rows _ Hincl Hnd).
  unfold left_rows, right_rows. lia.
Qed.

(** The loop of [_delete] keeps the entry of an attribute exactly when
    the attribute has a row on each side among the rows that stay. *)
Lemma update_attr_viable n batch rows i a :
  ascending rows -> List.NoDup (keys_of batch) -> incl batch rows ->
  attr_ok rows (i, a) ->
  update_attr n batch i a = None <-> viable (remove_rows batch rows) i = false.
Proof.
  intros Ha Hnd Hincl (Hl & Hr & Hpl & Hpr & Hl1 & Hr1 & Hg). cbn [fst snd] in *.
  unfold update_attr, _update_decision_node, viable.
  pose proof (len_filter_remove_rows (goes_left i) batch rows Ha Hnd Hincl) as Ell.
  pose proof (len_filter_remove_rows (fun s => negb (goes_left i s)) batch rows Ha Hnd Hincl)
    as Elr.
  fold (left_rows i (remove_rows batch rows)) in Ell.
  fold (right_rows i (remove_rows batch rows)) in Elr.
  fold (left_rows i rows) in Ell. fold (right_rows i rows) in Elr.
  fold (left_rows i batch) in Ell. fold (right_rows i batch) in Elr.
  pose proof (len_nonneg (left_rows i batch)) as Hbl.
  pose proof (len_nonneg (right_rows i batch)) as Hbr.
  rewrite andb_false_iff, !Z.ltb_ge.
  destruct (Z.ltb_spec 0 (len (left_rows i batch))) as [Hyl|Hyl];
    [destruct (Z.leb_spec (b_count (a_left a)) (len (left_rows i batch)))|];
    (destruct (Z.ltb_spec 0 (len (right_rows i batch))) as [Hyr|Hyr];
     [destruct (Z.leb_spec (b_count (a_right a)) (len (right_rows i batch)))|]);
    split; intros HH; try reflexivity; try discriminate HH; try lia;
    destruct HH; lia.
Qed.

Lemma filter_filter_absorb {A} (P Q : A -> bool) (l : list A) :
  (forall a, P a = true -> Q a = true) ->
  List.filter P (List.filter Q l) = List.filter P l.
Proof.
  intros H. induction l as [|a l IH]; [reflexivity|]. simpl.
  destruct (Q a) eqn:EQ; simpl.
  - rewrite IH. reflexivity.
  - destruct (P a) eqn:EP; [|exact IH]. rewrite (H a EP) in EQ. discriminate.
Qed.

Lemma valid_attrs_keys n batch rows attr :
  ascending rows -> List.NoDup (keys_of batch) -> incl batch rows ->
  Forall (attr_ok rows) attr ->
  map fst (valid_attrs (update_attrs n batch attr))
  = List.filter (viable (remove_rows batch rows)) (map fst attr).
Proof.
  intros Ha Hnd Hincl. induction 1 as [|[i a] attr Hok _ IH]; [reflexivity|].
  unfold update_attrs. cbn [map fst snd List.filter]. rewrite valid_attrs_cons.
  pose proof (update_attr_viable n batch rows i a Ha Hnd Hincl Hok) as Hv.
  destruct (update_attr n batch i a) as [a'|]; destruct (viable (remove_rows batch rows) i).
  - cbn. f_equal. exact IH.
  - destruct Hv as [_ Hv]. discriminate (Hv eq_refl).
  - destruct Hv as [Hv _]. discriminate (Hv eq_refl).
  - exact IH.
Qed.

Lemma Shape_height (self : Params) F t : forall rows d,
  Shape self F rows d t ->
  (height t <= F - d)%nat /\
  (Z.of_nat d <= max_depth self -> Z.of_nat (height t) <= max_depth self - Z.of_nat d).
Proof.
  induction t as [v nd lv idx|f nd attr l IHl r IHr]; intros rows d; cbn [Shape height].
  - intros _. split; lia.
  - intros (Hd & Hmd & _ & Hl & Hr).
    destruct (IHl _ _ Hl) as [Hl1 Hl2]. destruct (IHr _ _ Hr) as [Hr1 Hr2].
    split; [lia|]. intros Hle.
    assert (Z.of_nat (S d) <= max_depth self) by lia. lia.
Qed.

Section Limits.

Context {RNG : Type}.
Variable np_exp : Q -> Q.
Variable np_random_seed : option Z -> RNG -> RNG.
Variable np_random_choice : list nat -> list Q -> RNG -> nat * RNG.

Hypothesis np_random_choice_in :
  forall a p g, a <> [] -> In (fst (np_random_choice a p g)) a.

Local Abbreviation del := (_delete np_exp np_random_seed np_random_choice).
Local Abbreviation rebuild_at := (rebuild np_exp np_random_seed np_random_choice).
Local Abbreviation build_f := (build_fuel np_exp np_random_seed np_random_choice).
Local Abbreviation build := (_build_tree np_exp np_random_seed np_random_choice).
Local Abbreviation delete_ := (delete np_exp np_random_seed np_random_choice).
Local Abbreviation fit_ := (fit np_exp np_random_seed np_random_choice).

Lemma build_fuel_Shape fuel (self : Params) F :
  forall rows d (w w' : World) t,
    (d <= F)%nat ->
    build_f fuel self F rows d w = (inr t, w') ->
    Shape self F rows d t /\
    all_decisions (fun nd => min_samples_split self <= count nd) t.
Proof.
  induction fuel as [|fuel IH]; intros rows d w w' t Hd; cbn [build_fuel].
  - unfold raise. discriminate.
  - cbn [count pos_count].
    destruct (0 <? len rows) eqn:En; [|unfold raise; discriminate].
    destruct (_ && _); [unfold raise; discriminate|].
    destruct (_ || _) eqn:Eleaf.
    + unfold ret. intros [= <- <-]. cbn [Shape all_decisions]. auto.
    + apply orb_false_iff in Eleaf as [Eleaf _].
      apply orb_false_iff in Eleaf as [Eleaf HF].
      apply orb_false_iff in Eleaf as [Hmss Hmd].
      apply Z.ltb_ge in Hmss. apply Z.eqb_neq in Hmd, HF.
      unfold bind at 1. unfold seed at 1. unfold bind at 1.
      destruct (choice _ _ _ _) as [[e|c] w1] eqn:Ec; [discriminate|].
      unfold bind at 1.
      destruct (build_f fuel self F (left_rows c rows) (S d) w1) as [[e|lt] w2] eqn:El;
        [discriminate|].
      unfold bind at 1.
      destruct (build_f fuel self F (right_rows c rows) (S d) w2) as [[e|rt] w3] eqn:Er;
        [discriminate|].
      unfold ret. intros [= <- <-]. cbn [Shape all_decisions count].
      assert (HSd : (S d <= F)%nat) by lia.
      destruct (IH _ _ _ _ _ HSd El) as [Hl1 Hl2].
      destruct (IH _ _ _ _ _ HSd Er) as [Hr1 Hr2].
      split; [|auto].
      split; [lia|]. split; [exact Hmd|].
      split; [apply build_attrs_keys|]. auto.
Qed.

(** A call of [_delete] that returns leaves the subtree within the depth
    limits, with the attribute maps of the rows that stay. *)
Lemma _delete_Shape (self : Tree) t :
  forall rows batch d tr (w w' : World) t' tr',
    ascending rows ->
    Forall (store_has (X_train_ self) (y_train_ self)) rows ->
    List.NoDup (keys_of batch) ->
    incl batch rows ->
    Inv rows t ->
    Shape (params self) (n_features_ self) rows d t ->
    del self batch t d tr w = (Done t' tr', w') ->
    Shape (params self) (n_features_ self) (remove_rows batch rows) d t'.
Proof.
  induction t as [v nd lv idx|f nd attr l IHl r IHr];
    intros rows batch d tr w w' t' tr' Ha Hst Hnd Hincl HInv HSh.
  - cbn [_delete]. intros [= <- <- <-]. exact I.
  - pose proof (get_indices_perm _ _ HInv) as Hperm.
    destruct HInv as (Hc & Hp & Hg & Hm & Hsome & Hattr & HIl & HIr).
    destruct HSh as (Hd & Hmd & Hkeys & HSl & HSr).
    cbn [_delete].
    set (nd' := update_node_dict nd batch).
    destruct (Nat.eqb d 0 && is_mono nd'); [discriminate|].
    destruct (is_mono nd') eqn:Emono.
    { intros [= <- <- <-]. exact I. }
    destruct (attr_get f attr) as [chosen|] eqn:Eget; [|discriminate].
    assert (Hreb : forall nd2 attr2 dtype,
               rebuild_at self (Decision f nd2 attr2 l r) (keys_of batch) dtype d tr w
               = (Done t' tr', w') ->
               Shape (params self) (n_features_ self) (remove_rows batch rows) d t').
    { intros nd2 attr2 dtype H.
      destruct (rebuild_rows np_exp np_random_seed np_random_choice
                  self (Decision f nd2 attr2 l r) batch rows dtype d tr w w' t' tr'
                  Ha Hst Hperm H) as [Hb _].
      eapply build_fuel_Shape; [|exact Hb]. lia. }
    destruct (_ || _) eqn:Ehang; [apply Hreb|].
    destruct (diverges _ _ _ _); [apply Hreb|].
    assert (HSl' : forall (w1 w2 : World) tr1 l' tr2,
               (if 0 <? len (left_rows f batch)
                then del self (left_rows f batch) l (S d) tr1 w1
                else (Done l tr1, w1)) = (Done l' tr2, w2) ->
               Shape (params self) (n_features_ self)
                     (left_rows f (remove_rows batch rows)) (S d) l').
    { intros w1 w2 tr1 l' tr2. unfold left_rows at 3.
      rewrite filter_remove_rows by assumption.
      destruct (Z.ltb_spec 0 (len (left_rows f batch))) as [Hpos|Hz].
      - intros H. eapply IHl; [| | | | exact HIl | exact HSl | exact H];
          auto using ascending_filter, store_has_filter, NoDup_keys_filter, incl_filter.
      - intros [= <- <-].
        pose proof (len_nonneg (left_rows f batch)).
        assert (E : left_rows f batch = []) by (apply len_zero_nil; lia).
        unfold left_rows in E. rewrite E, remove_rows_nil. exact HSl. }
    assert (HSr' : forall (w1 w2 : World) tr1 r' tr2,
               (if 0 <? len (right_rows f batch)
                then del self (right_rows f batch) r (S d) tr1 w1
                else (Done r tr1, w1)) = (Done r' tr2, w2) ->
               Shape (params self) (n_features_ self)
                     (right_rows f (remove_rows batch rows)) (S d) r').
    { intros w1 w2 tr1 r' tr2. unfold right_rows at 3.
      rewrite filter_remove_rows by assumption.
      destruct (Z.ltb_spec 0 (len (right_rows f batch))) as [Hpos|Hz].
      - intros H. eapply IHr; [| | | | exact HIr | exact HSr | exact H];
          auto using ascending_filter, store_has_filter, NoDup_keys_filter, incl_filter.
      - intros [= <- <-].
        pose proof (len_nonneg (right_rows f batch)).
        assert (E : right_rows f batch = []) by (apply len_zero_nil; lia).
        unfold right_rows in E. rewrite E, remove_rows_nil. exact HSr. }
    destruct (if 0 <? len (left_rows f batch) then _ else _) as [[l' tr1|e l' tr1] w1] eqn:El;
      [|discriminate].
    destruct (if 0 <? len (right_rows f batch) then _ else _) as [[r' tr2|e r' tr2] w2] eqn:Er;
      [|discriminate].
    intros [= <- <- <-]. cbn [Shape].
    split; [exact Hd|]. split; [exact Hmd|]. split.
    { rewrite (valid_attrs_keys _ batch rows attr Ha Hnd Hincl Hattr), Hkeys.
      apply filter_filter_absorb. intros i. apply viable_remove_rows, Ha. }
    split; [eapply HSl', El|eapply HSr', Er].
Qed.

Lemma fit_TreeShape (self : Params) X y (w w' : World) t :
  fit_ self X y w = (inr t, w') -> TreeShape t.
Proof.
  unfold fit.
  destruct (fit_store_rows X y) as (Ha & Hst & Hdom).
  destruct (length y <? length X)%nat; [unfold raise; discriminate|].
  destruct (_numpy_to_dict 0 X y) as [Xd yd]. cbn [fst snd] in *.
  unfold bind.
  destruct (build _ _ _ _ _) as [[e|root] w1] eqn:E; [discriminate|].
  unfold ret. intros [= <- <-].
  exists (rows_from 0 X y). cbn [X_train_ y_train_ root_ params n_features_].
  split; [exact Ha|]. split; [exact Hst|]. split; [exact Hdom|]. split.
  - eapply _build_tree_Inv; eauto.
  - eapply build_fuel_Shape; [|exact E]. lia.
Qed.

Lemma delete_TreeShape (self : Tree) D (w w' : World) tr self' :
  TreeShape self ->
  delete_ self D w = (inr tr, self', w') ->
  TreeShape self'.
Proof.
  intros (rows & Ha & Hst & Hdom & HInv & HSh) Hdel.
  unfold delete, batch_of in Hdel.
  destruct (_get_numpy_data _ _ D) as [e|batch] eqn:Eb; [discriminate|].
  destruct (batch_rows _ _ _ _ Eb) as [Hkeys Hbst].
  pose proof (batch_incl _ _ _ _ Hst Hdom Hbst) as Hincl.
  destruct (del _ _ _ _ _ _) as [[node trace|e t1 trace] w1] eqn:Ed; [|discriminate].
  destruct (del_keys _ _ D) as [[e|] [Xd' yd']] eqn:Ek; [discriminate|].
  injection Hdel as <- <- <-.
  destruct (del_keys_ok _ _ _ _ _ Ek) as (Hnd & HX & Hy).
  cbn [X_train_ y_train_ root_ params n_features_] in *.
  assert (Hnd' : List.NoDup (keys_of batch)) by (rewrite Hkeys; exact Hnd).
  exists (remove_rows batch rows). cbn [X_train_ y_train_ root_ params n_features_].
  split; [apply ascending_filter, Ha|]. split; [|split; [|split]].
  - apply Forall_forall. intros s Hs. apply list_elem_of_In in Hs.
    unfold remove_rows in Hs. apply filter_In in Hs as [Hs Hm].
    rewrite Hkeys in Hm. apply negb_true_iff in Hm.
    rewrite Forall_forall in Hst.
    destruct (Hst s) as [HsX Hsy]; [apply list_elem_of_In, Hs|].
    unfold store_has. rewrite HX, Hy, Hm. auto.
  - intros k Hk. rewrite HX in Hk. destruct (mem k D) eqn:Em.
    { destruct Hk as [? Hk]. discriminate. }
    apply Hdom, In_keys_of in Hk as (s & Hs & E).
    apply In_keys_of. exists s. split; [|exact E].
    unfold remove_rows. apply filter_In. split; [exact Hs|].
    rewrite Hkeys, E, Em. reflexivity.
  - eapply _delete_Inv;
      [exact np_random_choice_in|exact Ha|exact Hst|exact Hnd'|exact Hincl|exact HInv|exact Ed].
  - eapply _delete_Shape;
      [exact Ha|exact Hst|exact Hnd'|exact Hincl|exact HInv|exact HSh|exact Ed].
Qed.

(** X14.  [fit] establishes, and every [delete] that returns preserves,
    the shape of the tree: every decision node is at a depth below the
    number of features and different from [max_depth], and the keys of its
    attribute map are exactly the attributes that have a row on each side
    among the rows now routed to the node, in ascending order (beside the
    invariant on the cached counts). *)
Theorem X14_tree_shape_is_invariant :
  (forall (self : Params) X y (w w' : World) t,
      fit_ self X y w = (inr t, w') -> TreeShape t) /\
  (forall (self : Tree) D (w w' : World) tr self',
      TreeShape self ->
      delete_ self D w = (inr tr, self', w') ->
      TreeShape self').
Proof.
  split.
  - intros self X y w w' t. apply fit_TreeShape.
  - intros self D w w' tr self'. apply delete_TreeShape.
Qed.

(** X15.  Every decision node of the tree that [fit] returns holds at
    least [min_samples_split] rows.  (A [delete] does not keep this: it
    never looks at [min_samples_split].) *)
Theorem X15_fit_respects_min_samples_split (self : Params) X y (w w' : World) t :
  fit_ self X y w = (inr t, w') ->
  all_decisions (fun nd => min_samples_split self <= count nd) (root_ t).
Proof.
  unfold fit.
  destruct (length y <? length X)%nat; [unfold raise; discriminate|].
  destruct (_numpy_to_dict 0 X y) as [Xd yd]. unfold bind.
  destruct (build _ _ _ _ _) as [[e|root] w1] eqn:E; [discriminate|].
  unfold ret. intros [= <- <-]. cbn [root_].
  eapply build_fuel_Shape; [|exact E]. lia.
Qed.

End Limits.

(** X16.  In a tree of the shape that [fit] establishes and [delete]
    keeps, no path from the root passes more decision nodes than there
    are features, nor more than [max_depth] when [max_depth] is not
    negative. *)
Theorem X16_height_within_limits (self : Tree) :
  TreeShape self ->
  (height (root_ self) <= n_features_ self)%nat /\
  (0 <= max_depth (params self) -> Z.of_nat (height (root_ self)) <= max_depth (params self)).
Proof.
  intros (rows & _ & _ & _ & _ & HSh).
  destruct (Shape_height _ _ _ _ _ HSh) as [H1 H2].
  split; [lia|]. intros H. specialize (H2 H). lia.
Qed.

(** X17.  In a tree of that shape whose root is a decision node, the
    attribute map of the root has an entry for attribute [i] exactly when
    [i] is a feature index and the store holds a row where the attribute
    is [1] and a row where it is not. *)
Theorem X17_root_map_lists_viable_attributes (self : Tree) f nd attr l r (i : nat) :
  TreeShape self ->
  root_ self = Decision f nd attr l r ->
  In i (map fst attr) <->
  (i < n_features_ self)%nat /\
  (exists k x, X_train_ self !! k = Some x /\ nth i x 0 = 1) /\
  (exists k x, X_train_ self !! k = Some x /\ nth i x 0 <> 1).
Proof.
  intros (rows & Ha & Hst & Hdom & HInv & HSh) Hroot. rewrite Hroot in HSh, HInv.
  destruct HSh as (_ & _ & Hkeys & _). rewrite Hkeys, filter_In, in_seq.
  unfold viable. rewrite andb_true_iff, !Z.ltb_lt.
  assert (Hrow : forall s, In s rows -> X_train_ self !! s_key s = Some (s_x s)).
  { intros s Hs. rewrite Forall_forall in Hst.
    destruct (Hst s) as [HX _]; [apply list_elem_of_In, Hs|]. exact HX. }
  assert (Hback : forall k x, X_train_ self !! k = Some x ->
                              exists s, In s rows /\ s_x s = x).
  { intros k x Hk.
    assert (Hin : In k (keys_of rows)) by (apply Hdom; eauto).
    apply In_keys_of in Hin as (s & Hs & <-).
    exists s. split; [exact Hs|]. rewrite (Hrow s Hs) in Hk. congruence. }
  assert (Hpos : forall P : sample -> bool,
             0 < len (List.filter P rows) <-> exists s, In s rows /\ P s = true).
  { intros P. split.
    - destruct (List.filter P rows) as [|s rest] eqn:E; [unfold len; simpl; lia|].
      intros _. exists s. apply filter_In. rewrite E. left; reflexivity.
    - intros (s & Hs & HP).
      assert (Hin : In s (List.filter P rows)) by (apply filter_In; auto).
      destruct (List.filter P rows); [destruct Hin|]. unfold len. simpl. lia. }
  unfold left_rows, right_rows. rewrite !Hpos. unfold goes_left.
  split.
  - intros ([_ Hi] & (s1 & Hs1 & H1) & (s2 & Hs2 & H2)).
    split; [lia|]. split.
    + exists (s_key s1), (s_x s1). split; [apply Hrow, Hs1|]. apply Z.eqb_eq, H1.
    + exists (s_key s2), (s_x s2). split; [apply Hrow, Hs2|].
      apply negb_true_iff, Z.eqb_neq in H2. exact H2.
  - intros (Hi & (k1 & x1 & Hk1 & H1) & (k2 & x2 & Hk2 & H2)).
    split; [lia|].
    destruct (Hback _ _ Hk1) as (s1 & Hs1 & <-).
    destruct (Hback _ _ Hk2) as (s2 & Hs2 & <-).
    split; [exists s1|exists s2]; (split; [assumption|]).
    + apply Z.eqb_eq, H1.
    + apply negb_true_iff, Z.eqb_neq, H2.
Qed.

(** ** The trace of [delete] and the generator *)

Lemma rebuild_tag_not_in_place (dtype : string) (d : nat) :
  dtype = "2a" \/ dtype = "2b" \/ dtype = "2c" ->
  ~ in_place_tag (dtype +:+ "_" +:+ pretty d).
Proof.
  intros [->|[->| ->]] [E|E]; cbn [String.append] in E; discriminate E.
Qed.

Lemma length_left_right i (rows : list sample) :
  (length (left_rows i rows) + length (right_rows i rows) = length rows)%nat.
Proof. pose proof (len_left_right i rows) as H. unfold len in H. lia. Qed.

Section Accounting.

Context {RNG : Type}.
Variable np_exp : Q -> Q.
Variable np_random_seed : option Z -> RNG -> RNG.
Variable np_random_choice : list nat -> list Q -> RNG -> nat * RNG.

Local Abbreviation del := (_delete np_exp np_random_seed np_random_choice).
Local Abbreviation rebuild_at := (rebuild np_exp np_random_seed np_random_choice).
Local Abbreviation build := (_build_tree np_exp np_random_seed np_random_choice).
Local Abbreviation delete_ := (delete np_exp np_random_seed np_random_choice).
Local Abbreviation fit_ := (fit np_exp np_random_seed np_random_choice).

Lemma rebuild_accounting (self : Tree) t keys dtype d tr (w w' : World) t' tr' :
  dtype = "2a" \/ dtype = "2b" \/ dtype = "2c" ->
  rebuild_at self t keys dtype d tr w = (Done t' tr', w') ->
  exists ext, tr' = tr ++ ext /\ length ext = 1%nat /\ ~ Forall in_place_tag ext.
Proof.
  intros Hd H.
  pose proof (rebuild_outcome np_exp np_random_seed np_random_choice self t keys dtype d tr w)
    as Ho.
  rewrite H in Ho. cbn [fst] in Ho. eexists. split; [exact Ho|]. split; [reflexivity|].
  intros Hall. inversion Hall as [|? ? Htag _]; subst.
  exact (rebuild_tag_not_in_place dtype d Hd Htag).
Qed.

(** What a call of [_delete] that returns adds to the trace: for a batch
    that is not empty, at least one tag and at most one per row of the
    batch; and when every tag is one of an update in place, the generator
    is left as it was. *)
Lemma _delete_accounting (self : Tree) t :
  forall batch d tr (w w' : World) t' tr',
    del self batch t d tr w = (Done t' tr', w') ->
    exists ext,
      tr' = tr ++ ext /\
      (batch <> [] -> (1 <= length ext <= length batch)%nat) /\
      (Forall in_place_tag ext -> w' = w).
Proof.
  induction t as [v nd lv idx|f nd attr l IHl r IHr]; intros batch d tr w w' t' tr';
    cbn [_delete].
  - intros [= <- <- <-]. exists ["1a"]. split; [reflexivity|]. split; [|reflexivity].
    destruct batch; [congruence|]. simpl. lia.
  - set (nd' := update_node_dict nd batch).
    destruct (Nat.eqb d 0 && is_mono nd'); [discriminate|].
    destruct (is_mono nd').
    { intros [= <- <- <-]. exists ["1b"]. split; [reflexivity|]. split; [|reflexivity].
      destruct batch; [congruence|]. simpl. lia. }
    destruct (attr_get f attr) as [chosen|]; [|discriminate].
    assert (Hreb : forall nd2 attr2 dtype,
               dtype = "2a" \/ dtype = "2b" \/ dtype = "2c" ->
               rebuild_at self (Decision f nd2 attr2 l r) (keys_of batch) dtype d tr w
               = (Done t' tr', w') ->
               exists ext,
                 tr' = tr ++ ext /\
                 (batch <> [] -> (1 <= length ext <= length batch)%nat) /\
                 (Forall in_place_tag ext -> w' = w)).
    { intros nd2 attr2 dtype Hd H.
      destruct (rebuild_accounting _ _ _ _ _ _ _ _ _ _ Hd H) as (ext & E & Hlen & Hno).
      exists ext. split; [exact E|]. split; [|intros Hall; contradiction].
      intros Hne. rewrite Hlen. destruct batch; [congruence|]. simpl. lia. }
    destruct (_ || _); [apply Hreb; auto|].
    destruct (diverges _ _ _ _).
    { apply Hreb. destruct (Nat.ltb 0 _); auto. }
    assert (Hl : forall (w1 : World) l' tr1,
               (if 0 <? len (left_rows f batch)
                then del self (left_rows f batch) l (S d) tr w
                else (Done l tr, w)) = (Done l' tr1, w1) ->
               exists ext,
                 tr1 = tr ++ ext /\
                 (length ext <= length (left_rows f batch))%nat /\
                 (left_rows f batch <> [] -> (1 <= length ext)%nat) /\
                 (Forall in_place_tag ext -> w1 = w)).
    { intros w1 l' tr1.
      destruct (Z.ltb_spec 0 (len (left_rows f batch))) as [Hpos|Hz].
      - intros H. destruct (IHl _ _ _ _ _ _ _ H) as (ext & E & Hlen & Hw).
        assert (Hne : left_rows f batch <> []).
        { intros E0. rewrite E0 in Hpos. unfold len in Hpos. simpl in Hpos. lia. }
        exists ext. split; [exact E|]. specialize (Hlen Hne).
        split; [lia|]. split; [intros; lia|exact Hw].
      - intros [= <- <- <-]. exists []. rewrite app_nil_r. split; [reflexivity|].
        split; [simpl; lia|]. split; [|reflexivity].
        intros Hne. exfalso. apply Hne, len_zero_nil.
        pose proof (len_nonneg (left_rows f batch)). lia. }
    destruct (if 0 <? len (left_rows f batch) then _ else _) as [[l' tr1|e l' tr1] w1];
      [|discriminate].
    destruct (Hl w1 l' tr1 eq_refl) as (ext1 & E1 & Hlen1 & Hne1 & Hw1).
    assert (Hr : forall (w2 : World) r' tr2,
               (if 0 <? len (right_rows f batch)
                then del self (right_rows f batch) r (S d) tr1 w1
                else (Done r tr1, w1)) = (Done r' tr2, w2) ->
               exists ext,
                 tr2 = tr1 ++ ext /\
                 (length ext <= length (right_rows f batch))%nat /\
                 (right_rows f batch <> [] -> (1 <= length ext)%nat) /\
                 (Forall in_place_tag ext -> w2 = w1)).
    { intros w2 r' tr2.
      destruct (Z.ltb_spec 0 (len (right_rows f batch))) as [Hpos|Hz].
      - intros H. destruct (IHr _ _ _ _ _ _ _ H) as (ext & E & Hlen & Hw).
        assert (Hne : right_rows f batch <> []).
        { intros E0. rewrite E0 in Hpos. unfold len in Hpos. simpl in Hpos. lia. }
        exists ext. split; [exact E|]. specialize (Hlen Hne).
        split; [lia|]. split; [intros; lia|exact Hw].
      - intros [= <- <- <-]. exists []. rewrite app_nil_r. split; [reflexivity|].
        split; [simpl; lia|]. split; [|reflexivity].
        intros Hne. exfalso. apply Hne, len_zero_nil.
        pose proof (len_nonneg (right_rows f batch)). lia. }
    destruct (if 0 <? len (right_rows f batch) then _ else _) as [[r' tr2|e r' tr2] w2];
      [|discriminate].
    destruct (Hr w2 r' tr2 eq_refl) as (ext2 & E2 & Hlen2 & Hne2 & Hw2).
    intros [= <- <- <-]. exists (ext1 ++ ext2).
    split; [rewrite E2, E1; symmetry; apply app_assoc|].
    pose proof (length_left_right f batch) as Hsum.
    rewrite length_app. split.
    + intros Hne. split; [|lia].
      destruct (left_rows f batch) as [|s1 rest1] eqn:EL.
      * destruct (right_rows f batch) as [|s2 rest2] eqn:ER.
        -- simpl in Hsum. destruct batch; [congruence|discriminate Hsum].
        -- assert (1 <= length ext2)%nat by (apply Hne2; discriminate). lia.
      * assert (1 <= length ext1)%nat by (apply Hne1; discriminate). lia.
    + intros Hall. apply Forall_app in Hall as [Ha1 Ha2].
      rewrite (Hw2 Ha2). apply Hw1, Ha1.
Qed.

(** X18.  The trace that [delete] returns holds only the tags [1a], [1b]
    and [2a_d], [2b_d], [2c_d] for depths [d]; for a batch that is not
    empty it holds at least one tag and at most as many tags as the batch
    has keys. *)
Theorem X18_delete_trace_tags (self : Tree) (D : list Z) (w w' : World) tr (self' : Tree) :
  delete_ self D w = (inr tr, self', w') ->
  Forall (deep_tag 0) tr /\
  (D <> [] -> (1 <= length tr <= length D)%nat).
Proof.
  unfold delete, batch_of.
  destruct (_get_numpy_data _ _ D) as [e|batch] eqn:Eb; [discriminate|].
  destruct (batch_rows _ _ _ _ Eb) as [Hkeys _].
  pose proof (_delete_trace np_exp np_random_seed np_random_choice
                self (root_ self) batch 0 [] w) as (ext0 & E0 & Htags).
  destruct (del _ _ _ _ _ _) as [[node trace|e t1 trace] w1] eqn:Ed; [|discriminate].
  destruct (del_keys _ _ D) as [[e|] [Xd' yd']]; [discriminate|].
  intros [= <- <- <-]. cbn [fst trace_of app] in E0. subst trace.
  split; [exact Htags|].
  destruct (_delete_accounting _ _ _ _ _ _ _ _ _ Ed) as (ext & E & Hlen & _).
  cbn [app] in E. subst ext0. intros Hne.
  assert (Hb : batch <> []).
  { intros ->. apply Hne. rewrite <- Hkeys. reflexivity. }
  specialize (Hlen Hb). rewrite <- Hkeys. unfold keys_of. rewrite length_map. exact Hlen.
Qed.

(** X19.  A [delete] that returns a trace of updates in place only (tags
    [1a] and [1b], no rebuild) has neither seeded the generator nor drawn
    from it: the generator is as it was before the call. *)
Theorem X19_in_place_delete_keeps_generator (self : Tree) (D : list Z) (w w' : World) tr
        (self' : Tree) :
  delete_ self D w = (inr tr, self', w') ->
  Forall in_place_tag tr ->
  w' = w.
Proof.
  unfold delete, batch_of.
  destruct (_get_numpy_data _ _ D) as [e|batch]; [discriminate|].
  destruct (del _ _ _ _ _ _) as [[node trace|e t1 trace] w1] eqn:Ed; [|discriminate].
  destruct (del_keys _ _ D) as [[e|] [Xd' yd']]; [discriminate|].
  intros [= <- <- <-] Hall.
  destruct (_delete_accounting _ _ _ _ _ _ _ _ _ Ed) as (ext & E & _ & Hw).
  cbn [app] in E. subst ext. apply Hw, Hall.
Qed.

(** ** [fit] on data without two classes *)

Lemma sum_y_rows_from X : forall y i,
  length X = length y -> sum_y (rows_from i X y) = foldr Z.add 0 y.
Proof.
  induction X as [|xi X IH]; intros [|yi y] i Hlen; simpl in *; try discriminate;
    [reflexivity|].
  rewrite IH by lia. reflexivity.
Qed.

Lemma len_rows_from X : forall y i,
  length X = length y -> len (rows_from i X y) = len y.
Proof.
  induction X as [|xi X IH]; intros [|yi y] i Hlen; simpl in *; try discriminate;
    [reflexivity|].
  specialize (IH y (i + 1) ltac:(lia)). unfold len in *. simpl. lia.
Qed.

(** X20.  [fit] on arrays of one length raises [ValueError] without
    touching the generator when there is no row, and when the labels sum
    to [0] or to their number (for labels [0] and [1]: when they are all
    equal), whatever the parameters. *)
Theorem X20_fit_rejects_one_class (self : Params) X y (w : World) :
  length X = length y ->
  (X = [] ->
   fit_ self X y w = (inl (ValueError "Zero samples in this node!, depth: 0"), w)) /\
  (X <> [] ->
   foldr Z.add 0 y = 0 \/ foldr Z.add 0 y = len y ->
   fit_ self X y w
   = (inl (ValueError "root node contains only instances from the same class!"), w)).
Proof.
  intros Hlen. split.
  - intros ->. destruct y; [|discriminate]. reflexivity.
  - intros Hne Hsum. unfold fit.
    assert ((length y <? length X)%nat = false) as -> by (apply Nat.ltb_ge; lia).
    destruct (_numpy_to_dict 0 X y) as [Xd yd].
    unfold bind, _build_tree. cbn [build_fuel]. cbn [count pos_count].
    rewrite (sum_y_rows_from X y 0 Hlen), (len_rows_from X y 0 Hlen).
    assert ((0 <? len y) = true) as ->.
    { apply Z.ltb_lt. destruct X; [congruence|]. destruct y; [discriminate|].
      unfold len. simpl. lia. }
    assert (is_mono {| count := len y; pos_count := foldr Z.add 0 y;
                       gini_data := gini_data_of (foldr Z.add 0 y)
                                      (len y - foldr Z.add 0 y) (len y) |} = true) as ->.
    { unfold is_mono. cbn [count pos_count]. apply orb_true_iff.
      destruct Hsum as [E|E]; [left|right]; apply Z.eqb_eq; exact E. }
    reflexivity.
Qed.

End Accounting.

(** ** When [fit] returns *)





Section FitReturns.

Context {RNG : Type}.
Variable np_exp : Q -> Q.
Variable np_random_seed : option Z -> RNG -> RNG.
Variable np_random_choice : list nat -> list Q -> RNG -> nat * RNG.

Hypothesis np_random_choice_in :
  forall a p g, a <> [] -> In (fst (np_random_choice a p g)) a.

Local Abbreviation build_f := (build_fuel np_exp np_random_seed np_random_choice).
Local Abbreviation build := (_build_tree np_exp np_random_seed np_random_choice).
Local Abbreviation fit_ := (fit np_exp np_random_seed np_random_choice).



(** X22.  [fit] raises the [ValueError] of [np.random.choice] on an empty
    candidate list, after seeding the generator once, when the root is to
    be split (both classes present, at least [min_samples_split] rows,
    [max_depth] not [0], at least one feature) and every attribute is
    constant over the rows. *)
Theorem X22_fit_without_viable_attribute (self : Params) X y (w : World) :
  length X = length y ->
  foldr Z.add 0 y <> 0 ->
  foldr Z.add 0 y <> len y ->
  min_samples_split self <= len y ->
  max_depth self <> 0 ->
  shape1 X <> O ->
  (forall i, (i < shape1 X)%nat -> viable (rows_from 0 X y) i = false) ->
  fit_ self X y w
  = (inl (ValueError "'a' cannot be empty unless no samples are taken"),
     {| gen := np_random_seed (random_state self) (gen w);
        seed_calls := S (seed_calls w) |}).
Proof.
  intros Hlen H0 H1 Hmss Hmd HF Hconst. unfold fit.
  assert ((length y <? length X)%nat = false) as -> by (apply Nat.ltb_ge; lia).
  destruct (_numpy_to_dict 0 X y) as [Xd yd]. unfold bind at 1. unfold _build_tree.
  cbn [build_fuel]. cbn [count pos_count].
  assert (Hattr : build_attrs (shape1 X) (len (rows_from 0 X y)) (rows_from 0 X y) = []).
  { assert (Hk : map fst (build_attrs (shape1 X) (len (rows_from 0 X y)) (rows_from 0 X y))
                 = []).
    { rewrite build_attrs_keys.
      assert (Hall : forall l, (forall i, In i l -> (i < shape1 X)%nat) ->
                               List.filter (viable (rows_from 0 X y)) l = []).
      { induction l as [|i l IH]; intros Hl; [reflexivity|]. simpl.
        rewrite (Hconst i) by (apply Hl; left; reflexivity).
        apply IH. intros j Hj. apply Hl. right. exact Hj. }
      apply Hall. intros i Hi. apply in_seq in Hi. lia. }
    destruct (build_attrs _ _ _); [reflexivity|discriminate Hk]. }
  rewrite Hattr.
  rewrite (sum_y_rows_from X y 0 Hlen), (len_rows_from X y 0 Hlen).
  assert (Hpos : 0 < len y).
  { destruct y; [exfalso; apply H0; reflexivity|]. unfold len. simpl. lia. }
  assert ((0 <? len y) = true) as -> by (apply Z.ltb_lt; exact Hpos).
  unfold is_mono. cbn [count pos_count].
  assert ((foldr Z.add 0 y =? 0) = false) as -> by (apply Z.eqb_neq; exact H0).
  assert ((foldr Z.add 0 y =? len y) = false) as -> by (apply Z.eqb_neq; exact H1).
  assert ((len y <? min_samples_split self) = false) as -> by (apply Z.ltb_ge; exact Hmss).
  assert ((Z.of_nat 0 =? max_depth self) = false) as ->
      by (apply Z.eqb_neq; simpl; intros E; apply Hmd; symmetry; exact E).
  assert ((Z.of_nat (shape1 X) - Z.of_nat 0 =? 0) = false) as -> by (apply Z.eqb_neq; lia).
  reflexivity.
Qed.

End FitReturns.

(** ** A key that has been deleted *)

Lemma first_missing_key (Xd : gmap Z (list Z)) (yd : gmap Z Z) D k :
  In k D -> Xd !! k = None ->
  exists D1 k' D2,
    D = D1 ++ k' :: D2 /\
    Forall (fun j => is_Some (Xd !! j) /\ is_Some (yd !! j)) D1 /\
    (Xd !! k' = None \/ yd !! k' = None).
Proof.
  induction D as [|j D IH]; intros Hin Hk; [destruct Hin|].
  destruct (Xd !! j) as [x|] eqn:EX.
  - destruct (yd !! j) as [v|] eqn:Ey.
    + destruct Hin as [->|Hin]; [congruence|].
      destruct (IH Hin Hk) as (D1 & k' & D2 & -> & HD1 & Hk').
      exists (j :: D1), k', D2. split; [reflexivity|]. split; [|exact Hk'].
      constructor; [|exact HD1]. rewrite EX, Ey. eauto.
    + exists [], j, D. split; [reflexivity|]. split; [constructor|auto].
  - exists [], j, D. split; [reflexivity|]. split; [constructor|auto].
Qed.

Section DeleteTwice.

Context {RNG : Type}.
Variable np_exp : Q -> Q.
Variable np_random_seed : option Z -> RNG -> RNG.
Variable np_random_choice : list nat -> list Q -> RNG -> nat * RNG.

Local Abbreviation del := (_delete np_exp np_random_seed np_random_choice).
Local Abbreviation delete_ := (delete np_exp np_random_seed np_random_choice).

(** X23.  After a [delete] that returned, every later [delete] whose
    batch names one of the deleted keys raises [KeyError] for a key of
    that batch and changes nothing: the tree, the store, the trace and the
    generator stay as the first call left them. *)
Theorem X23_deleted_key_cannot_be_deleted_again (self : Tree) (D : list Z) (w w' : World) tr
        (self' : Tree) (k : Z) (D2 : list Z) (w2 : World) :
  delete_ self D w = (inr tr, self', w') ->
  In k D -> In k D2 ->
  exists k', In k' D2 /\ delete_ self' D2 w2 = (inl (KeyError k'), self', w2).
Proof.
  intros Hdel HkD HkD2.
  assert (Hgone : X_train_ self' !! k = None).
  { unfold delete, batch_of in Hdel.
    destruct (_get_numpy_data _ _ D) as [e|batch]; [discriminate|].
    destruct (del _ _ _ _ _ _) as [[node trace|e t1 trace] w1]; [|discriminate].
    destruct (del_keys _ _ D) as [[e|] [Xd' yd']] eqn:Ek; [discriminate|].
    injection Hdel as <- <- <-. cbn [X_train_].
    destruct (del_keys_ok _ _ _ _ _ Ek) as (_ & HX & _).
    rewrite HX. apply mem_In in HkD. rewrite HkD. reflexivity. }
  destruct (first_missing_key (X_train_ self') (y_train_ self') D2 k HkD2 Hgone)
    as (D1 & k' & D3 & -> & HD1 & Hk').
  exists k'. split; [apply in_or_app; right; left; reflexivity|].
  unfold delete, batch_of.
  rewrite (_get_numpy_data_first_missing _ _ D1 k' D3 HD1 Hk'). reflexivity.
Qed.

End DeleteTwice.

(** ** The range of the cached Gini values *)

Lemma round_half_even_between (n m : Z) (q : Q) :
  (inject_Z n <= q <= inject_Z m)%Q -> n <= Np.round_half_even q <= m.
Proof.
  intros [Hn Hm]. unfold Np.round_half_even.
  pose proof (Qfloor_le q) as Hf1. pose proof (Qlt_floor q) as Hf2.
  assert (Hnf : n <= Qfloor q).
  { rewrite <- (Qfloor_Z n). apply Qfloor_resp_le, Hn. }
  assert (Hfm : Qfloor q <= m).
  { rewrite <- (Qfloor_Z m). apply Qfloor_resp_le, Hm. }
  assert (Hup : (inject_Z (Qfloor q) < q)%Q -> Qfloor q + 1 <= m).
  { intros Hlt. assert (Qfloor q < m); [|lia].
    rewrite Zlt_Qlt. eapply Qlt_le_trans; [exact Hlt|exact Hm]. }
  destruct (Qcompare_spec (q - inject_Z (Qfloor q)) (1 # 2)) as [E|E|E].
  - destruct (Z.even (Qfloor q)); [lia|]. split; [lia|]. apply Hup. lra.
  - lia.
  - split; [lia|]. apply Hup. lra.
Qed.

Lemma round8_between (a b : Z) (v : Q) :
  (a # 100000000 <= v <= b # 100000000)%Q ->
  (a # 100000000 <= Np.round8 v <= b # 100000000)%Q.
Proof.
  intros [Ha Hb]. unfold Np.round8. rewrite Qred_correct.
  destruct (round_half_even_between a b (v * inject_Z 100000000)) as [H1 H2].
  - assert (Ea : (inject_Z a == (a # 100000000) * inject_Z 100000000)%Q).
    { unfold Qeq, inject_Z. simpl. lia. }
    assert (Eb : (inject_Z b == (b # 100000000) * inject_Z 100000000)%Q).
    { unfold Qeq, inject_Z. simpl. lia. }
    rewrite Ea, Eb. split; apply Qmult_le_compat_r; try assumption; discriminate.
  - unfold Qle. simpl. split; lia.
Qed.

Lemma gini_data_spec_range (c p : Z) :
  0 <= p <= c -> 0 < c -> (0 <= gini_data_spec c p <= 1 # 2)%Q.
Proof.
  intros Hp Hc. unfold gini_data_spec.
  destruct (ratio_in_unit p c Hp Hc) as [Hq0 Hq1].
  rewrite Np_div_correct in Hq0, Hq1. unfold Np.of_int in *.
  assert (Hc' : ~ (inject_Z c == 0)%Q).
  { unfold Qeq. simpl. lia. }
  assert (E : (inject_Z (c - p) / inject_Z c == 1 - inject_Z p / inject_Z c)%Q).
  { unfold Z.sub. rewrite inject_Z_plus, inject_Z_opp. field. exact Hc'. }
  set (q := (inject_Z p / inject_Z c)%Q) in *.
  set (v := (1 - q ^ 2 - (inject_Z (c - p) / inject_Z c) ^ 2)%Q).
  assert (Hv : (0 # 100000000 <= v <= 50000000 # 100000000)%Q).
  { subst v. rewrite E. simpl Qpower.
    assert (H1 : (0 <= q * (1 - q))%Q) by (apply Qmult_le_0_compat; lra).
    assert (H2 : (0 <= (q - (1 # 2)) * (q - (1 # 2)))%Q).
    { destruct (Qlt_le_dec q (1 # 2)) as [Hlt|Hge].
      - assert (H : (0 <= ((1 # 2) - q) * ((1 # 2) - q))%Q)
          by (apply Qmult_le_0_compat; lra).
        lra.
      - apply Qmult_le_0_compat; lra. }
    split; lra. }
  destruct (round8_between 0 50000000 v Hv) as [H1 H2].
  split; lra.
Qed.

Lemma Inv_gini_range t : forall rows,
  (forall s, In s rows -> s_y s = 0 \/ s_y s = 1) ->
  Inv rows t ->
  all_decisions (fun nd => (0 <= gini_data nd <= 1 # 2)%Q) t.
Proof.
  induction t as [v nd lv idx|f nd attr l IHl r IHr]; intros rows Hbin HInv; [exact I|].
  destruct HInv as (Hc & Hp & Hg & Hm & _ & _ & Hl & Hr).
  cbn [all_decisions]. split; [|split].
  - rewrite Hg. pose proof (sum_y_binary rows Hbin) as Hs.
    unfold is_mono in Hm. apply orb_false_iff in Hm as [Hm1 Hm2].
    apply Z.eqb_neq in Hm1, Hm2.
    apply gini_data_spec_range; lia.
  - eapply IHl; [|exact Hl]. intros s Hs. apply Hbin.
    apply filter_In in Hs as [Hs _]. exact Hs.
  - eapply IHr; [|exact Hr]. intros s Hs. apply Hbin.
    apply filter_In in Hs as [Hs _]. exact Hs.
Qed.

(** X24.  In a tree that satisfies the invariant and whose stored labels
    are all [0] or [1], the [gini_data] cached at every decision node is
    between [0] and one half. *)
Theorem X24_gini_data_within_bounds (self : Tree) :
  TreeInv self ->
  binary_labels (y_train_ self) ->
  all_decisions (fun nd => (0 <= gini_data nd <= 1 # 2)%Q) (root_ self).
Proof.
  intros (rows & Ha & Hst & Hdom & HInv) Hbin.
  eapply Inv_gini_range; [|exact HInv]. intros s Hs.
  rewrite Forall_forall in Hst.
  destruct (Hst s) as [_ Hy]; [apply list_elem_of_In, Hs|].
  eapply Hbin, Hy.
Qed.

(** ** The further properties on concrete trees *)

Lemma TreeInv_tree_two : TreeInv tree_two.
Proof.
  apply (fit_TreeInv exp_q seed_unit choose_first choose_first_in params0 X_two y_two w0
           world_two).
  vm_compute. reflexivity.
Qed.

Lemma TreeShape_tree_two : TreeShape tree_two.
Proof.
  apply (fit_TreeShape exp_q seed_unit choose_first choose_first_in params0 X_two y_two w0
           world_two).
  vm_compute. reflexivity.
Qed.

Lemma binary_labels_tree_two : binary_labels (y_train_ tree_two).
Proof.
  change (y_train_ tree_two) with (snd (_numpy_to_dict 0 X_two y_two)).
  apply _numpy_to_dict_labels; [simpl; lia|].
  repeat (constructor; [lia|]). constructor.
Qed.

Lemma X5_witness :
  TreeInv tree_two /\
  List.NoDup (get_indices (root_ tree_two)) /\
  (forall k, In k (get_indices (root_ tree_two)) <-> is_Some (X_train_ tree_two !! k)) /\
  (forall k, In k (get_indices (root_ tree_two)) -> is_Some (y_train_ tree_two !! k)).
Proof.
  split; [exact TreeInv_tree_two|].
  exact (X5_leaf_keys_are_store_keys tree_two TreeInv_tree_two).
Defined.

Lemma X6_witness :
  TreeInv tree_two /\
  counts_ok (y_train_ tree_two) (root_ tree_two) /\
  count (node_dict_of (root_ tree_two)) = Z.of_nat (size (X_train_ tree_two)).
Proof.
  split; [exact TreeInv_tree_two|].
  exact (X6_node_counts_match_leaves tree_two TreeInv_tree_two).
Defined.

Lemma X7_witness :
  TreeInv tree_two /\
  height (root_ tree_two) <> O /\
  leaves_nonempty (root_ tree_two).
Proof.
  assert (H : height (root_ tree_two) <> O) by (vm_compute; discriminate).
  split; [exact TreeInv_tree_two|]. split; [exact H|].
  exact (X7_leaves_below_a_split_are_nonempty tree_two TreeInv_tree_two H).
Defined.

Lemma X8_witness :
  TreeInv tree_two /\
  X_train_ tree_two !! 1 = Some [1; 0] /\
  exists v nd lv idx,
    reached_leaf [1; 0] (root_ tree_two) = Leaf v nd lv idx /\
    In 1 idx /\
    _predict_value [1; 0] (root_ tree_two) = v /\
    v = (if pos_count nd =? 0 then 0%Q
         else Np.div (Np.of_int (pos_count nd)) (Np.of_int (count nd))).
Proof.
  assert (H : X_train_ tree_two !! 1 = Some [1; 0]) by (vm_compute; reflexivity).
  split; [exact TreeInv_tree_two|]. split; [exact H|].
  exact (X8_stored_row_reaches_its_leaf tree_two 1 [1; 0] TreeInv_tree_two H).
Defined.

Lemma X9_witness :
  TreeInv tree_two /\
  binary_labels (y_train_ tree_two) /\
  length (predict_proba tree_two X_xor) = length X_xor /\
  Forall (fun pr : Q * Q => (0 <= fst pr <= 1)%Q /\ (0 <= snd pr <= 1)%Q /\
                            (fst pr + snd pr == 1)%Q)
         (predict_proba tree_two X_xor).
Proof.
  split; [exact TreeInv_tree_two|]. split; [exact binary_labels_tree_two|].
  exact (X9_predict_proba_is_distribution tree_two X_xor TreeInv_tree_two
           binary_labels_tree_two).
Defined.

Lemma X12_witness :
  let t1 := deleted (delete1 tree3 [0] world3) in
  let t2 := fitted (fit1 params3 (minus [0] X3) (minus [0] y3) w0) in
  Tree_equals t1 (Some t2) = 1 /\
  forall x, (_predict_value x (root_ t1) == _predict_value x (root_ t2))%Q /\
            predict t1 [x] = predict t2 [x].
Proof.
  intros t1 t2.
  assert (H : Tree_equals t1 (Some t2) = 1) by (vm_compute; reflexivity).
  split; [exact H|].
  exact (X12_equal_trees_predict_alike t1 t2 H).
Defined.

Lemma X13_witness :
  random_state params3 = Some 0 /\
  Forall (fun r => length r = shape1 X3) X3 /\
  fit1 params3 X3 y3 w0 = (inr tree3, world3) /\
  delete1 tree3 [0] world3 = (inr ["2a_0"], deleted (delete1 tree3 [0] world3), world3) /\
  root_rebuilt ["2a_0"] /\
  exists t2 w4,
    fit1 params3 (minus [0] X3) (minus [0] y3) w0 = (inr t2, w4) /\
    erase_indices (root_ (deleted (delete1 tree3 [0] world3))) = erase_indices (root_ t2) /\
    Tree_equals (deleted (delete1 tree3 [0] world3)) (Some t2) = 1.
Proof.
  assert (H1 : random_state params3 = Some 0) by reflexivity.
  assert (H2 : Forall (fun r => length r = shape1 X3) X3) by (repeat constructor).
  assert (H3 : fit1 params3 X3 y3 w0 = (inr tree3, world3)) by (vm_compute; reflexivity).
  assert (H4 : delete1 tree3 [0] world3
               = (inr ["2a_0"], deleted (delete1 tree3 [0] world3), world3))
    by (vm_compute; reflexivity).
  assert (H5 : root_rebuilt ["2a_0"]) by (left; reflexivity).
  repeat (split; [assumption|]).
  exact (X13_rebuilt_root_equals_refit exp_q seed_unit choose_first choose_first_in
           seed_unit_some params3 X3 y3 [0] 0 w0 world3 world3 w0 tree3 _ ["2a_0"]
           H1 H2 H3 H4 H5).
Defined.

Lemma X14_witness :
  TreeShape tree_two /\ TreeShape (deleted (delete1 tree_two [2] world_two)).
Proof.
  destruct (X14_tree_shape_is_invariant exp_q seed_unit choose_first choose_first_in)
    as [Hfit Hdel].
  assert (H1 : TreeShape tree_two).
  { apply (Hfit params0 X_two y_two w0 world_two). vm_compute. reflexivity. }
  split; [exact H1|].
  apply (Hdel tree_two [2] world_two world_two ["1a"]); [exact H1|].
  vm_compute. reflexivity.
Defined.

Lemma X16_witness :
  TreeShape tree_two /\
  0 <= max_depth (params tree_two) /\
  (height (root_ tree_two) <= n_features_ tree_two)%nat /\
  Z.of_nat (height (root_ tree_two)) <= max_depth (params tree_two).
Proof.
  assert (H : 0 <= max_depth (params tree_two)) by (vm_compute; discriminate).
  split; [exact TreeShape_tree_two|]. split; [exact H|].
  destruct (X16_height_within_limits tree_two TreeShape_tree_two) as [H1 H2].
  split; [exact H1|exact (H2 H)].
Defined.

Lemma X15_witness :
  fit1 params3 X3 y3 w0 = (inr tree3, world3) /\
  all_decisions (fun nd => min_samples_split params3 <= count nd) (root_ tree3).
Proof.
  assert (H : fit1 params3 X3 y3 w0 = (inr tree3, world3)) by (vm_compute; reflexivity).
  split; [exact H|].
  exact (X15_fit_respects_min_samples_split exp_q seed_unit choose_first
           params3 X3 y3 w0 world3 tree3 H).
Defined.

Lemma X17_witness :
  TreeShape tree_two /\
  root_ tree_two = Decision (feature_of (root_ tree_two)) (node_dict_of (root_ tree_two))
                     (attr_of (root_ tree_two)) (left_of (root_ tree_two))
                     (right_of (root_ tree_two)) /\
  (In 1%nat (map fst (attr_of (root_ tree_two))) <->
   (1 < n_features_ tree_two)%nat /\
   (exists k x, X_train_ tree_two !! k = Some x /\ nth 1 x 0 = 1) /\
   (exists k x, X_train_ tree_two !! k = Some x /\ nth 1 x 0 <> 1)).
Proof.
  assert (H : root_ tree_two
              = Decision (feature_of (root_ tree_two)) (node_dict_of (root_ tree_two))
                  (attr_of (root_ tree_two)) (left_of (root_ tree_two))
                  (right_of (root_ tree_two))) by (vm_compute; reflexivity).
  split; [exact TreeShape_tree_two|]. split; [exact H|].
  exact (X17_root_map_lists_viable_attributes tree_two _ _ _ _ _ 1%nat TreeShape_tree_two H).
Defined.

Lemma X18_witness :
  delete1 tree4 [0; 3] world4
  = (inr ["1a"; "1a"], deleted (delete1 tree4 [0; 3] world4), world4) /\
  [0; 3] <> [] /\
  Forall (deep_tag 0) ["1a"; "1a"] /\
  (1 <= length ["1a"; "1a"] <= length [0; 3])%nat.
Proof.
  assert (H : delete1 tree4 [0; 3] world4
              = (inr ["1a"; "1a"], deleted (delete1 tree4 [0; 3] world4), world4))
    by (vm_compute; reflexivity).
  assert (Hne : [0; 3] <> []) by discriminate.
  split; [exact H|]. split; [exact Hne|].
  destruct (X18_delete_trace_tags exp_q seed_unit choose_first tree4 [0; 3] world4 world4
              ["1a"; "1a"] _ H) as [H1 H2].
  split; [exact H1|exact (H2 Hne)].
Defined.

Lemma X19_witness :
  delete1 tree_two [2] {| gen := tt; seed_calls := 5 |}
  = (inr ["1a"], deleted (delete1 tree_two [2] world_two), {| gen := tt; seed_calls := 5 |}) /\
  Forall in_place_tag ["1a"] /\
  {| gen := tt; seed_calls := 5 |} = {| gen := tt; seed_calls := 5 |}.
Proof.
  assert (H : delete1 tree_two [2] {| gen := tt; seed_calls := 5 |}
              = (inr ["1a"], deleted (delete1 tree_two [2] world_two),
                 {| gen := tt; seed_calls := 5 |})) by (vm_compute; reflexivity).
  assert (H2 : Forall in_place_tag ["1a"]) by (repeat constructor).
  split; [exact H|]. split; [exact H2|].
  exact (X19_in_place_delete_keeps_generator exp_q seed_unit choose_first tree_two [2]
           {| gen := tt; seed_calls := 5 |} {| gen := tt; seed_calls := 5 |} ["1a"] _ H H2).
Defined.

Lemma X20_witness :
  length X4 = length [1; 1; 1; 1] /\
  fit1 params0 X4 [1; 1; 1; 1] w0
  = (inl (ValueError "root node contains only instances from the same class!"), w0).
Proof.
  assert (H : length X4 = length [1; 1; 1; 1]) by reflexivity.
  split; [exact H|].
  apply (proj2 (X20_fit_rejects_one_class exp_q seed_unit choose_first params0 X4 [1; 1; 1; 1]
                  w0 H)).
  - discriminate.
  - right. reflexivity.
Defined.



Lemma X22_witness :
  fit1 params0 [[1]; [1]] [1; 0] w0
  = (inl (ValueError "'a' cannot be empty unless no samples are taken"),
     {| gen := tt; seed_calls := 1 |}).
Proof.
  apply (X22_fit_without_viable_attribute exp_q seed_unit choose_first params0 [[1]; [1]] [1; 0] w0).
  - reflexivity.
  - vm_compute. discriminate.
  - vm_compute. discriminate.
  - vm_compute. discriminate.
  - vm_compute. discriminate.
  - simpl. lia.
  - intros i Hi. assert (i = 0%nat) as -> by (simpl in Hi; lia). reflexivity.
Defined.

Lemma X23_witness :
  delete1 tree3 [0] world3 = (inr ["2a_0"], deleted (delete1 tree3 [0] world3), world3) /\
  exists k', In k' [1; 0] /\
             delete1 (deleted (delete1 tree3 [0] world3)) [1; 0] w0
             = (inl (KeyError k'), deleted (delete1 tree3 [0] world3), w0).
Proof.
  assert (H : delete1 tree3 [0] world3
              = (inr ["2a_0"], deleted (delete1 tree3 [0] world3), world3))
    by (vm_compute; reflexivity).
  split; [exact H|].
  apply (X23_deleted_key_cannot_be_deleted_again exp_q seed_unit choose_first tree3 [0]
           world3 world3 ["2a_0"] _ 0 [1; 0] w0 H).
  - left. reflexivity.
  - right. left. reflexivity.
Defined.

Lemma X24_witness :
  TreeInv tree_two /\
  binary_labels (y_train_ tree_two) /\
  all_decisions (fun nd => (0 <= gini_data nd <= 1 # 2)%Q) (root_ tree_two).
Proof.
  split; [exact TreeInv_tree_two|]. split; [exact binary_labels_tree_two|].
  exact (X24_gini_data_within_bounds tree_two TreeInv_tree_two binary_labels_tree_two).
Defined.
